(** * Reference models of the FROST RISC-V co-verification testbench

    A shallow embedding of the Python reference models under [verif/]
    (branch unit, data memory, floating-point unit, instruction encoders
    and the SC.W executor), with the properties of the specification
    proved about them.

    Python integers are unbounded, so they are modelled by [Z]; the
    bitwise operators [&], [|], [^], [<<] and [>>] are [Z.land], [Z.lor],
    [Z.lxor], [Z.shiftl] and [Z.shiftr], which agree with Python on
    negative numbers as well (two's complement with infinite sign
    extension, arithmetic right shift).  The dictionary [ram_bytes] is a
    [gmap Z Z]. *)

From Stdlib Require Import ZArith QArith Qabs Qpower Qfield Qminmax Lia Lqa List Bool String Ascii.
From stdpp Require Import base gmap.

Local Open Scope Z_scope.

(** ** Outcomes of Python calls: a value or a raised exception *)

Inductive py_exception : Type :=
| AssertionError (msg : string)
| ValidationError (msg : string)
| IndexError (msg : string)
| ZeroDivisionError (msg : string)
| ValueError (msg : string)
| OverflowError (msg : string)
| EncodingError (msg : string).

Inductive result (A : Type) : Type :=
| Ok (a : A)
| Raise (e : py_exception).

Arguments Ok {A} a.
Arguments Raise {A} e.

Definition bind {A B : Type} (r : result A) (k : A -> result B) : result B :=
  match r with
  | Ok a => k a
  | Raise e => Raise e
  end.

Definition raises {A : Type} (r : result A) : Prop :=
  exists e, r = Raise e.

(** [r] is the outcome of a call whose operands are checked by [assert]
    statements: it returns a value when [legal] holds, and raises an
    [AssertionError] when it does not. *)
Definition raises_unless {A : Type} (legal : Prop) (r : result A) : Prop :=
  (legal -> exists a, r = Ok a) /\
  (~ legal -> exists msg, r = Raise (AssertionError msg)).

(** Case analysis on the integer comparisons of a goal, each replaced by
    its truth value with the matching fact among the hypotheses. *)
Ltac compare_cases :=
  repeat match goal with
  | |- context [Z.leb ?a ?b] => destruct (Z.leb_spec a b)
  | |- context [Z.eqb ?a ?b] => destruct (Z.eqb_spec a b)
  end.

(** ** config.py (only the constants fixed by the models themselves) *)

Definition MASK32 : Z := 0xFFFFFFFF.

(** ** utils/riscv_utils.py *)

Module riscv_utils.

(** [sign = 1 << (bits - 1); return (val & (sign - 1)) - (val & sign)] *)
Definition sign_extend (val bits : Z) : Z :=
  let sign := Z.shiftl 1 (bits - 1) in
  Z.land val (sign - 1) - Z.land val sign.

Definition to_signed32 (val : Z) : Z :=
  sign_extend (Z.land val MASK32) 32.

Definition to_unsigned32 (val : Z) : Z := Z.land val MASK32.

Definition to_signed33 (val : Z) : Z :=
  sign_extend (Z.land val MASK32) 32.

End riscv_utils.

(** ** models/branch_model.py *)

Module branch_model.
Import riscv_utils.

Definition branch_taken_decision (operation : string) (operand_a operand_b : Z)
  : result bool :=
  if String.eqb operation "beq" then Ok (operand_a =? operand_b)
  else if String.eqb operation "bne" then Ok (negb (operand_a =? operand_b))
  else if String.eqb operation "blt"
    then Ok (to_signed32 operand_a <? to_signed32 operand_b)
  else if String.eqb operation "bge"
    then Ok (to_signed32 operand_a >=? to_signed32 operand_b)
  else if String.eqb operation "bltu"
    then Ok (Z.land operand_a MASK32 <? Z.land operand_b MASK32)
  else if String.eqb operation "bgeu"
    then Ok (Z.land operand_a MASK32 >=? Z.land operand_b MASK32)
  else Raise (ValidationError "Invalid branch operation").

(** The reading of the specification: the value of a 32-bit pattern as a
    two's-complement integer, and as an unsigned integer. *)
Definition twos_complement32 (v : Z) : Z :=
  let u := v mod 2 ^ 32 in
  if u <? 2 ^ 31 then u else u - 2 ^ 32.

Definition unsigned32 (v : Z) : Z := v mod 2 ^ 32.

End branch_model.

(** ** models/memory_model.py *)

Module memory_model.

Section Memory.
(** [config.MEMORY_ADDRESS_MASK] and [config.MEMORY_WORD_ALIGN_MASK]
    are parameters of the model. *)
Variable MEMORY_ADDRESS_MASK : Z.
Variable MEMORY_WORD_ALIGN_MASK : Z.

(** [self.ram_bytes.get(address & MEMORY_ADDRESS_MASK, 0)] *)
Definition read_byte (ram_bytes : gmap Z Z) (address : Z) : Z :=
  default 0 (ram_bytes !! Z.land address MEMORY_ADDRESS_MASK).

(** [self.ram_bytes[address & MEMORY_ADDRESS_MASK] = value & 0xFF] *)
Definition write_byte (ram_bytes : gmap Z Z) (address value : Z) : gmap Z Z :=
  <[Z.land address MEMORY_ADDRESS_MASK := Z.land value 0xFF]> ram_bytes.

Definition read_word (ram_bytes : gmap Z Z) (address : Z) : Z :=
  let aligned_address := Z.land address MEMORY_WORD_ALIGN_MASK in
  Z.lor (Z.lor (Z.lor
    (read_byte ram_bytes aligned_address)
    (Z.shiftl (read_byte ram_bytes (aligned_address + 1)) 8))
    (Z.shiftl (read_byte ram_bytes (aligned_address + 2)) 16))
    (Z.shiftl (read_byte ram_bytes (aligned_address + 3)) 24).

Definition write_word (ram_bytes : gmap Z Z) (address value : Z) : gmap Z Z :=
  let aligned_address := Z.land address MEMORY_WORD_ALIGN_MASK in
  let m1 := write_byte ram_bytes aligned_address (Z.land value 0xFF) in
  let m2 := write_byte m1 (aligned_address + 1)
              (Z.land (Z.shiftr value 8) 0xFF) in
  let m3 := write_byte m2 (aligned_address + 2)
              (Z.land (Z.shiftr value 16) 0xFF) in
  write_byte m3 (aligned_address + 3) (Z.land (Z.shiftr value 24) 0xFF).

(** [__init__]: the dictionary starts empty and is filled, word by
    word, from the memory of the design under test
    ([dut_words], of length [MEMORY_SIZE_WORDS]). *)
Fixpoint init_from (word_index : Z) (dut_words : list Z) (ram_bytes : gmap Z Z)
  : gmap Z Z :=
  match dut_words with
  | [] => ram_bytes
  | w :: rest =>
      init_from (word_index + 1) rest (write_word ram_bytes (word_index * 4) w)
  end.

Definition init (dut_words : list Z) : gmap Z Z := init_from 0 dut_words ∅.

(** The memories the model can hold: the initial one, changed by any
    sequence of byte and word writes. *)
Inductive reachable : gmap Z Z -> Prop :=
| reach_init dut_words : reachable (init dut_words)
| reach_write_byte ram a v :
    reachable ram -> reachable (write_byte ram a v)
| reach_write_word ram a v :
    reachable ram -> reachable (write_word ram a v).

(** Every stored key is a masked address, every stored value a byte. *)
Definition ram_invariant (ram_bytes : gmap Z Z) : Prop :=
  map_Forall (fun key value =>
    key = Z.land key MEMORY_ADDRESS_MASK /\ 0 <= value <= 255) ram_bytes.

End Memory.

(** The monitor loop of [driver_and_monitor], after reset.  Each
    iteration samples, after one falling and one rising clock edge, the
    three output signals of the design under test. *)
Record dut_sample : Type := {
  o_data_mem_per_byte_wr_en : Z;
  o_data_mem_addr : Z;
  o_data_mem_wr_data : Z
}.

Record write_queues : Type := {
  write_data_expected_queue : list Z;
  write_address_expected_queue : list Z
}.

Inductive monitor_error : Type :=
| AddressMismatch (wr_addr exp_addr : Z)
| DataMismatch (wr_addr wr_data exp_data : Z)
| UnexpectedWrite (wr_addr wr_data wr_mask : Z)
| PopFromEmptyList.

(** One iteration of the [while True] loop. *)
Definition monitor_step (q : write_queues) (s : dut_sample)
  : write_queues + monitor_error :=
  let wr_mask := Z.land (o_data_mem_per_byte_wr_en s) 0xF in
  if wr_mask =? 0 then inl q
  else
    let wr_addr := Z.land (o_data_mem_addr s) MASK32 in
    let wr_data := Z.land (o_data_mem_wr_data s) MASK32 in
    match write_address_expected_queue q with
    | exp_addr :: addr_rest =>
        match write_data_expected_queue q with
        | exp_data :: data_rest =>
            let q' := {| write_data_expected_queue := data_rest;
                         write_address_expected_queue := addr_rest |} in
            if negb (wr_addr =? exp_addr)
            then inr (AddressMismatch wr_addr exp_addr)
            else if negb (wr_data =? exp_data)
            then inr (DataMismatch wr_addr wr_data exp_data)
            else inl q'
        | [] => inr PopFromEmptyList
        end
    | [] => inr (UnexpectedWrite wr_addr wr_data wr_mask)
    end.

(** The loop over the samples of successive cycles; it stops at the
    first exception. *)
Fixpoint monitor_run (q : write_queues) (samples : list dut_sample)
  : write_queues + monitor_error :=
  match samples with
  | [] => inl q
  | s :: rest =>
      match monitor_step q s with
      | inl q' => monitor_run q' rest
      | inr e => inr e
      end
  end.

End memory_model.

(** ** Python [float] (IEEE-754 binary64) and [struct] packing

    The host operations the floating-point model calls: decoding a
    binary32 pattern into a float ([struct.unpack(">f")]), comparison,
    division, [round], and encoding a float as binary32
    ([struct.pack(">f")]).  A finite float is [m * 2^e] with a sign, so
    every operation is exact integer arithmetic followed by one rounding
    to nearest, ties to even. *)

Module py_float.

Inductive pyfloat : Type :=
| PyNaN
| PyInf (neg : bool)
| PyFin (neg : bool) (m e : Z).

(** [n / d] rounded to the nearest integer, ties to the even one
    ([0 <= n], [0 < d]). *)
Definition rne_div (n d : Z) : Z :=
  let q := n / d in
  let r := n mod d in
  if 2 * r <? d then q
  else if d <? 2 * r then q + 1
  else if Z.even q then q else q + 1.

(** The exponent [e] with [2^e <= n / d < 2^(e+1)] ([0 < n], [0 < d]). *)
Definition floor_log2_ratio (n d : Z) : Z :=
  let l := Z.log2 n - Z.log2 d in
  if 0 <=? l
  then (if d * 2 ^ l <=? n then l else l - 1)
  else (if d <=? n * 2 ^ (- l) then l else l - 1).

(** Rounding of the positive rational [n / d] to a binary format with
    [prec] significant bits and least quantum [2^emin]: the result is
    [m * 2^qe]. *)
Definition round_to_format (prec emin : Z) (n d : Z) : Z * Z :=
  let e := floor_log2_ratio n d in
  let qe := Z.max (e - prec + 1) emin in
  let m := if 0 <=? qe then rne_div n (d * 2 ^ qe)
           else rne_div (n * 2 ^ (- qe)) d in
  (m, qe).

(** [struct.unpack(">f", struct.pack(">I", bits))[0]] *)
Definition unpack_f (bits : Z) : pyfloat :=
  let neg := Z.testbit bits 31 in
  let exp := Z.land (Z.shiftr bits 23) 0xFF in
  let mant := Z.land bits 0x7FFFFF in
  if exp =? 0xFF then (if mant =? 0 then PyInf neg else PyNaN)
  else if exp =? 0 then PyFin neg mant (-149)
  else PyFin neg (Z.lor 0x800000 mant) (exp - 150).

(** The signed numerator of a finite float at the common exponent
    [Z.min e1 e2]. *)
Definition scaled (neg : bool) (m e emin : Z) : Z :=
  (if neg then - m else m) * 2 ^ (e - emin).

(** Comparison of floats; [None] when one of them is NaN. *)
Definition compare (f g : pyfloat) : option comparison :=
  match f, g with
  | PyNaN, _ | _, PyNaN => None
  | PyInf n1, PyInf n2 =>
      Some (if n1 then (if n2 then Eq else Lt) else (if n2 then Gt else Eq))
  | PyInf n1, PyFin _ _ _ => Some (if n1 then Lt else Gt)
  | PyFin _ _ _, PyInf n2 => Some (if n2 then Gt else Lt)
  | PyFin n1 m1 e1, PyFin n2 m2 e2 =>
      let e := Z.min e1 e2 in
      Some (scaled n1 m1 e1 e ?= scaled n2 m2 e2 e)
  end.

Definition eqb (f g : pyfloat) : bool :=
  match compare f g with Some Eq => true | _ => false end.
Definition ltb (f g : pyfloat) : bool :=
  match compare f g with Some Lt => true | _ => false end.
Definition geb (f g : pyfloat) : bool :=
  match compare f g with Some Gt | Some Eq => true | _ => false end.

Definition isnan (f : pyfloat) : bool :=
  match f with PyNaN => true | _ => false end.
Definition isinf (f : pyfloat) : bool :=
  match f with PyInf _ => true | _ => false end.

(** Float literals of the source. *)
Definition zero : pyfloat := PyFin false 0 0.
Definition two_pow_31 : pyfloat := PyFin false 1 31.       (* 2147483648.0 *)
Definition minus_two_pow_31 : pyfloat := PyFin true 1 31.  (* -2147483648.0 *)

(** A rounded magnitude as a binary64 float; overflow gives infinity. *)
Definition finish64 (neg : bool) (me : Z * Z) : pyfloat :=
  let '(m, e) := me in
  if 2 ^ 1024 <=? m * 2 ^ e then PyInf neg else PyFin neg m e.

(** [f / g]; Python raises [ZeroDivisionError] on a zero divisor. *)
Definition div (f g : pyfloat) : option pyfloat :=
  match f, g with
  | _, PyFin _ 0 _ => None
  | PyNaN, _ | _, PyNaN => Some PyNaN
  | PyInf _, PyInf _ => Some PyNaN
  | PyInf n1, PyFin n2 _ _ => Some (PyInf (xorb n1 n2))
  | PyFin n1 _ _, PyInf n2 => Some (PyFin (xorb n1 n2) 0 0)
  | PyFin n1 m1 e1, PyFin n2 m2 e2 =>
      if m1 =? 0 then Some (PyFin (xorb n1 n2) 0 0)
      else
        let n := m1 * 2 ^ (Z.max (e1 - e2) 0) in
        let d := m2 * 2 ^ (Z.max (e2 - e1) 0) in
        Some (finish64 (xorb n1 n2) (round_to_format 53 (-1074) n d))
  end.

(** [round(f)] of a finite float: nearest integer, ties to even. *)
Definition round (neg : bool) (m e : Z) : Z :=
  let r := if 0 <=? e then m * 2 ^ e else rne_div m (2 ^ (- e)) in
  if neg then - r else r.

(** [struct.pack(">f", f)] of a finite float, read back as an integer:
    the float is rounded to binary32; [None] stands for the
    [OverflowError] of a result too large for binary32. *)
Definition pack_f_finite (neg : bool) (m e : Z) : option Z :=
  let sign := if neg then 0x80000000 else 0 in
  if m =? 0 then Some sign
  else
    let '(m', qe) := round_to_format 24 (-149) (m * 2 ^ (Z.max e 0))
                                      (2 ^ (Z.max (- e) 0)) in
    let '(m'', qe') := if m' =? 2 ^ 24 then (2 ^ 23, qe + 1) else (m', qe) in
    if m'' <? 2 ^ 23 then Some (Z.lor sign m'')
    else if 255 <=? qe' + 150 then None
    else Some (Z.lor sign (Z.lor (Z.shiftl (qe' + 150) 23) (m'' - 2 ^ 23))).

(** [f <= g] *)
Definition leb (f g : pyfloat) : bool :=
  match compare f g with Some Lt | Some Eq => true | _ => false end.

End py_float.

(** ** Rounding to a number of significant decimal digits *)

Module rounding.

Abbreviation rne_div := py_float.rne_div.
Abbreviation floor_log2_ratio := py_float.floor_log2_ratio.
Abbreviation round_to_format := py_float.round_to_format.
(** The number of decimal digits of [c] ([0 < c]). *)
Fixpoint digits10_aux (fuel : nat) (c : Z) : Z :=
  match fuel with
  | O => 0
  | S fuel' => if c <? 10 then 1 else 1 + digits10_aux fuel' (c / 10)
  end.

Definition digits10 (c : Z) : Z :=
  digits10_aux (S (Z.to_nat (Z.log2 c))) c.

(** The exponent [e] with [10^e <= n / d < 10^(e+1)] ([0 < n], [0 < d]). *)
Definition floor_log10_ratio (n d : Z) : Z :=
  let l := digits10 n - digits10 d in
  if 0 <=? l
  then (if d * 10 ^ l <=? n then l else l - 1)
  else (if d <=? n * 10 ^ (- l) then l else l - 1).

(** Rounding of the positive rational [n / d] to [prec] significant
    decimal digits: the result is [c * 10^t]. *)
Definition round_sig (prec : Z) (n d : Z) : Z * Z :=
  let e := floor_log10_ratio n d in
  let t := e - prec + 1 in
  let c := if 0 <=? t then rne_div n (d * 10 ^ t)
           else rne_div (n * 10 ^ (- t)) d in
  (c, t).

End rounding.

(** ** Python [decimal.Decimal] in a context of 150 significant digits

    A finite decimal is a sign, a non-negative coefficient and an
    exponent: [(-1)^sign * coefficient * 10^exponent].  Every arithmetic
    operation returns the exact result rounded to the precision of the
    context with ROUND_HALF_EVEN.  The exponent limits of the context
    (Emax = 999999, Emin = -999999) are far from every value that occurs
    here and are not modelled; with the default traps no NaN or infinity
    is ever produced, an invalid operation raises instead.  Where Python
    stores a rounded coefficient [10^149] with the exponent one higher,
    the model may store [10^150]: the value is the same, and nothing
    observes the representation. *)

Module py_decimal.
Import rounding.
Definition prec : Z := 150.

Record decimal : Type := Dec { dneg : bool; dcoef : Z; dexp : Z }.

(** [Decimal(n)] of an integer: exact. *)
Definition of_int (n : Z) : decimal := Dec (n <? 0) (Z.abs n) 0.

(** Rounding to the precision of the context. *)
Definition _fix (negative : bool) (coef exp : Z) : decimal :=
  if coef <? 10 ^ prec then Dec negative coef exp
  else
    let '(c, t) := round_sig prec coef 1 in
    Dec negative c (exp + t).

Definition is_zero (x : decimal) : bool := dcoef x =? 0.
Definition is_signed (x : decimal) : bool := dneg x.
Definition is_nan (x : decimal) : bool := false.
Definition is_infinite (x : decimal) : bool := false.

(** The signed coefficient at the exponent [e <= dexp x]. *)
Definition aligned (x : decimal) (e : Z) : Z :=
  (if dneg x then - dcoef x else dcoef x) * 10 ^ (dexp x - e).

Definition compare (x y : decimal) : comparison :=
  let e := Z.min (dexp x) (dexp y) in
  aligned x e ?= aligned y e.

Definition eqb (x y : decimal) : bool :=
  match compare x y with Eq => true | _ => false end.
Definition ltb (x y : decimal) : bool :=
  match compare x y with Lt => true | _ => false end.
Definition leb (x y : decimal) : bool :=
  match compare x y with Gt => false | _ => true end.
Definition gtb (x y : decimal) : bool := ltb y x.
Definition geb (x y : decimal) : bool := leb y x.

(** [x * y] *)
Definition mul (x y : decimal) : decimal :=
  _fix (xorb (dneg x) (dneg y)) (dcoef x * dcoef y) (dexp x + dexp y).

(** [x + y]; an exact zero sum is negative only when both operands
    are. *)
Definition add (x y : decimal) : decimal :=
  let e := Z.min (dexp x) (dexp y) in
  let n := aligned x e + aligned y e in
  if n =? 0 then Dec (dneg x && dneg y) 0 e
  else _fix (n <? 0) (Z.abs n) e.

Definition copy_negate (x : decimal) : decimal :=
  Dec (negb (dneg x)) (dcoef x) (dexp x).

(** [-x]: the negation of a zero is the positive zero. *)
Definition neg (x : decimal) : decimal :=
  if is_zero x then Dec false 0 (dexp x)
  else _fix (negb (dneg x)) (dcoef x) (dexp x).

(** [abs(x)] *)
Definition abs (x : decimal) : decimal :=
  _fix false (dcoef x) (dexp x).

(** [x - y] *)
Definition sub (x y : decimal) : decimal := add x (copy_negate y).

(** [x / y]: the quotient rounded to the precision; a zero divisor
    raises. *)
Definition div (x y : decimal) : result decimal :=
  if is_zero y then Raise (ZeroDivisionError "decimal.DivisionByZero")
  else if is_zero x then Ok (Dec (xorb (dneg x) (dneg y)) 0 (dexp x - dexp y))
  else
    let n := dcoef x * 10 ^ Z.max (dexp x - dexp y) 0 in
    let d := dcoef y * 10 ^ Z.max (dexp y - dexp x) 0 in
    let '(c, t) := round_sig prec n d in
    Ok (Dec (xorb (dneg x) (dneg y)) c t).

(** [x ** n] for an integer [n]: the exact power rounded to the
    precision. *)
Definition pow (x : decimal) (n : Z) : result decimal :=
  if 0 <=? n
  then Ok (_fix (dneg x && Z.odd n) (dcoef x ^ n) (dexp x * n))
  else div (of_int 1) (Dec (dneg x && Z.odd n) (dcoef x ^ (- n)) (dexp x * (- n))).

(** [int(x)]: truncation towards zero. *)
Definition to_int (x : decimal) : Z :=
  let magnitude := if 0 <=? dexp x then dcoef x * 10 ^ dexp x
                   else dcoef x / 10 ^ (- dexp x) in
  if dneg x then - magnitude else magnitude.

End py_decimal.

(** Sequencing of calls that may raise. *)
Notation "'let*' x ':=' r 'in' k" := (bind r (fun x => k))
  (at level 10, x pattern, r at level 100, k at level 200).

(** ** models/fp_model.py: constants, predicates, division, conversion,
       classification *)

Module fp_model.
Import py_float.

Definition FP_POS_ZERO : Z := 0x00000000.
Definition FP_NEG_ZERO : Z := 0x80000000.
Definition FP_POS_INF : Z := 0x7F800000.
Definition FP_NEG_INF : Z := 0xFF800000.
Definition FP_CANONICAL_NAN : Z := 0x7FC00000.

Definition FP_SIGN_MASK : Z := 0x80000000.
Definition FP_EXP_MASK : Z := 0x7F800000.
Definition FP_MANT_MASK : Z := 0x007FFFFF.

Definition bits_to_float (bits : Z) : pyfloat :=
  unpack_f (Z.land bits MASK32).

Definition float_to_bits (f : pyfloat) : Z :=
  match f with
  | PyNaN => FP_CANONICAL_NAN
  | PyInf neg => if neg then FP_NEG_INF else FP_POS_INF
  | PyFin neg m e =>
      match pack_f_finite neg m e with
      | Some bits => bits
      | None => if ltb f zero then FP_NEG_INF else FP_POS_INF
      end
  end.

Definition is_nan (bits : Z) : bool :=
  let exp := Z.shiftr (Z.land bits FP_EXP_MASK) 23 in
  let mant := Z.land bits FP_MANT_MASK in
  (exp =? 0xFF) && negb (mant =? 0).

Definition is_inf (bits : Z) : bool :=
  let exp := Z.shiftr (Z.land bits FP_EXP_MASK) 23 in
  let mant := Z.land bits FP_MANT_MASK in
  (exp =? 0xFF) && (mant =? 0).

Definition is_zero (bits : Z) : bool :=
  Z.land bits 0x7FFFFFFF =? 0.

Definition is_subnormal (bits : Z) : bool :=
  let exp := Z.shiftr (Z.land bits FP_EXP_MASK) 23 in
  let mant := Z.land bits FP_MANT_MASK in
  (exp =? 0) && negb (mant =? 0).

(** [bool(bits & FP_SIGN_MASK)] *)
Definition is_negative (bits : Z) : bool :=
  negb (Z.land bits FP_SIGN_MASK =? 0).

Definition canonicalize_nan (bits : Z) : Z :=
  if is_nan bits then FP_CANONICAL_NAN else bits.

Definition fdiv_s (rs1_bits rs2_bits : Z) : result Z :=
  if is_nan rs1_bits || is_nan rs2_bits then Ok FP_CANONICAL_NAN
  else if is_inf rs1_bits && is_inf rs2_bits then Ok FP_CANONICAL_NAN
  else if is_zero rs1_bits && is_zero rs2_bits then Ok FP_CANONICAL_NAN
  else
    let f1 := bits_to_float rs1_bits in
    let f2 := bits_to_float rs2_bits in
    if eqb f2 zero then
      let sign := Z.land (Z.lxor rs1_bits rs2_bits) FP_SIGN_MASK in
      Ok (Z.lor FP_POS_INF sign)
    else
      match div f1 f2 with
      | None => Raise (ZeroDivisionError "float division by zero")
      | Some result =>
          let result_bits := float_to_bits result in
          Ok (canonicalize_nan result_bits)
      end.

(** [int(round(value))]; [round] raises on NaN and infinities. *)
Definition _round_to_nearest_even (value : pyfloat) : result Z :=
  match value with
  | PyNaN => Raise (ValueError "cannot convert float NaN to integer")
  | PyInf _ => Raise (OverflowError "cannot convert float infinity to integer")
  | PyFin neg m e => Ok (round neg m e)
  end.

Definition fcvt_w_s (rs1_bits : Z) : result Z :=
  if is_nan rs1_bits then Ok 0x7FFFFFFF
  else if is_inf rs1_bits
  then Ok (if negb (is_negative rs1_bits) then 0x7FFFFFFF else 0x80000000)
  else
    let f := bits_to_float rs1_bits in
    if geb f two_pow_31 then Ok 0x7FFFFFFF
    else if ltb f minus_two_pow_31 then Ok 0x80000000
    else
      match _round_to_nearest_even f with
      | Raise e => Raise e
      | Ok result =>
          if 2147483647 <? result then Ok 0x7FFFFFFF
          else if result <? -2147483648 then Ok 0x80000000
          else Ok (Z.land result MASK32)
      end.

Definition fclass_s (rs1_bits : Z) : Z :=
  let sign := is_negative rs1_bits in
  let exp := Z.shiftr (Z.land rs1_bits FP_EXP_MASK) 23 in
  let mant := Z.land rs1_bits FP_MANT_MASK in
  if exp =? 0xFF then
    if mant =? 0 then (if sign then 1 else 0x80)
    else if negb (Z.land mant 0x00400000 =? 0) then 0x200 else 0x100
  else if exp =? 0 then
    if mant =? 0 then (if sign then 8 else 0x10)
    else (if sign then 4 else 0x20)
  else (if sign then 2 else 0x40).

(** *** Fused multiply-add *)

(** The nested helpers of [_fma_float32]. *)
Definition _is_inf (bits : Z) : bool :=
  (Z.land (Z.shiftr bits 23) 0xFF =? 0xFF) && (Z.land bits 0x7FFFFF =? 0).

Definition _is_zero (bits : Z) : bool := Z.land bits 0x7FFFFFFF =? 0.

Definition _get_sign (bits : Z) : Z := Z.land (Z.shiftr bits 31) 1.

Definition unpack_float32 (bits : Z) : Z * Z * Z :=
  (Z.land (Z.shiftr bits 31) 1,
   Z.land (Z.shiftr bits 23) 0xFF,
   Z.land bits 0x7FFFFF).

Definition float32_to_decimal (bits : Z) : result py_decimal.decimal :=
  let '(sign, exp, mant) := unpack_float32 bits in
  if exp =? 0 then
    if mant =? 0 then Ok (if sign =? 0 then py_decimal.Dec false 0 0 else py_decimal.Dec true 0 0)
    else
      let* p := py_decimal.pow (py_decimal.of_int 2) (-149) in
      let value := py_decimal.mul (py_decimal.of_int mant) p in
      Ok (if negb (sign =? 0) then py_decimal.neg value else value)
  else
    let* p := py_decimal.pow (py_decimal.of_int 2) (exp - 150) in
    let value := py_decimal.mul (py_decimal.of_int (Z.lor 0x800000 mant)) p in
    Ok (if negb (sign =? 0) then py_decimal.neg value else value).

(** The bound on the iterations of the two search loops in the model;
    running into it is reported as an [OverflowError], which nothing
    else in [_fma_float32] raises. *)
Definition loop_fuel : nat := 2000.

(** [while power * 2 <= d_abs: power *= 2; exp_estimate += 1] *)
Fixpoint search_up (fuel : nat) (d_abs power : py_decimal.decimal) (exp_estimate : Z)
  : result (py_decimal.decimal * Z) :=
  match fuel with
  | O => Raise (OverflowError "while power * 2 <= d_abs")
  | S fuel' =>
      if py_decimal.leb (py_decimal.mul power (py_decimal.of_int 2)) d_abs
      then search_up fuel' d_abs (py_decimal.mul power (py_decimal.of_int 2)) (exp_estimate + 1)
      else Ok (power, exp_estimate)
  end.

(** [while power > d_abs: power /= 2; exp_estimate -= 1] *)
Fixpoint search_down (fuel : nat) (d_abs power : py_decimal.decimal) (exp_estimate : Z)
  : result (py_decimal.decimal * Z) :=
  match fuel with
  | O => Raise (OverflowError "while power > d_abs")
  | S fuel' =>
      if py_decimal.gtb power d_abs
      then
        let* power' := py_decimal.div power (py_decimal.of_int 2) in
        search_down fuel' d_abs power' (exp_estimate - 1)
      else Ok (power, exp_estimate)
  end.

(** [d_abs * (two**scale_exp)] or [d_abs / (two ** (-scale_exp))] *)
Definition scale (d_abs two : py_decimal.decimal) (scale_exp : Z) : result py_decimal.decimal :=
  if 0 <=? scale_exp
  then let* p := py_decimal.pow two scale_exp in Ok (py_decimal.mul d_abs p)
  else let* p := py_decimal.pow two (- scale_exp) in py_decimal.div d_abs p.

(** [guard & (round_bit | sticky | lsb)] from the scaled value. *)
Definition round_up_of (scaled : py_decimal.decimal) (mantissa : Z) : Z :=
  let scaled_int := py_decimal.to_int scaled in
  let remainder := py_decimal.sub scaled (py_decimal.of_int scaled_int) in
  let guard := Z.land (Z.shiftr scaled_int 26) 1 in
  let round_bit := Z.land (Z.shiftr scaled_int 25) 1 in
  let sticky :=
    if negb (Z.land scaled_int 0x1FFFFFF =? 0)
       || negb (py_decimal.eqb remainder (py_decimal.of_int 0))
    then 1 else 0 in
  let lsb := Z.land mantissa 1 in
  Z.land guard (Z.lor (Z.lor round_bit sticky) lsb).

Definition decimal_to_float32 (d : py_decimal.decimal) : result Z :=
  if py_decimal.is_nan d then Ok FP_CANONICAL_NAN
  else if py_decimal.is_infinite d
  then Ok (if py_decimal.ltb d (py_decimal.of_int 0) then FP_NEG_INF else FP_POS_INF)
  else if py_decimal.eqb d (py_decimal.of_int 0)
  then Ok (if py_decimal.is_signed d then FP_NEG_ZERO else FP_POS_ZERO)
  else
    let sign := if py_decimal.ltb d (py_decimal.of_int 0) then 1 else 0 in
    let d_abs := py_decimal.abs d in
    let two := py_decimal.of_int 2 in
    let* found :=
      if py_decimal.geb d_abs (py_decimal.of_int 1)
      then search_up loop_fuel d_abs (py_decimal.of_int 1) 0
      else search_down loop_fuel d_abs (py_decimal.Dec false 5 (-1)) (-1) in
    let exp_estimate := snd found in
    let* power_low := py_decimal.pow two exp_estimate in
    let* power_high := py_decimal.pow two (exp_estimate + 1) in
    if negb (py_decimal.leb power_low d_abs && py_decimal.ltb d_abs power_high)
    then Raise (AssertionError "Exponent calc error")
    else
      let biased_exp := exp_estimate + 127 in
      if 255 <=? biased_exp
      then Ok (if negb (sign =? 0) then FP_NEG_INF else FP_POS_INF)
      else if 1 <=? biased_exp then
        let scale_exp := 50 - exp_estimate in
        let* scaled := scale d_abs two scale_exp in
        let scaled_int := py_decimal.to_int scaled in
        let mantissa_24 := Z.shiftr scaled_int 27 in
        let round_up := round_up_of scaled mantissa_24 in
        let finish := fun mantissa_24 biased_exp : Z =>
          let mantissa_23 := Z.land mantissa_24 0x7FFFFF in
          Ok (Z.lor (Z.lor (Z.shiftl sign 31) (Z.shiftl biased_exp 23))
                    mantissa_23) in
        if negb (round_up =? 0) then
          let mantissa_24 := mantissa_24 + 1 in
          if Z.shiftl 1 24 <=? mantissa_24 then
            let mantissa_24 := Z.shiftr mantissa_24 1 in
            let biased_exp := biased_exp + 1 in
            if 255 <=? biased_exp
            then Ok (if negb (sign =? 0) then FP_NEG_INF else FP_POS_INF)
            else finish mantissa_24 biased_exp
          else finish mantissa_24 biased_exp
        else finish mantissa_24 biased_exp
      else
        let shift := 1 - biased_exp in
        if 25 <=? shift
        then Ok (if negb (sign =? 0) then FP_NEG_ZERO else FP_POS_ZERO)
        else
          let scale_exp := 49 + biased_exp - exp_estimate in
          let* scaled := scale d_abs two scale_exp in
          let scaled_int := py_decimal.to_int scaled in
          let mantissa := Z.shiftr scaled_int 27 in
          let round_up := round_up_of scaled mantissa in
          let finish := fun mantissa : Z =>
            let mantissa_23 := Z.land mantissa 0x7FFFFF in
            Ok (Z.lor (Z.shiftl sign 31) mantissa_23) in
          if negb (round_up =? 0) then
            let mantissa := mantissa + 1 in
            if Z.shiftl 1 23 <=? mantissa
            then Ok (Z.lor (Z.shiftl sign 31) (Z.shiftl 1 23))
            else finish mantissa
          else finish mantissa.

Definition _fma_float32 (a_bits b_bits c_bits : Z) : result Z :=
  let a_inf := _is_inf a_bits in
  let b_inf := _is_inf b_bits in
  let c_inf := _is_inf c_bits in
  let a_zero := _is_zero a_bits in
  let b_zero := _is_zero b_bits in
  if (a_inf && b_zero) || (a_zero && b_inf) then Ok FP_CANONICAL_NAN
  else if a_inf || b_inf then
    let prod_sign := Z.lxor (_get_sign a_bits) (_get_sign b_bits) in
    if c_inf then
      let c_sign := _get_sign c_bits in
      if negb (prod_sign =? c_sign) then Ok FP_CANONICAL_NAN
      else Ok (if negb (prod_sign =? 0) then FP_NEG_INF else FP_POS_INF)
    else Ok (if negb (prod_sign =? 0) then FP_NEG_INF else FP_POS_INF)
  else if c_inf then
    let c_sign := _get_sign c_bits in
    Ok (if negb (c_sign =? 0) then FP_NEG_INF else FP_POS_INF)
  else
    let* a_dec := float32_to_decimal a_bits in
    let* b_dec := float32_to_decimal b_bits in
    let* c_dec := float32_to_decimal c_bits in
    let result_dec := py_decimal.add (py_decimal.mul a_dec b_dec) c_dec in
    decimal_to_float32 result_dec.

Definition _negate_float32 (bits : Z) : Z := Z.lxor bits FP_SIGN_MASK.

Definition fmadd_s (rs1_bits rs2_bits rs3_bits : Z) : result Z :=
  if is_nan rs1_bits || is_nan rs2_bits || is_nan rs3_bits
  then Ok FP_CANONICAL_NAN
  else if (is_zero rs1_bits && is_inf rs2_bits)
          || (is_inf rs1_bits && is_zero rs2_bits)
  then Ok FP_CANONICAL_NAN
  else if (is_inf rs1_bits || is_inf rs2_bits)
          && (let prod_sign :=
                Z.land (Z.lxor (Z.shiftr rs1_bits 31) (Z.shiftr rs2_bits 31)) 1 in
              is_inf rs3_bits
              && negb (Z.land (Z.shiftr rs3_bits 31) 1 =? prod_sign))
  then Ok FP_CANONICAL_NAN
  else
    let* result_bits := _fma_float32 rs1_bits rs2_bits rs3_bits in
    Ok (canonicalize_nan result_bits).

(** [FMSUB = FMA(a, b, -c)] *)
Definition fmsub_s (rs1_bits rs2_bits rs3_bits : Z) : result Z :=
  if is_nan rs1_bits || is_nan rs2_bits || is_nan rs3_bits
  then Ok FP_CANONICAL_NAN
  else if (is_zero rs1_bits && is_inf rs2_bits)
          || (is_inf rs1_bits && is_zero rs2_bits)
  then Ok FP_CANONICAL_NAN
  else if (is_inf rs1_bits || is_inf rs2_bits)
          && (let prod_sign :=
                Z.land (Z.lxor (Z.shiftr rs1_bits 31) (Z.shiftr rs2_bits 31)) 1 in
              let c_negated_sign := 1 - Z.land (Z.shiftr rs3_bits 31) 1 in
              is_inf rs3_bits && negb (c_negated_sign =? prod_sign))
  then Ok FP_CANONICAL_NAN
  else
    let* result_bits :=
      _fma_float32 rs1_bits rs2_bits (_negate_float32 rs3_bits) in
    Ok (canonicalize_nan result_bits).

(** [FNMADD = FMA(-a, b, -c) = -(a*b) - c] *)
Definition fnmadd_s (rs1_bits rs2_bits rs3_bits : Z) : result Z :=
  if is_nan rs1_bits || is_nan rs2_bits || is_nan rs3_bits
  then Ok FP_CANONICAL_NAN
  else if (is_zero rs1_bits && is_inf rs2_bits)
          || (is_inf rs1_bits && is_zero rs2_bits)
  then Ok FP_CANONICAL_NAN
  else if (is_inf rs1_bits || is_inf rs2_bits)
          && (let prod_sign :=
                Z.land (Z.lxor (Z.shiftr rs1_bits 31) (Z.shiftr rs2_bits 31)) 1 in
              let negated_prod_sign := 1 - prod_sign in
              let c_negated_sign := 1 - Z.land (Z.shiftr rs3_bits 31) 1 in
              is_inf rs3_bits && negb (c_negated_sign =? negated_prod_sign))
  then Ok FP_CANONICAL_NAN
  else
    let* result_bits :=
      _fma_float32 (_negate_float32 rs1_bits) rs2_bits
        (_negate_float32 rs3_bits) in
    Ok (canonicalize_nan result_bits).

(** [FNMSUB = FMA(-a, b, c) = -(a*b) + c] *)
Definition fnmsub_s (rs1_bits rs2_bits rs3_bits : Z) : result Z :=
  if is_nan rs1_bits || is_nan rs2_bits || is_nan rs3_bits
  then Ok FP_CANONICAL_NAN
  else if (is_zero rs1_bits && is_inf rs2_bits)
          || (is_inf rs1_bits && is_zero rs2_bits)
  then Ok FP_CANONICAL_NAN
  else if (is_inf rs1_bits || is_inf rs2_bits)
          && (let prod_sign :=
                Z.land (Z.lxor (Z.shiftr rs1_bits 31) (Z.shiftr rs2_bits 31)) 1 in
              let negated_prod_sign := 1 - prod_sign in
              is_inf rs3_bits
              && negb (Z.land (Z.shiftr rs3_bits 31) 1 =? negated_prod_sign))
  then Ok FP_CANONICAL_NAN
  else
    let* result_bits :=
      _fma_float32 (_negate_float32 rs1_bits) rs2_bits rs3_bits in
    Ok (canonicalize_nan result_bits).

(** *** Sign manipulation *)

Definition fsgnj_s (rs1_bits rs2_bits : Z) : Z :=
  let magnitude := Z.land rs1_bits (Z.lnot FP_SIGN_MASK) in
  let sign := Z.land rs2_bits FP_SIGN_MASK in
  Z.lor magnitude sign.

Definition fsgnjn_s (rs1_bits rs2_bits : Z) : Z :=
  let magnitude := Z.land rs1_bits (Z.lnot FP_SIGN_MASK) in
  let sign := Z.land (Z.lnot rs2_bits) FP_SIGN_MASK in
  Z.lor magnitude sign.

Definition fsgnjx_s (rs1_bits rs2_bits : Z) : Z :=
  Z.lxor rs1_bits (Z.land rs2_bits FP_SIGN_MASK).

(** *** Minimum and maximum *)

Definition fmin_s (rs1_bits rs2_bits : Z) : Z :=
  let rs1_nan := is_nan rs1_bits in
  let rs2_nan := is_nan rs2_bits in
  if rs1_nan && rs2_nan then FP_CANONICAL_NAN
  else if rs1_nan then rs2_bits
  else if rs2_nan then rs1_bits
  else if is_zero rs1_bits && is_zero rs2_bits
  then (if is_negative rs1_bits then rs1_bits else rs2_bits)
  else
    let f1 := bits_to_float rs1_bits in
    let f2 := bits_to_float rs2_bits in
    if leb f1 f2 then rs1_bits else rs2_bits.

Definition fmax_s (rs1_bits rs2_bits : Z) : Z :=
  let rs1_nan := is_nan rs1_bits in
  let rs2_nan := is_nan rs2_bits in
  if rs1_nan && rs2_nan then FP_CANONICAL_NAN
  else if rs1_nan then rs2_bits
  else if rs2_nan then rs1_bits
  else if is_zero rs1_bits && is_zero rs2_bits
  then (if negb (is_negative rs1_bits) then rs1_bits else rs2_bits)
  else
    let f1 := bits_to_float rs1_bits in
    let f2 := bits_to_float rs2_bits in
    if geb f1 f2 then rs1_bits else rs2_bits.

(** *** Comparisons *)

Definition feq_s (rs1_bits rs2_bits : Z) : Z :=
  if is_nan rs1_bits || is_nan rs2_bits then 0
  else if is_zero rs1_bits && is_zero rs2_bits then 1
  else if rs1_bits =? rs2_bits then 1 else 0.

Definition flt_s (rs1_bits rs2_bits : Z) : Z :=
  if is_nan rs1_bits || is_nan rs2_bits then 0
  else
    let f1 := bits_to_float rs1_bits in
    let f2 := bits_to_float rs2_bits in
    if ltb f1 f2 then 1 else 0.

Definition fle_s (rs1_bits rs2_bits : Z) : Z :=
  if is_nan rs1_bits || is_nan rs2_bits then 0
  else
    let f1 := bits_to_float rs1_bits in
    let f2 := bits_to_float rs2_bits in
    if leb f1 f2 then 1 else 0.

End fp_model.

(** ** encoders/compressed_encode.py *)

Module compressed_encode.

(** [assert cond, msg; rest] *)
Definition py_assert {A : Type} (cond : bool) (msg : string) (rest : result A)
  : result A :=
  if cond then rest else Raise (AssertionError msg).

(** [CompressedEncoder._pack_bits]: each field is [(value, position, mask)]. *)
Definition _pack_bits (fields : list (Z * Z * Z)) : Z :=
  fold_left (fun result '(value, position, mask) =>
               Z.lor result (Z.shiftl (Z.land value mask) position))
            fields 0.

Definition in_range (lo x hi : Z) : bool := (lo <=? x) && (x <=? hi).

Definition compress_reg (reg : Z) : result Z :=
  py_assert (in_range 8 reg 15) "Compressed register must be x8-x15"
    (Ok (reg - 8)).

Definition is_compressible_reg (reg : Z) : bool := in_range 8 reg 15.

(** Quadrant 0 *)

Definition enc_c_addi4spn (rd_prime nzuimm : Z) : result Z :=
  py_assert (in_range 8 rd_prime 15) "rd' must be x8-x15"
 (py_assert (negb (nzuimm =? 0) && (nzuimm mod 4 =? 0))
    "nzuimm must be non-zero multiple of 4"
 (py_assert (in_range 4 nzuimm 1020) "nzuimm out of range"
 (let imm := nzuimm in
  bind (compress_reg rd_prime) (fun rd_c =>
  Ok (_pack_bits [
    (Z.land (Z.shiftr imm 4) 0x3, 11, 0x3);
    (Z.land (Z.shiftr imm 6) 0xF, 7, 0xF);
    (Z.land (Z.shiftr imm 2) 0x1, 6, 0x1);
    (Z.land (Z.shiftr imm 3) 0x1, 5, 0x1);
    (rd_c, 2, 0x7);
    (0, 0, 0x3)]))))).

Definition enc_c_lw (rd_prime rs1_prime uimm : Z) : result Z :=
  py_assert (in_range 8 rd_prime 15 && in_range 8 rs1_prime 15) ""
 (py_assert ((uimm mod 4 =? 0) && in_range 0 uimm 124)
    "uimm must be 0-124, multiple of 4"
 (bind (compress_reg rs1_prime) (fun rs1_c =>
  bind (compress_reg rd_prime) (fun rd_c =>
  Ok (_pack_bits [
    (2, 13, 0x7);
    (Z.land (Z.shiftr uimm 6) 0x1, 5, 0x1);
    (Z.land (Z.shiftr uimm 3) 0x7, 10, 0x7);
    (rs1_c, 7, 0x7);
    (Z.land (Z.shiftr uimm 2) 0x1, 6, 0x1);
    (rd_c, 2, 0x7);
    (0, 0, 0x3)]))))).

Definition enc_c_sw (rs1_prime rs2_prime uimm : Z) : result Z :=
  py_assert (in_range 8 rs1_prime 15 && in_range 8 rs2_prime 15) ""
 (py_assert ((uimm mod 4 =? 0) && in_range 0 uimm 124) ""
 (bind (compress_reg rs1_prime) (fun rs1_c =>
  bind (compress_reg rs2_prime) (fun rs2_c =>
  Ok (_pack_bits [
    (6, 13, 0x7);
    (Z.land (Z.shiftr uimm 6) 0x1, 5, 0x1);
    (Z.land (Z.shiftr uimm 3) 0x7, 10, 0x7);
    (rs1_c, 7, 0x7);
    (Z.land (Z.shiftr uimm 2) 0x1, 6, 0x1);
    (rs2_c, 2, 0x7);
    (0, 0, 0x3)]))))).

(** Quadrant 1 *)

Definition enc_c_nop : result Z := Ok 0x0001.

(** The layout shared by C.ADDI, C.LI and C.LUI. *)
Definition pack_ci (funct3 rd imm6 : Z) : Z :=
  _pack_bits [
    (funct3, 13, 0x7);
    (Z.land (Z.shiftr imm6 5) 0x1, 12, 0x1);
    (rd, 7, 0x1F);
    (Z.land imm6 0x1F, 2, 0x1F);
    (1, 0, 0x3)].

Definition enc_c_addi (rd nzimm : Z) : result Z :=
  py_assert (in_range 0 rd 31) ""
 (py_assert (in_range (-32) nzimm 31) ""
 (let imm6 := Z.land nzimm 0x3F in Ok (pack_ci 0 rd imm6))).

(** The layout shared by C.JAL and C.J. *)
Definition pack_cj (funct3 imm12 : Z) : Z :=
  _pack_bits [
    (funct3, 13, 0x7);
    (Z.land (Z.shiftr imm12 11) 0x1, 12, 0x1);
    (Z.land (Z.shiftr imm12 4) 0x1, 11, 0x1);
    (Z.land (Z.shiftr imm12 8) 0x3, 9, 0x3);
    (Z.land (Z.shiftr imm12 10) 0x1, 8, 0x1);
    (Z.land (Z.shiftr imm12 6) 0x1, 7, 0x1);
    (Z.land (Z.shiftr imm12 7) 0x1, 6, 0x1);
    (Z.land (Z.shiftr imm12 1) 0x7, 3, 0x7);
    (Z.land (Z.shiftr imm12 5) 0x1, 2, 0x1);
    (1, 0, 0x3)].

Definition enc_c_jal (imm : Z) : result Z :=
  py_assert (imm mod 2 =? 0) "Jump offset must be even"
 (py_assert (in_range (-2048) imm 2046) "Jump offset out of range"
 (let imm12 := Z.land imm 0xFFF in Ok (pack_cj 1 imm12))).

Definition enc_c_li (rd imm : Z) : result Z :=
  py_assert (in_range 1 rd 31) "rd must be x1-x31 for C.LI"
 (py_assert (in_range (-32) imm 31) ""
 (let imm6 := Z.land imm 0x3F in Ok (pack_ci 2 rd imm6))).

Definition enc_c_lui (rd nzimm : Z) : result Z :=
  py_assert (in_range 1 rd 31 && negb (rd =? 2)) "rd must be x1-x31 except x2"
 (py_assert (negb (nzimm =? 0)) "nzimm must be non-zero for C.LUI"
 (py_assert (in_range (-32) nzimm 31) ""
 (let imm6 := Z.land nzimm 0x3F in Ok (pack_ci 3 rd imm6)))).

Definition enc_c_addi16sp (nzimm : Z) : result Z :=
  py_assert (negb (nzimm =? 0) && (nzimm mod 16 =? 0))
    "nzimm must be non-zero multiple of 16"
 (py_assert (in_range (-512) nzimm 496) "nzimm out of range"
 (let imm := Z.land nzimm 0x3FF in
  Ok (_pack_bits [
    (3, 13, 0x7);
    (Z.land (Z.shiftr imm 9) 0x1, 12, 0x1);
    (2, 7, 0x1F);
    (Z.land (Z.shiftr imm 4) 0x1, 6, 0x1);
    (Z.land (Z.shiftr imm 6) 0x1, 5, 0x1);
    (Z.land (Z.shiftr imm 7) 0x3, 3, 0x3);
    (Z.land (Z.shiftr imm 5) 0x1, 2, 0x1);
    (1, 0, 0x3)]))).

Definition enc_c_srli (rd_prime shamt : Z) : result Z :=
  py_assert (in_range 8 rd_prime 15) ""
 (py_assert (in_range 1 shamt 31) "shamt must be 1-31 for RV32"
 (bind (compress_reg rd_prime) (fun rd_c =>
  Ok (_pack_bits [
    (4, 13, 0x7); (0, 12, 0x1); (0, 10, 0x3);
    (rd_c, 7, 0x7);
    (Z.land shamt 0x1F, 2, 0x1F);
    (1, 0, 0x3)])))).

Definition enc_c_srai (rd_prime shamt : Z) : result Z :=
  py_assert (in_range 8 rd_prime 15) ""
 (py_assert (in_range 1 shamt 31) ""
 (bind (compress_reg rd_prime) (fun rd_c =>
  Ok (_pack_bits [
    (4, 13, 0x7); (0, 12, 0x1); (1, 10, 0x3);
    (rd_c, 7, 0x7);
    (Z.land shamt 0x1F, 2, 0x1F);
    (1, 0, 0x3)])))).

Definition enc_c_andi (rd_prime imm : Z) : result Z :=
  py_assert (in_range 8 rd_prime 15) ""
 (py_assert (in_range (-32) imm 31) ""
 (let imm6 := Z.land imm 0x3F in
  bind (compress_reg rd_prime) (fun rd_c =>
  Ok (_pack_bits [
    (4, 13, 0x7);
    (Z.land (Z.shiftr imm6 5) 0x1, 12, 0x1);
    (2, 10, 0x3);
    (rd_c, 7, 0x7);
    (Z.land imm6 0x1F, 2, 0x1F);
    (1, 0, 0x3)])))).

(** The layout shared by C.SUB, C.XOR, C.OR and C.AND. *)
Definition enc_ca (funct2 rd_prime rs2_prime : Z) : result Z :=
  py_assert (in_range 8 rd_prime 15 && in_range 8 rs2_prime 15) ""
 (bind (compress_reg rd_prime) (fun rd_c =>
  bind (compress_reg rs2_prime) (fun rs2_c =>
  Ok (_pack_bits [
    (4, 13, 0x7); (0, 12, 0x1); (3, 10, 0x3);
    (rd_c, 7, 0x7);
    (funct2, 5, 0x3);
    (rs2_c, 2, 0x7);
    (1, 0, 0x3)])))).

Definition enc_c_sub := enc_ca 0.
Definition enc_c_xor := enc_ca 1.
Definition enc_c_or := enc_ca 2.
Definition enc_c_and := enc_ca 3.

Definition enc_c_j (imm : Z) : result Z :=
  py_assert (imm mod 2 =? 0) ""
 (py_assert (in_range (-2048) imm 2046) ""
 (let imm12 := Z.land imm 0xFFF in Ok (pack_cj 5 imm12))).

(** The layout shared by C.BEQZ and C.BNEZ. *)
Definition enc_cb (funct3 rs1_prime imm : Z) : result Z :=
  py_assert (in_range 8 rs1_prime 15) ""
 (py_assert (imm mod 2 =? 0) ""
 (py_assert (in_range (-256) imm 254) ""
 (let imm9 := Z.land imm 0x1FF in
  bind (compress_reg rs1_prime) (fun rs1_c =>
  Ok (_pack_bits [
    (funct3, 13, 0x7);
    (Z.land (Z.shiftr imm9 8) 0x1, 12, 0x1);
    (Z.land (Z.shiftr imm9 3) 0x3, 10, 0x3);
    (rs1_c, 7, 0x7);
    (Z.land (Z.shiftr imm9 6) 0x3, 5, 0x3);
    (Z.land (Z.shiftr imm9 1) 0x3, 3, 0x3);
    (Z.land (Z.shiftr imm9 5) 0x1, 2, 0x1);
    (1, 0, 0x3)]))))).

Definition enc_c_beqz := enc_cb 6.
Definition enc_c_bnez := enc_cb 7.

(** Quadrant 2 *)

Definition enc_c_slli (rd shamt : Z) : result Z :=
  py_assert (in_range 1 rd 31) ""
 (py_assert (in_range 1 shamt 31) ""
 (Ok (_pack_bits [
    (0, 13, 0x7); (0, 12, 0x1);
    (rd, 7, 0x1F);
    (Z.land shamt 0x1F, 2, 0x1F);
    (2, 0, 0x3)]))).

Definition enc_c_lwsp (rd uimm : Z) : result Z :=
  py_assert (in_range 1 rd 31) ""
 (py_assert ((uimm mod 4 =? 0) && in_range 0 uimm 252) ""
 (Ok (_pack_bits [
    (2, 13, 0x7);
    (Z.land (Z.shiftr uimm 5) 0x1, 12, 0x1);
    (rd, 7, 0x1F);
    (Z.land (Z.shiftr uimm 2) 0x7, 4, 0x7);
    (Z.land (Z.shiftr uimm 6) 0x3, 2, 0x3);
    (2, 0, 0x3)]))).

(** The layout shared by C.JR, C.MV, C.JALR and C.ADD. *)
Definition pack_cr (bit12 r1 r2 : Z) : Z :=
  _pack_bits [
    (4, 13, 0x7); (bit12, 12, 0x1);
    (r1, 7, 0x1F);
    (r2, 2, 0x1F);
    (2, 0, 0x3)].

Definition enc_c_jr (rs1 : Z) : result Z :=
  py_assert (in_range 1 rs1 31) "" (Ok (pack_cr 0 rs1 0)).

Definition enc_c_mv (rd rs2 : Z) : result Z :=
  py_assert (in_range 1 rd 31 && in_range 1 rs2 31) "" (Ok (pack_cr 0 rd rs2)).

Definition enc_c_ebreak : result Z := Ok 0x9002.

Definition enc_c_jalr (rs1 : Z) : result Z :=
  py_assert (in_range 1 rs1 31) "" (Ok (pack_cr 1 rs1 0)).

Definition enc_c_add (rd rs2 : Z) : result Z :=
  py_assert (in_range 1 rd 31 && in_range 1 rs2 31) "" (Ok (pack_cr 1 rd rs2)).

Definition enc_c_swsp (rs2 uimm : Z) : result Z :=
  py_assert (in_range 0 rs2 31) ""
 (py_assert ((uimm mod 4 =? 0) && in_range 0 uimm 252) ""
 (Ok (_pack_bits [
    (6, 13, 0x7);
    (Z.land (Z.shiftr uimm 2) 0xF, 9, 0xF);
    (Z.land (Z.shiftr uimm 6) 0x3, 7, 0x3);
    (rs2, 2, 0x1F);
    (2, 0, 0x3)]))).

End compressed_encode.

(** ** encoders/op_tables.py: the encoder factories of the I-type ALU
       operations *)

Module op_tables.

(** Modelled from the spec: [encoders/instruction_encode.py] is not
    under [src/], so [enc_i] follows section 4.1: the I-type word has
    the immediate in bits 31:20, rs1 in 19:15, funct3 in 14:12, rd in
    11:7 and the opcode 0x13 in 6:0; an immediate outside the signed
    12-bit range, or a register outside 0-31, fails with an
    [EncodingError]. *)
Definition enc_i_spec (imm rs1 f3 rd : Z) : result Z :=
  if negb ((-2048 <=? imm) && (imm <=? 2047))
  then Raise (EncodingError "immediate out of signed 12-bit range")
  else if negb ((0 <=? rs1) && (rs1 <=? 31) && (0 <=? rd) && (rd <=? 31))
  then Raise (EncodingError "register out of range")
  else Ok (Z.lor (Z.lor (Z.lor (Z.lor
         (Z.shiftl (Z.land imm 0xFFF) 20)
         (Z.shiftl rs1 15))
         (Z.shiftl f3 12))
         (Z.shiftl rd 7))
         0x13).

Section Factories.
(** The imported [enc_i]; the factories are modelled for any
    implementation of it. *)
Variable enc_i : Z -> Z -> Z -> Z -> result Z.

(** [lambda rd, rs1, imm: enc_i(imm, rs1, f3, rd)] *)
Definition make_i_encoder (f3 : Z) : Z -> Z -> Z -> result Z :=
  fun rd rs1 imm => enc_i imm rs1 f3 rd.

(** [lambda rd, rs1, sh: enc_i((sh & 0x1F) | (f7 << 5), rs1, f3, rd)] *)
Definition make_i_shift_encoder (f3 f7 : Z) : Z -> Z -> Z -> result Z :=
  fun rd rs1 sh =>
    enc_i (Z.lor (Z.land sh 0x1F) (Z.shiftl f7 5)) rs1 f3 rd.

(** The shift entries of the table [I_ALU]. *)
Definition I_ALU_shift (mnemonic : string) : option (Z -> Z -> Z -> result Z) :=
  if String.eqb mnemonic "slli" then Some (make_i_shift_encoder 0x1 0x00)
  else if String.eqb mnemonic "srli" then Some (make_i_shift_encoder 0x5 0x00)
  else if String.eqb mnemonic "srai" then Some (make_i_shift_encoder 0x5 0x20)
  else if String.eqb mnemonic "bseti" then Some (make_i_shift_encoder 0x1 0x14)
  else if String.eqb mnemonic "bclri" then Some (make_i_shift_encoder 0x1 0x24)
  else if String.eqb mnemonic "binvi" then Some (make_i_shift_encoder 0x1 0x34)
  else if String.eqb mnemonic "bexti" then Some (make_i_shift_encoder 0x5 0x24)
  else if String.eqb mnemonic "rori" then Some (make_i_shift_encoder 0x5 0x30)
  else None.
End Factories.

End op_tables.

(** ** Python lists indexed by integers *)

Module py_list.

(** [l[i]]: a negative index counts from the end; out of range raises
    [IndexError]. *)
Definition position {A : Type} (l : list A) (i : Z) : option nat :=
  let n := Z.of_nat (length l) in
  if (0 <=? i) && (i <? n) then Some (Z.to_nat i)
  else if (- n <=? i) && (i <? 0) then Some (Z.to_nat (n + i))
  else None.

Definition getitem {A : Type} (l : list A) (i : Z) : result A :=
  match position l i with
  | Some k =>
      match l !! k with
      | Some x => Ok x
      | None => Raise (IndexError "list index out of range")
      end
  | None => Raise (IndexError "list index out of range")
  end.

Definition setitem {A : Type} (l : list A) (i : Z) (x : A) : result (list A) :=
  match position l i with
  | Some k => Ok (<[k := x]> l)
  | None => Raise (IndexError "list assignment index out of range")
  end.

End py_list.

(** ** cocotb_tests/test_state.py *)

Module test_state.

Record TestState : Type := {
  register_file_previous : list Z;
  register_file_current : list Z;
  program_counter_current : Z;
  reservation : option Z;
  register_file_current_expected_queue : list (list Z);
  program_counter_expected_values_queue : list Z;
  memory_write_address_expected_queue : list Z;
  memory_write_data_expected_queue : list Z;
  cycle_counter : Z;
  instret_counter : Z
}.

(** Modelled from the spec: [cocotb_tests/test_state.py] is not under
    [src/].  Section 3 gives the reservation as an optional
    word-aligned address, set by LR; section 4.3 says that SC succeeds
    iff a reservation exists and matches the address, and that the
    reservation is cleared after the check. *)
Definition set_reservation (st : TestState) (address : Z) : TestState :=
  {| register_file_previous := register_file_previous st;
     register_file_current := register_file_current st;
     program_counter_current := program_counter_current st;
     reservation := Some address;
     register_file_current_expected_queue :=
       register_file_current_expected_queue st;
     program_counter_expected_values_queue :=
       program_counter_expected_values_queue st;
     memory_write_address_expected_queue :=
       memory_write_address_expected_queue st;
     memory_write_data_expected_queue := memory_write_data_expected_queue st;
     cycle_counter := cycle_counter st;
     instret_counter := instret_counter st |}.

(** Modelled from the spec: see [set_reservation]. *)
Definition check_reservation (st : TestState) (address : Z) : bool :=
  match reservation st with
  | Some reserved => reserved =? address
  | None => false
  end.

(** Modelled from the spec: see [set_reservation]. *)
Definition clear_reservation (st : TestState) : TestState :=
  {| register_file_previous := register_file_previous st;
     register_file_current := register_file_current st;
     program_counter_current := program_counter_current st;
     reservation := None;
     register_file_current_expected_queue :=
       register_file_current_expected_queue st;
     program_counter_expected_values_queue :=
       program_counter_expected_values_queue st;
     memory_write_address_expected_queue :=
       memory_write_address_expected_queue st;
     memory_write_data_expected_queue := memory_write_data_expected_queue st;
     cycle_counter := cycle_counter st;
     instret_counter := instret_counter st |}.

(** Modelled from the spec: section 4.3, [enqueue_expected] appends a
    snapshot of the current register file and the expected program
    counter to their queues (as [execute_lr_sc_instruction] of
    [test_directed_atomics.py] does inline). *)
Definition queue_expected_outputs (st : TestState) (expected_pc : Z) : TestState :=
  {| register_file_previous := register_file_previous st;
     register_file_current := register_file_current st;
     program_counter_current := program_counter_current st;
     reservation := reservation st;
     register_file_current_expected_queue :=
       register_file_current_expected_queue st ++ [register_file_current st];
     program_counter_expected_values_queue :=
       program_counter_expected_values_queue st ++ [expected_pc];
     memory_write_address_expected_queue :=
       memory_write_address_expected_queue st;
     memory_write_data_expected_queue := memory_write_data_expected_queue st;
     cycle_counter := cycle_counter st;
     instret_counter := instret_counter st |}.

(** Modelled from the spec: section 4.3, the CSR counters of the
    tracker count cycles and retired instructions. *)
Definition increment_cycle_counter (st : TestState) : TestState :=
  {| register_file_previous := register_file_previous st;
     register_file_current := register_file_current st;
     program_counter_current := program_counter_current st;
     reservation := reservation st;
     register_file_current_expected_queue := register_file_current_expected_queue st;
     program_counter_expected_values_queue := program_counter_expected_values_queue st;
     memory_write_address_expected_queue := memory_write_address_expected_queue st;
     memory_write_data_expected_queue := memory_write_data_expected_queue st;
     cycle_counter := cycle_counter st + 1;
     instret_counter := instret_counter st |}.

(** Modelled from the spec: see [increment_cycle_counter]. *)
Definition increment_instret_counter (st : TestState) : TestState :=
  {| register_file_previous := register_file_previous st;
     register_file_current := register_file_current st;
     program_counter_current := program_counter_current st;
     reservation := reservation st;
     register_file_current_expected_queue := register_file_current_expected_queue st;
     program_counter_expected_values_queue := program_counter_expected_values_queue st;
     memory_write_address_expected_queue := memory_write_address_expected_queue st;
     memory_write_data_expected_queue := memory_write_data_expected_queue st;
     cycle_counter := cycle_counter st;
     instret_counter := instret_counter st + 1 |}.

(** Modelled from the spec: section 4.3, advancing the state moves the
    program counter to the expected one. *)
Definition update_program_counter (st : TestState) (expected_pc : Z) : TestState :=
  {| register_file_previous := register_file_previous st;
     register_file_current := register_file_current st;
     program_counter_current := expected_pc;
     reservation := reservation st;
     register_file_current_expected_queue := register_file_current_expected_queue st;
     program_counter_expected_values_queue := program_counter_expected_values_queue st;
     memory_write_address_expected_queue := memory_write_address_expected_queue st;
     memory_write_data_expected_queue := memory_write_data_expected_queue st;
     cycle_counter := cycle_counter st;
     instret_counter := instret_counter st |}.

(** Modelled from the spec: section 4.3, [advance] copies the current
    register file to the previous one. *)
Definition advance_register_state (st : TestState) : TestState :=
  {| register_file_previous := register_file_current st;
     register_file_current := register_file_current st;
     program_counter_current := program_counter_current st;
     reservation := reservation st;
     register_file_current_expected_queue := register_file_current_expected_queue st;
     program_counter_expected_values_queue := program_counter_expected_values_queue st;
     memory_write_address_expected_queue := memory_write_address_expected_queue st;
     memory_write_data_expected_queue := memory_write_data_expected_queue st;
     cycle_counter := cycle_counter st;
     instret_counter := instret_counter st |}.

(** The assignments the executor makes to fields of the state. *)
Definition with_register_file_current (st : TestState) (regs : list Z) : TestState :=
  {| register_file_previous := register_file_previous st;
     register_file_current := regs;
     program_counter_current := program_counter_current st;
     reservation := reservation st;
     register_file_current_expected_queue :=
       register_file_current_expected_queue st;
     program_counter_expected_values_queue :=
       program_counter_expected_values_queue st;
     memory_write_address_expected_queue :=
       memory_write_address_expected_queue st;
     memory_write_data_expected_queue := memory_write_data_expected_queue st;
     cycle_counter := cycle_counter st;
     instret_counter := instret_counter st |}.

Definition append_memory_write (st : TestState) (address write_data : Z)
  : TestState :=
  {| register_file_previous := register_file_previous st;
     register_file_current := register_file_current st;
     program_counter_current := program_counter_current st;
     reservation := reservation st;
     register_file_current_expected_queue :=
       register_file_current_expected_queue st;
     program_counter_expected_values_queue :=
       program_counter_expected_values_queue st;
     memory_write_address_expected_queue :=
       memory_write_address_expected_queue st ++ [address];
     memory_write_data_expected_queue :=
       memory_write_data_expected_queue st ++ [write_data];
     cycle_counter := cycle_counter st;
     instret_counter := instret_counter st |}.

End test_state.

(** ** cocotb_tests/instruction_executor.py *)

Module instruction_executor.
Import test_state py_list.

Section Executor.
Variable MEMORY_ADDRESS_MASK : Z.
Variable MEMORY_WORD_ALIGN_MASK : Z.
(** [AMO_LR_SC["sc.w"]], imported from [encoders/instruction_encode.py]. *)
Variable enc_sc_w : Z -> Z -> Z -> result Z.

(** What one call leaves behind: the returned flag, the tracker
    state, the memory model and the instruction word driven to the
    design under test. *)
Record sc_outcome : Type := {
  success : bool;
  state : TestState;
  ram_bytes : gmap Z Z;
  instruction : Z
}.

(** [InstructionExecutor.execute_sc].  Waiting for clock edges and
    for the ready signal changes nothing in the model. *)
Definition execute_sc (st : TestState) (mem : gmap Z Z) (rd rs1 rs2 : Z)
  : result sc_outcome :=
  bind (enc_sc_w rd rs2 rs1) (fun instr =>
  bind (getitem (register_file_previous st) rs1) (fun rs1_value =>
  let address := Z.land rs1_value (Z.lnot 0x3) in
  let success := check_reservation st address in
  let st := clear_reservation st in
  let result_value := if success then 0 else 1 in
  bind (if success
        then
          bind (getitem (register_file_previous st) rs2) (fun write_data =>
          Ok (append_memory_write st address write_data,
              memory_model.write_word MEMORY_ADDRESS_MASK
                MEMORY_WORD_ALIGN_MASK mem address write_data))
        else Ok (st, mem)) (fun '(st, mem) =>
  bind (if negb (rd =? 0)
        then
          bind (setitem (register_file_current st) rd
                  (Z.land result_value MASK32)) (fun regs =>
          Ok (with_register_file_current st regs))
        else Ok st) (fun st =>
  let expected_pc := Z.land (program_counter_current st + 4) MASK32 in
  let st := queue_expected_outputs st expected_pc in
  let st := increment_cycle_counter st in
  let st := increment_instret_counter st in
  let st := update_program_counter st expected_pc in
  let st := advance_register_state st in
  Ok {| success := success; state := st; ram_bytes := mem;
        instruction := instr |})))).

End Executor.

End instruction_executor.

(** ** IEEE-754 binary32, as the specification reads it

    The fields of a 32-bit pattern by division and remainder, the
    category of a pattern, and the rational number a finite pattern
    denotes. *)

Module ieee754.

Local Open Scope Z_scope.

Definition sign_field (bits : Z) : Z := (bits / 2 ^ 31) mod 2.
Definition exponent_field (bits : Z) : Z := (bits / 2 ^ 23) mod 2 ^ 8.
Definition fraction_field (bits : Z) : Z := bits mod 2 ^ 23.

Definition is_nan_pattern (bits : Z) : Prop :=
  exponent_field bits = 255 /\ fraction_field bits <> 0.
Definition is_infinite_pattern (bits : Z) : Prop :=
  exponent_field bits = 255 /\ fraction_field bits = 0.
Definition is_zero_pattern (bits : Z) : Prop :=
  exponent_field bits = 0 /\ fraction_field bits = 0.
Definition is_finite_pattern (bits : Z) : Prop :=
  exponent_field bits <> 255.

Inductive category : Type :=
| NegInfinity | NegNormal | NegSubnormal | NegZero
| PosZero | PosSubnormal | PosNormal | PosInfinity
| SignalingNaN | QuietNaN.

(** The bit of the FCLASS mask that stands for a category. *)
Definition category_bit (c : category) : Z :=
  match c with
  | NegInfinity => 0 | NegNormal => 1 | NegSubnormal => 2 | NegZero => 3
  | PosZero => 4 | PosSubnormal => 5 | PosNormal => 6 | PosInfinity => 7
  | SignalingNaN => 8 | QuietNaN => 9
  end.

(** The category of a pattern: an all-ones exponent is an infinity
    (zero fraction) or a NaN, quiet when the top fraction bit is set;
    a zero exponent is a zero or a subnormal; anything else is normal. *)
Definition categorize (bits : Z) : category :=
  let negative := sign_field bits =? 1 in
  if exponent_field bits =? 255 then
    if fraction_field bits =? 0
    then (if negative then NegInfinity else PosInfinity)
    else if 2 ^ 22 <=? fraction_field bits then QuietNaN else SignalingNaN
  else if exponent_field bits =? 0 then
    if fraction_field bits =? 0
    then (if negative then NegZero else PosZero)
    else (if negative then NegSubnormal else PosSubnormal)
  else (if negative then NegNormal else PosNormal).

(** The integer significand and the exponent of a finite pattern: the
    pattern denotes [(-1)^sign * significand * 2^exponent2]. *)
Definition significand (bits : Z) : Z :=
  if exponent_field bits =? 0 then fraction_field bits
  else 2 ^ 23 + fraction_field bits.

Definition exponent2 (bits : Z) : Z :=
  if exponent_field bits =? 0 then -149 else exponent_field bits - 150.

Definition signed_significand (bits : Z) : Z :=
  if sign_field bits =? 1 then - significand bits else significand bits.

Local Open Scope Q_scope.

(** The rational value of a finite pattern. *)
Definition value (bits : Z) : Q :=
  inject_Z (signed_significand bits) * 2 ^ exponent2 bits.

(** [n] is [q] rounded to the nearest integer, ties to even. *)
Definition nearest_even_integer (q : Q) (n : Z) : Prop :=
  Qabs (q - inject_Z n) <= 1 # 2 /\
  (Qabs (q - inject_Z n) == 1 # 2 -> Z.even n = true).

End ieee754.

(** ** The SC.W word, for running the executor on examples *)

Module instruction_encode.

(** Modelled from the spec: [encoders/instruction_encode.py] is not
    under [src/]; section 2 lists the atomic format among those of the
    codec.  SC.W is the RISC-V word with funct5 = 0b00011 in bits
    31:27, rs2 in 24:20, rs1 in 19:15, funct3 = 0b010, rd in 11:7 and
    the opcode 0x2F; a register outside 0-31 is an [EncodingError]. *)
Definition enc_sc_w (rd rs2 rs1 : Z) : result Z :=
  if negb ((0 <=? rd) && (rd <=? 31) && (0 <=? rs2) && (rs2 <=? 31)
           && (0 <=? rs1) && (rs1 <=? 31))
  then Raise (EncodingError "register out of range")
  else Ok (Z.lor (Z.lor (Z.lor (Z.lor (Z.lor
         (Z.shiftl 0x03 27)
         (Z.shiftl rs2 20))
         (Z.shiftl rs1 15))
         (Z.shiftl 0x2 12))
         (Z.shiftl rd 7))
         0x2F).

End instruction_encode.

(** ** Dyadic rationals *)

Module dyadic.

Local Open Scope Q_scope.

(** [m * 2^e] as a rational. *)
Definition to_Q (m e : Z) : Q := inject_Z m * 2 ^ e.

End dyadic.

(** ** Exhaustive checks over ranges of integers *)

Module enumeration.

(** [P] holds for the [n] integers from [lo] on. *)
Definition all_from (lo : Z) (n : positive) (P : Z -> bool) : bool :=
  snd (Pos.iter (fun s : Z * bool => (fst s + 1, snd s && P (fst s)))
                (lo, true) n).

End enumeration.

(** * Bit fields: masks and shifts against division and remainder *)

Section BitFields.

Lemma land_pow2_testbit (u n : Z) :
  0 <= n -> Z.land u (2 ^ n) = 2 ^ n * Z.b2z (Z.testbit u n).
Proof.
  intros Hn. apply Z.bits_inj'. intros k Hk.
  rewrite Z.land_spec, Z.pow2_bits_eqb by lia.
  rewrite Z.mul_comm, <- Z.shiftl_mul_pow2 by lia.
  destruct (Z.eqb_spec n k) as [->|Hne].
  - rewrite Z.shiftl_spec, Z.sub_diag by lia.
    rewrite andb_true_r. destruct (Z.testbit u k); reflexivity.
  - rewrite andb_false_r.
    destruct (Z.testbit u n); simpl Z.b2z.
    + rewrite Z.shiftl_1_l, Z.pow2_bits_false by lia. reflexivity.
    + rewrite Z.shiftl_0_l, Z.bits_0. reflexivity.
Qed.

Lemma testbit_sign_field (bits : Z) :
  Z.testbit bits 31 = (ieee754.sign_field bits =? 1).
Proof.
  unfold ieee754.sign_field.
  pose proof (Z.testbit_spec' bits 31 ltac:(lia)) as H.
  destruct (Z.testbit bits 31); simpl in H; rewrite <- H; reflexivity.
Qed.

Lemma exp_mask_field (bits : Z) :
  Z.shiftr (Z.land bits fp_model.FP_EXP_MASK) 23 = ieee754.exponent_field bits.
Proof.
  unfold ieee754.exponent_field, fp_model.FP_EXP_MASK.
  rewrite Z.shiftr_land. change (Z.shiftr 0x7F800000 23) with (Z.ones 8).
  rewrite Z.land_ones, Z.shiftr_div_pow2 by lia. reflexivity.
Qed.

Lemma shift_exp_field (bits : Z) :
  Z.land (Z.shiftr bits 23) 0xFF = ieee754.exponent_field bits.
Proof.
  unfold ieee754.exponent_field. change 0xFF with (Z.ones 8).
  rewrite Z.land_ones, Z.shiftr_div_pow2 by lia. reflexivity.
Qed.

Lemma mant_mask_field (bits : Z) :
  Z.land bits fp_model.FP_MANT_MASK = ieee754.fraction_field bits.
Proof.
  unfold ieee754.fraction_field. change fp_model.FP_MANT_MASK with (Z.ones 23).
  rewrite Z.land_ones by lia. reflexivity.
Qed.

Lemma is_negative_sign_field (bits : Z) :
  fp_model.is_negative bits = (ieee754.sign_field bits =? 1).
Proof.
  unfold fp_model.is_negative. change fp_model.FP_SIGN_MASK with (2 ^ 31).
  rewrite land_pow2_testbit by lia. rewrite <- testbit_sign_field.
  destruct (Z.testbit bits 31); reflexivity.
Qed.

Lemma fields_mod32 (bits : Z) :
  ieee754.sign_field (bits mod 2 ^ 32) = ieee754.sign_field bits /\
  ieee754.exponent_field (bits mod 2 ^ 32) = ieee754.exponent_field bits /\
  ieee754.fraction_field (bits mod 2 ^ 32) = ieee754.fraction_field bits.
Proof.
  unfold ieee754.sign_field, ieee754.exponent_field, ieee754.fraction_field.
  pose proof (Z.div_mod bits (2 ^ 32) ltac:(lia)) as H.
  pose proof (Z.mod_pos_bound bits (2 ^ 32) ltac:(lia)) as Hb.
  set (r := bits mod 2 ^ 32) in *. set (q := bits / 2 ^ 32) in *.
  rewrite H. clear H. repeat split.
  - replace (2 ^ 32 * q + r) with (r + (2 * q) * 2 ^ 31) by lia.
    rewrite Z.div_add by lia.
    replace (r / 2 ^ 31 + 2 * q) with (r / 2 ^ 31 + q * 2) by lia.
    rewrite Z.mod_add by lia. reflexivity.
  - replace (2 ^ 32 * q + r) with (r + (2 ^ 9 * q) * 2 ^ 23) by lia.
    rewrite Z.div_add by lia.
    replace (r / 2 ^ 23 + 2 ^ 9 * q) with (r / 2 ^ 23 + (2 * q) * 2 ^ 8) by lia.
    rewrite Z.mod_add by lia. reflexivity.
  - replace (2 ^ 32 * q + r) with (r + (2 ^ 9 * q) * 2 ^ 23) by lia.
    rewrite Z.mod_add by lia. reflexivity.
Qed.

(** A pattern is its three fields put together. *)
Lemma fields_decompose (bits : Z) :
  bits mod 2 ^ 32 =
    ieee754.sign_field bits * 2 ^ 31 + ieee754.exponent_field bits * 2 ^ 23
    + ieee754.fraction_field bits.
Proof.
  unfold ieee754.sign_field, ieee754.exponent_field, ieee754.fraction_field.
  pose proof (Z.div_mod bits (2 ^ 23) ltac:(lia)) as H1.
  pose proof (Z.div_mod (bits / 2 ^ 23) (2 ^ 8) ltac:(lia)) as H2.
  pose proof (Z.div_mod (bits / 2 ^ 23 / 2 ^ 8) 2 ltac:(lia)) as H3.
  rewrite Z.div_div in H2, H3 by lia.
  change (2 ^ 23 * 2 ^ 8) with (2 ^ 31) in *.
  pose proof (Z.mod_pos_bound bits (2 ^ 23) ltac:(lia)).
  pose proof (Z.mod_pos_bound (bits / 2 ^ 23) (2 ^ 8) ltac:(lia)).
  pose proof (Z.mod_pos_bound (bits / 2 ^ 31) 2 ltac:(lia)).
  symmetry. apply Z.mod_unique with (q := bits / 2 ^ 31 / 2); lia.
Qed.

Lemma field_bounds (bits : Z) :
  0 <= ieee754.sign_field bits < 2 /\
  0 <= ieee754.exponent_field bits < 256 /\
  0 <= ieee754.fraction_field bits < 2 ^ 23.
Proof.
  unfold ieee754.sign_field, ieee754.exponent_field, ieee754.fraction_field.
  pose proof (Z.mod_pos_bound bits (2 ^ 23) ltac:(lia)).
  pose proof (Z.mod_pos_bound (bits / 2 ^ 23) (2 ^ 8) ltac:(lia)).
  pose proof (Z.mod_pos_bound (bits / 2 ^ 31) 2 ltac:(lia)).
  change (2 ^ 8) with 256 in *. lia.
Qed.

Lemma is_nan_fields (bits : Z) :
  fp_model.is_nan bits =
    (ieee754.exponent_field bits =? 255) && negb (ieee754.fraction_field bits =? 0).
Proof.
  unfold fp_model.is_nan. rewrite exp_mask_field, mant_mask_field. reflexivity.
Qed.

Lemma is_inf_fields (bits : Z) :
  fp_model.is_inf bits =
    (ieee754.exponent_field bits =? 255) && (ieee754.fraction_field bits =? 0).
Proof.
  unfold fp_model.is_inf. rewrite exp_mask_field, mant_mask_field. reflexivity.
Qed.

Lemma is_zero_fields (bits : Z) :
  fp_model.is_zero bits =
    (ieee754.exponent_field bits =? 0) && (ieee754.fraction_field bits =? 0).
Proof.
  unfold fp_model.is_zero. change 0x7FFFFFFF with (Z.ones 31).
  rewrite Z.land_ones by lia.
  unfold ieee754.exponent_field, ieee754.fraction_field.
  pose proof (Z.div_mod bits (2 ^ 23) ltac:(lia)) as H1.
  pose proof (Z.div_mod (bits / 2 ^ 23) (2 ^ 8) ltac:(lia)) as H2.
  pose proof (Z.mod_pos_bound bits (2 ^ 23) ltac:(lia)).
  pose proof (Z.mod_pos_bound (bits / 2 ^ 23) (2 ^ 8) ltac:(lia)).
  assert (E : bits mod 2 ^ 31 =
              (bits / 2 ^ 23) mod 2 ^ 8 * 2 ^ 23 + bits mod 2 ^ 23).
  { symmetry. apply Z.mod_unique with (q := bits / 2 ^ 23 / 2 ^ 8); lia. }
  rewrite E.
  destruct (Z.eqb_spec ((bits / 2 ^ 23) mod 2 ^ 8) 0);
    destruct (Z.eqb_spec (bits mod 2 ^ 23) 0); simpl;
    apply Z.eqb_eq || apply Z.eqb_neq; lia.
Qed.

End BitFields.

(** * FCLASS.S *)

(** C7: for every 32-bit input pattern (indeed for any integer, of which
    only the low 32 bits count), [fclass_s] returns the mask with exactly
    the bit of the pattern's category set: bit [i] of the result is set
    iff [i] is the index (0-9) of the category of the input. *)
Theorem fclass_s_one_hot (rs1_bits : Z) :
  let c := ieee754.categorize rs1_bits in
  0 <= ieee754.category_bit c <= 9 /\
  fp_model.fclass_s rs1_bits = 2 ^ ieee754.category_bit c /\
  forall i : Z, 0 <= i ->
    Z.testbit (fp_model.fclass_s rs1_bits) i = (i =? ieee754.category_bit c).
Proof.
  intros c.
  assert (Hc : 0 <= ieee754.category_bit c <= 9) by (destruct c; simpl; lia).
  assert (Hf : fp_model.fclass_s rs1_bits = 2 ^ ieee754.category_bit c).
  { subst c. unfold fp_model.fclass_s, ieee754.categorize.
    rewrite exp_mask_field, is_negative_sign_field, mant_mask_field.
    pose proof (field_bounds rs1_bits) as (_ & _ & Hfr).
    set (fr := ieee754.fraction_field rs1_bits) in *.
    assert (Hq : negb (Z.land fr 0x00400000 =? 0) = (2 ^ 22 <=? fr)).
    { change 0x00400000 with (2 ^ 22). rewrite land_pow2_testbit by lia.
      pose proof (Z.testbit_spec' fr 22 ltac:(lia)) as Hb.
      assert (0 <= fr / 2 ^ 22 < 2).
      { split; [apply Z.div_pos; lia | apply Z.div_lt_upper_bound; lia]. }
      rewrite Z.mod_small in Hb by lia.
      pose proof (Z.div_mod fr (2 ^ 22) ltac:(lia)).
      pose proof (Z.mod_pos_bound fr (2 ^ 22) ltac:(lia)).
      destruct (Z.testbit fr 22); simpl in Hb |- *;
        destruct (Z.leb_spec (2 ^ 22) fr); try reflexivity; lia. }
    rewrite Hq.
    destruct (ieee754.exponent_field rs1_bits =? 255);
      destruct (ieee754.exponent_field rs1_bits =? 0);
      destruct (fr =? 0); destruct (2 ^ 22 <=? fr);
      destruct (ieee754.sign_field rs1_bits =? 1); reflexivity. }
  split; [exact Hc|]. split; [exact Hf|].
  intros i Hi. rewrite Hf. rewrite Z.pow2_bits_eqb by lia.
  rewrite Z.eqb_sym. reflexivity.
Qed.

(** * Branch decisions *)

Lemma to_signed32_twos_complement (v : Z) :
  riscv_utils.to_signed32 v = branch_model.twos_complement32 v.
Proof.
  unfold riscv_utils.to_signed32, riscv_utils.sign_extend,
    branch_model.twos_complement32.
  change MASK32 with (Z.ones 32). rewrite Z.land_ones by lia.
  set (u := v mod 2 ^ 32).
  assert (Hu : 0 <= u < 2 ^ 32) by (apply Z.mod_pos_bound; lia).
  change (Z.shiftl 1 (32 - 1)) with (2 ^ 31).
  change (2 ^ 31 - 1) with (Z.ones 31). rewrite Z.land_ones by lia.
  rewrite land_pow2_testbit by lia.
  pose proof (Z.testbit_spec' u 31 ltac:(lia)) as Hb.
  pose proof (Z.div_mod u (2 ^ 31) ltac:(lia)) as Hd.
  pose proof (Z.mod_pos_bound u (2 ^ 31) ltac:(lia)) as Hm.
  assert (Hq : 0 <= u / 2 ^ 31 < 2).
  { split; [apply Z.div_pos; lia | apply Z.div_lt_upper_bound; lia]. }
  rewrite Z.mod_small in Hb by lia. rewrite Hb.
  destruct (Z.ltb_spec u (2 ^ 31)); lia.
Qed.

Lemma land_mask32_unsigned (v : Z) : Z.land v MASK32 = branch_model.unsigned32 v.
Proof.
  unfold branch_model.unsigned32. change MASK32 with (Z.ones 32).
  apply Z.land_ones. lia.
Qed.

(** C6: for every pair of operands (32-bit values in particular),
    [branch_taken_decision] answers "beq"/"bne" with the equality and the
    inequality of the raw values, "blt"/"bge" with the signed comparison of
    the operands read as 32-bit two's-complement integers, "bltu"/"bgeu"
    with the unsigned comparison of the operands masked to 32 bits, and
    raises an error on any other operation string. *)
Theorem branch_taken_decision_correct (operand_a operand_b : Z) :
  branch_model.branch_taken_decision "beq" operand_a operand_b
    = Ok (bool_decide (operand_a = operand_b)) /\
  branch_model.branch_taken_decision "bne" operand_a operand_b
    = Ok (bool_decide (operand_a <> operand_b)) /\
  branch_model.branch_taken_decision "blt" operand_a operand_b
    = Ok (bool_decide (branch_model.twos_complement32 operand_a
                       < branch_model.twos_complement32 operand_b)) /\
  branch_model.branch_taken_decision "bge" operand_a operand_b
    = Ok (bool_decide (branch_model.twos_complement32 operand_a
                       >= branch_model.twos_complement32 operand_b)) /\
  branch_model.branch_taken_decision "bltu" operand_a operand_b
    = Ok (bool_decide (branch_model.unsigned32 operand_a
                       < branch_model.unsigned32 operand_b)) /\
  branch_model.branch_taken_decision "bgeu" operand_a operand_b
    = Ok (bool_decide (branch_model.unsigned32 operand_a
                       >= branch_model.unsigned32 operand_b)) /\
  forall operation : string,
    ~ In operation ["beq"; "bne"; "blt"; "bge"; "bltu"; "bgeu"]%string ->
    raises (branch_model.branch_taken_decision operation operand_a operand_b).
Proof.
  unfold branch_model.branch_taken_decision. cbn [String.eqb Ascii.eqb Bool.eqb].
  cbn -[riscv_utils.to_signed32 Z.land MASK32 Z.eqb Z.ltb Z.geb].
  rewrite !to_signed32_twos_complement, !land_mask32_unsigned.
  repeat split.
  - f_equal. destruct (Z.eqb_spec operand_a operand_b);
      [rewrite bool_decide_eq_true_2 | rewrite bool_decide_eq_false_2]; auto.
  - f_equal. destruct (Z.eqb_spec operand_a operand_b); simpl;
      [rewrite bool_decide_eq_false_2 | rewrite bool_decide_eq_true_2]; auto.
  - f_equal. match goal with |- (?x <? ?y) = _ => destruct (Z.ltb_spec x y) end;
      [rewrite bool_decide_eq_true_2 | rewrite bool_decide_eq_false_2]; auto; lia.
  - f_equal. rewrite Z.geb_leb.
    match goal with |- (?x <=? ?y) = _ => destruct (Z.leb_spec x y) end;
      [rewrite bool_decide_eq_true_2 | rewrite bool_decide_eq_false_2]; auto; lia.
  - f_equal. match goal with |- (?x <? ?y) = _ => destruct (Z.ltb_spec x y) end;
      [rewrite bool_decide_eq_true_2 | rewrite bool_decide_eq_false_2]; auto; lia.
  - f_equal. rewrite Z.geb_leb.
    match goal with |- (?x <=? ?y) = _ => destruct (Z.leb_spec x y) end;
      [rewrite bool_decide_eq_true_2 | rewrite bool_decide_eq_false_2]; auto; lia.
  - intros operation Hnot.
    repeat match goal with
    | |- context [String.eqb operation ?s] =>
        replace (String.eqb operation s) with false
          by (symmetry; apply String.eqb_neq; intros ->; apply Hnot;
              simpl; tauto)
    end.
    eexists. reflexivity.
Qed.

(** * The memory model *)

Section MemoryFacts.
Import memory_model.

Lemma land_255_twice (x : Z) : Z.land (Z.land x 0xFF) 0xFF = Z.land x 0xFF.
Proof. rewrite <- Z.land_assoc. reflexivity. Qed.

Lemma byte_range (x : Z) : 0 <= Z.land x 0xFF <= 255.
Proof.
  change (Z.land x 0xFF) with (Z.land x (Z.ones 8)). rewrite Z.land_ones by lia.
  pose proof (Z.mod_pos_bound x (2 ^ 8) ltac:(lia)) as H.
  change (2 ^ 8) with 256 in *. lia.
Qed.

Lemma byte_of_word (v i : Z) :
  0 <= i -> Z.land (Z.shiftr v (8 * i)) 0xFF = (v / 2 ^ (8 * i)) mod 256.
Proof.
  intros Hi. change 0xFF with (Z.ones 8).
  rewrite Z.land_ones, Z.shiftr_div_pow2 by lia. reflexivity.
Qed.

(** Four bytes, least significant first, make the low 32 bits of a word. *)
Lemma word_of_bytes (v : Z) :
  Z.lor (Z.lor (Z.lor
    (Z.land v 0xFF)
    (Z.shiftl (Z.land (Z.shiftr v 8) 0xFF) 8))
    (Z.shiftl (Z.land (Z.shiftr v 16) 0xFF) 16))
    (Z.shiftl (Z.land (Z.shiftr v 24) 0xFF) 24)
  = Z.land v 0xFFFFFFFF.
Proof.
  apply Z.bits_inj'. intros n Hn.
  change 0xFF with (Z.ones 8). change 0xFFFFFFFF with (Z.ones 32).
  rewrite !Z.lor_spec, !Z.land_spec.
  rewrite (Z.testbit_ones_nonneg 32 n) by lia.
  rewrite (Z.testbit_ones_nonneg 8 n) by lia.
  destruct (Z.ltb_spec n 8).
  { rewrite !Z.shiftl_spec by lia.
    rewrite !(Z.testbit_neg_r _ (n - _)) by lia.
    destruct (Z.ltb_spec n 32); [|lia].
    rewrite !orb_false_r. reflexivity. }
  rewrite andb_false_r, orb_false_l.
  destruct (Z.ltb_spec n 16).
  { rewrite !Z.shiftl_spec by lia.
    rewrite !(Z.testbit_neg_r _ (n - 16)), !(Z.testbit_neg_r _ (n - 24)) by lia.
    rewrite Z.land_spec, Z.shiftr_spec, Z.testbit_ones_nonneg by lia.
    replace (n - 8 + 8) with n by lia.
    destruct (Z.ltb_spec (n - 8) 8); [|lia].
    destruct (Z.ltb_spec n 32); [|lia].
    rewrite !orb_false_r. reflexivity. }
  destruct (Z.ltb_spec n 24).
  { rewrite !Z.shiftl_spec by lia.
    rewrite !(Z.testbit_neg_r _ (n - 24)) by lia.
    rewrite !Z.land_spec, !Z.shiftr_spec, !Z.testbit_ones_nonneg by lia.
    replace (n - 16 + 16) with n by lia.
    destruct (Z.ltb_spec (n - 8) 8); [lia|].
    destruct (Z.ltb_spec (n - 16) 8); [|lia].
    destruct (Z.ltb_spec n 32); [|lia].
    rewrite !andb_false_r, !orb_false_r, orb_false_l. reflexivity. }
  rewrite !Z.shiftl_spec by lia.
  rewrite !Z.land_spec, !Z.shiftr_spec, !Z.testbit_ones_nonneg by lia.
  replace (n - 24 + 24) with n by lia.
  destruct (Z.ltb_spec (n - 8) 8); [lia|].
  destruct (Z.ltb_spec (n - 16) 8); [lia|].
  rewrite !andb_false_r, !orb_false_l.
  destruct (Z.ltb_spec (n - 24) 8); destruct (Z.ltb_spec n 32);
    try lia; reflexivity.
Qed.

Variable MEMORY_ADDRESS_MASK MEMORY_WORD_ALIGN_MASK : Z.

Local Abbreviation read_byte := (read_byte MEMORY_ADDRESS_MASK).
Local Abbreviation write_byte := (write_byte MEMORY_ADDRESS_MASK).
Local Abbreviation read_word := (read_word MEMORY_ADDRESS_MASK MEMORY_WORD_ALIGN_MASK).
Local Abbreviation write_word := (write_word MEMORY_ADDRESS_MASK MEMORY_WORD_ALIGN_MASK).

Lemma read_write_byte_same (ram : gmap Z Z) (a b v : Z) :
  Z.land a MEMORY_ADDRESS_MASK = Z.land b MEMORY_ADDRESS_MASK ->
  read_byte (write_byte ram a v) b = Z.land v 0xFF.
Proof.
  intros H. unfold memory_model.read_byte, memory_model.write_byte.
  rewrite H, lookup_insert_eq. reflexivity.
Qed.

Lemma read_write_byte_other (ram : gmap Z Z) (a b v : Z) :
  Z.land a MEMORY_ADDRESS_MASK <> Z.land b MEMORY_ADDRESS_MASK ->
  read_byte (write_byte ram a v) b = read_byte ram b.
Proof.
  intros H. unfold memory_model.read_byte, memory_model.write_byte.
  rewrite lookup_insert_ne by exact H. reflexivity.
Qed.

Lemma write_byte_invariant (ram : gmap Z Z) (a v : Z) :
  ram_invariant MEMORY_ADDRESS_MASK ram ->
  ram_invariant MEMORY_ADDRESS_MASK (write_byte ram a v).
Proof.
  intros H. unfold memory_model.write_byte. apply map_Forall_insert_2; [|exact H].
  split; [|apply byte_range].
  rewrite <- Z.land_assoc, Z.land_diag. reflexivity.
Qed.

Lemma write_word_invariant (ram : gmap Z Z) (a v : Z) :
  ram_invariant MEMORY_ADDRESS_MASK ram ->
  ram_invariant MEMORY_ADDRESS_MASK (write_word ram a v).
Proof.
  intros H. unfold memory_model.write_word. cbv zeta.
  repeat apply write_byte_invariant. exact H.
Qed.

Lemma init_from_invariant (dut_words : list Z) (i : Z) (ram : gmap Z Z) :
  ram_invariant MEMORY_ADDRESS_MASK ram ->
  ram_invariant MEMORY_ADDRESS_MASK
    (init_from MEMORY_ADDRESS_MASK MEMORY_WORD_ALIGN_MASK i dut_words ram).
Proof.
  revert i ram. induction dut_words as [|w rest IH]; intros i ram H; simpl.
  - exact H.
  - apply IH. apply write_word_invariant. exact H.
Qed.

Lemma reachable_invariant (ram : gmap Z Z) :
  reachable MEMORY_ADDRESS_MASK MEMORY_WORD_ALIGN_MASK ram ->
  ram_invariant MEMORY_ADDRESS_MASK ram.
Proof.
  induction 1.
  - apply init_from_invariant. apply map_Forall_empty.
  - apply write_byte_invariant. assumption.
  - apply write_word_invariant. assumption.
Qed.

(** Addresses of the four bytes of an aligned word stay distinct under a
    mask of the form [2^k - 1]. *)
Lemma masked_offset (k al i : Z) :
  2 <= k -> MEMORY_ADDRESS_MASK = 2 ^ k - 1 -> al mod 4 = 0 -> 0 <= i < 4 ->
  Z.land (al + i) MEMORY_ADDRESS_MASK = Z.land al MEMORY_ADDRESS_MASK + i /\
  Z.land al MEMORY_ADDRESS_MASK mod 4 = 0.
Proof.
  intros Hk -> Hal Hi.
  change (2 ^ k - 1) with (Z.pred (2 ^ k)). rewrite <- Z.ones_equiv.
  rewrite !Z.land_ones by lia.
  assert (E : 2 ^ k = 4 * 2 ^ (k - 2)).
  { change 4 with (2 ^ 2). rewrite <- Z.pow_add_r by lia. f_equal. lia. }
  assert (Hp : 0 < 2 ^ (k - 2)) by (apply Z.pow_pos_nonneg; lia).
  apply Z.mod_divide in Hal; [|lia]. destruct Hal as [t ->].
  rewrite E, (Z.mul_comm t 4), Z.mul_mod_distr_l by lia.
  pose proof (Z.mod_pos_bound t (2 ^ (k - 2)) Hp) as Hb.
  split.
  - symmetry. apply Z.mod_unique with (q := t / 2 ^ (k - 2)); [lia|].
    pose proof (Z.div_mod t (2 ^ (k - 2)) ltac:(lia)). lia.
  - rewrite Z.mul_comm. apply Z.mod_mul. lia.
Qed.

Lemma aligned_address_mod4 (a : Z) :
  MEMORY_WORD_ALIGN_MASK = Z.lnot 3 \/ MEMORY_WORD_ALIGN_MASK = 0xFFFFFFFC ->
  Z.land a MEMORY_WORD_ALIGN_MASK mod 4 = 0 /\
  Z.land (Z.land a MEMORY_WORD_ALIGN_MASK) MEMORY_WORD_ALIGN_MASK
    = Z.land a MEMORY_WORD_ALIGN_MASK /\
  (0 <= a < 2 ^ 32 -> Z.land a MEMORY_WORD_ALIGN_MASK = 4 * (a / 4)).
Proof.
  intros HW.
  assert (H3 : Z.land MEMORY_WORD_ALIGN_MASK 3 = 0)
    by (destruct HW as [-> | ->]; reflexivity).
  split; [|split].
  - change 4 with (2 ^ 2). rewrite <- Z.land_ones by lia.
    change (Z.ones 2) with 3. rewrite <- Z.land_assoc, H3. apply Z.land_0_r.
  - rewrite <- Z.land_assoc, Z.land_diag. reflexivity.
  - intros Ha.
    assert (E : Z.land a MEMORY_WORD_ALIGN_MASK = Z.ldiff a (Z.ones 2)).
    { destruct HW as [-> | ->].
      - reflexivity.
      - replace a with (Z.land a (Z.ones 32)) at 1 2
          by (rewrite Z.land_ones by lia; apply Z.mod_small; lia).
        change 0xFFFFFFFC with (Z.land (Z.ones 32) (Z.lnot (Z.ones 2))).
        unfold Z.ldiff at 1.
        change (Z.ldiff ?x ?y) with (Z.land x (Z.lnot y)).
        rewrite !Z.land_assoc. rewrite <- (Z.land_assoc a), Z.land_diag.
        reflexivity. }
    rewrite E, Z.ldiff_ones_r by lia.
    rewrite Z.shiftr_div_pow2, Z.shiftl_mul_pow2 by lia.
    change (2 ^ 2) with 4. lia.
Qed.

End MemoryFacts.

(** C4: with an address mask [2^k - 1] covering at least one word and the
    word-alignment mask clearing the low two address bits, a byte address
    that was never written reads 0, and after [write_word a v] the word read
    back at [a] is [v & 0xFFFFFFFF]; both operations work on the address
    aligned down to a multiple of 4, and the four bytes are stored least
    significant first at the aligned address and the three after it. *)
Theorem memory_word_round_trip
    (MEMORY_ADDRESS_MASK MEMORY_WORD_ALIGN_MASK k : Z)
    (Hk : 2 <= k)
    (Hmask : MEMORY_ADDRESS_MASK = 2 ^ k - 1)
    (Halign : MEMORY_WORD_ALIGN_MASK = Z.lnot 3 \/
              MEMORY_WORD_ALIGN_MASK = 0xFFFFFFFC) :
  (forall (ram : gmap Z Z) (a : Z),
     ram !! Z.land a MEMORY_ADDRESS_MASK = None ->
     memory_model.read_byte MEMORY_ADDRESS_MASK ram a = 0) /\
  (forall (ram : gmap Z Z) (a v : Z),
     let aligned := Z.land a MEMORY_WORD_ALIGN_MASK in
     let ram' :=
       memory_model.write_word MEMORY_ADDRESS_MASK MEMORY_WORD_ALIGN_MASK ram a v in
     aligned mod 4 = 0 /\
     (0 <= a < 2 ^ 32 -> aligned = 4 * (a / 4)) /\
     memory_model.read_word MEMORY_ADDRESS_MASK MEMORY_WORD_ALIGN_MASK ram' a
       = Z.land v 0xFFFFFFFF /\
     ram' = memory_model.write_word MEMORY_ADDRESS_MASK MEMORY_WORD_ALIGN_MASK
              ram aligned v /\
     memory_model.read_word MEMORY_ADDRESS_MASK MEMORY_WORD_ALIGN_MASK ram a
       = memory_model.read_word MEMORY_ADDRESS_MASK MEMORY_WORD_ALIGN_MASK
           ram aligned /\
     forall i : Z, 0 <= i < 4 ->
       memory_model.read_byte MEMORY_ADDRESS_MASK ram' (aligned + i)
         = (v / 2 ^ (8 * i)) mod 256).
Proof.
  split.
  - intros ram a H. unfold memory_model.read_byte. rewrite H. reflexivity.
  - intros ram a v aligned ram'.
    destruct (aligned_address_mod4 MEMORY_WORD_ALIGN_MASK a Halign)
      as (Hmod & Hidem & Hdown).
    fold aligned in Hmod, Hidem, Hdown.
    pose proof (fun i => masked_offset MEMORY_ADDRESS_MASK k aligned i Hk Hmask Hmod)
      as Hoff.
    assert (Hbytes :
      memory_model.read_byte MEMORY_ADDRESS_MASK ram' aligned = Z.land v 0xFF /\
      memory_model.read_byte MEMORY_ADDRESS_MASK ram' (aligned + 1)
        = Z.land (Z.shiftr v 8) 0xFF /\
      memory_model.read_byte MEMORY_ADDRESS_MASK ram' (aligned + 2)
        = Z.land (Z.shiftr v 16) 0xFF /\
      memory_model.read_byte MEMORY_ADDRESS_MASK ram' (aligned + 3)
        = Z.land (Z.shiftr v 24) 0xFF).
    { subst ram'. unfold memory_model.write_word. cbv zeta. fold aligned.
      destruct (Hoff 0 ltac:(lia)) as [H0 _]. rewrite Z.add_0_r in H0.
      destruct (Hoff 1 ltac:(lia)) as [H1 _].
      destruct (Hoff 2 ltac:(lia)) as [H2 _].
      destruct (Hoff 3 ltac:(lia)) as [H3 _].
      repeat split.
      - rewrite !read_write_byte_other by lia.
        rewrite read_write_byte_same by reflexivity. apply land_255_twice.
      - rewrite !read_write_byte_other by lia.
        rewrite read_write_byte_same by reflexivity. apply land_255_twice.
      - rewrite !read_write_byte_other by lia.
        rewrite read_write_byte_same by reflexivity. apply land_255_twice.
      - rewrite read_write_byte_same by reflexivity. apply land_255_twice. }
    destruct Hbytes as (B0 & B1 & B2 & B3).
    repeat split.
    + exact Hmod.
    + exact Hdown.
    + unfold memory_model.read_word. cbv zeta. fold aligned.
      rewrite B0, B1, B2, B3. apply word_of_bytes.
    + subst ram'. unfold memory_model.write_word. cbv zeta. fold aligned.
      rewrite Hidem. reflexivity.
    + unfold memory_model.read_word. cbv zeta. fold aligned.
      rewrite Hidem. reflexivity.
    + intros i Hi.
      assert (Hc : i = 0 \/ i = 1 \/ i = 2 \/ i = 3) by lia.
      destruct Hc as [-> | [-> | [-> | ->]]].
      * rewrite Z.add_0_r, B0. rewrite <- (byte_of_word v 0) by lia.
        rewrite Z.shiftr_0_r. reflexivity.
      * rewrite B1. apply (byte_of_word v 1). lia.
      * rewrite B2. apply (byte_of_word v 2). lia.
      * rewrite B3. apply (byte_of_word v 3). lia.
Qed.

Lemma memory_word_round_trip_witness :
  memory_model.read_word 0xFFFF (Z.lnot 3)
    (memory_model.write_word 0xFFFF (Z.lnot 3) ∅ 0x102 0x1DEADBEEF) 0x102
  = Z.land 0x1DEADBEEF 0xFFFFFFFF.
Proof.
  pose proof (memory_word_round_trip 0xFFFF (Z.lnot 3) 16
                ltac:(lia) ltac:(reflexivity) ltac:(left; reflexivity)) as [_ H].
  destruct (H ∅ 0x102 0x1DEADBEEF) as (_ & _ & R & _).
  exact R.
Defined.

(** C9: every memory-model access masks its address with
    [MEMORY_ADDRESS_MASK], whatever that mask is.  So every memory the model
    can reach (the initial image, changed by byte and word writes) stores
    only keys that are their own masked value and only values in 0..255, and
    reads and writes at an address and at its masked address are the same
    access; the functions are total, no access raises an error. *)
Theorem memory_addresses_alias
    (MEMORY_ADDRESS_MASK MEMORY_WORD_ALIGN_MASK : Z) (ram : gmap Z Z)
    (Hreach : memory_model.reachable MEMORY_ADDRESS_MASK MEMORY_WORD_ALIGN_MASK ram) :
  (forall key value : Z, ram !! key = Some value ->
     key = Z.land key MEMORY_ADDRESS_MASK /\ 0 <= value <= 255) /\
  (forall a : Z,
     memory_model.read_byte MEMORY_ADDRESS_MASK ram a
       = memory_model.read_byte MEMORY_ADDRESS_MASK ram
           (Z.land a MEMORY_ADDRESS_MASK)) /\
  (forall a v : Z,
     memory_model.write_byte MEMORY_ADDRESS_MASK ram a v
       = memory_model.write_byte MEMORY_ADDRESS_MASK ram
           (Z.land a MEMORY_ADDRESS_MASK) v) /\
  (forall a : Z, 0 <= memory_model.read_byte MEMORY_ADDRESS_MASK ram a <= 255).
Proof.
  pose proof (reachable_invariant _ _ _ Hreach) as Hinv.
  split; [|split; [|split]].
  - intros key value H. exact (Hinv key value H).
  - intros a. unfold memory_model.read_byte.
    rewrite <- Z.land_assoc, Z.land_diag. reflexivity.
  - intros a v. unfold memory_model.write_byte.
    rewrite <- Z.land_assoc, Z.land_diag. reflexivity.
  - intros a. unfold memory_model.read_byte.
    destruct (ram !! Z.land a MEMORY_ADDRESS_MASK) as [x|] eqn:E; simpl; [|lia].
    destruct (Hinv _ _ E) as [_ Hv]. exact Hv.
Qed.

Lemma memory_addresses_alias_witness :
  let ram := memory_model.write_byte 0xFFFF
               (memory_model.init 0xFFFF (Z.lnot 3) [0x12345678; 0x9ABCDEF0])
               0x12345 0x1FF in
  memory_model.read_byte 0xFFFF ram 0x12345
    = memory_model.read_byte 0xFFFF ram (Z.land 0x12345 0xFFFF).
Proof.
  intros ram.
  destruct (memory_addresses_alias 0xFFFF (Z.lnot 3) ram
              (memory_model.reach_write_byte _ _ _ _ _
                 (memory_model.reach_init _ _ _))) as (_ & H & _).
  apply H.
Defined.

(** * The memory-write monitor *)

(** C8: when the design under test signals a write (the byte-enable mask,
    reduced to its four bits, is not zero), the monitor raises
    "unexpected memory write" with the observed address, data and mask if
    nothing is expected; otherwise it pops the oldest expected address and
    data, raises on an address mismatch, then on a data mismatch, and goes
    on with the rest of the queues when both match.  An error ends the
    monitoring loop. *)
Theorem monitor_flags_unexpected_write
    (q : memory_model.write_queues) (s : memory_model.dut_sample)
    (rest : list memory_model.dut_sample)
    (Hwrite : Z.land (memory_model.o_data_mem_per_byte_wr_en s) 0xF <> 0) :
  let wr_mask := Z.land (memory_model.o_data_mem_per_byte_wr_en s) 0xF in
  let wr_addr := Z.land (memory_model.o_data_mem_addr s) MASK32 in
  let wr_data := Z.land (memory_model.o_data_mem_wr_data s) MASK32 in
  (memory_model.write_address_expected_queue q = [] ->
     memory_model.monitor_step q s
       = inr (memory_model.UnexpectedWrite wr_addr wr_data wr_mask) /\
     memory_model.monitor_run q (s :: rest)
       = inr (memory_model.UnexpectedWrite wr_addr wr_data wr_mask)) /\
  (forall exp_addr addr_rest exp_data data_rest,
     memory_model.write_address_expected_queue q = exp_addr :: addr_rest ->
     memory_model.write_data_expected_queue q = exp_data :: data_rest ->
     let q' := {| memory_model.write_data_expected_queue := data_rest;
                  memory_model.write_address_expected_queue := addr_rest |} in
     (wr_addr <> exp_addr ->
        memory_model.monitor_step q s
          = inr (memory_model.AddressMismatch wr_addr exp_addr) /\
        memory_model.monitor_run q (s :: rest)
          = inr (memory_model.AddressMismatch wr_addr exp_addr)) /\
     (wr_addr = exp_addr -> wr_data <> exp_data ->
        memory_model.monitor_step q s
          = inr (memory_model.DataMismatch wr_addr wr_data exp_data) /\
        memory_model.monitor_run q (s :: rest)
          = inr (memory_model.DataMismatch wr_addr wr_data exp_data)) /\
     (wr_addr = exp_addr -> wr_data = exp_data ->
        memory_model.monitor_step q s = inl q' /\
        memory_model.monitor_run q (s :: rest)
          = memory_model.monitor_run q' rest)).
Proof.
  intros wr_mask wr_addr wr_data.
  assert (Hm : (wr_mask =? 0) = false) by (apply Z.eqb_neq; exact Hwrite).
  split.
  - intros Hempty.
    assert (E : memory_model.monitor_step q s
                = inr (memory_model.UnexpectedWrite wr_addr wr_data wr_mask)).
    { unfold memory_model.monitor_step. fold wr_mask. rewrite Hm, Hempty.
      reflexivity. }
    split; [exact E|]. simpl. rewrite E. reflexivity.
  - intros exp_addr addr_rest exp_data data_rest Ha Hd q'.
    assert (E : memory_model.monitor_step q s =
                if negb (wr_addr =? exp_addr)
                then inr (memory_model.AddressMismatch wr_addr exp_addr)
                else if negb (wr_data =? exp_data)
                then inr (memory_model.DataMismatch wr_addr wr_data exp_data)
                else inl q').
    { unfold memory_model.monitor_step. fold wr_mask. rewrite Hm, Ha, Hd.
      reflexivity. }
    split; [|split].
    + intros Hne. apply Z.eqb_neq in Hne. rewrite Hne in E. simpl in E.
      split; [exact E|]. simpl. rewrite E. reflexivity.
    + intros He Hne. apply Z.eqb_eq in He. apply Z.eqb_neq in Hne.
      rewrite He, Hne in E. simpl in E.
      split; [exact E|]. simpl. rewrite E. reflexivity.
    + intros He He'. apply Z.eqb_eq in He, He'. rewrite He, He' in E. simpl in E.
      split; [exact E|]. simpl. rewrite E. reflexivity.
Qed.

Lemma monitor_flags_unexpected_write_witness :
  memory_model.monitor_step
    {| memory_model.write_data_expected_queue := [];
       memory_model.write_address_expected_queue := [] |}
    {| memory_model.o_data_mem_per_byte_wr_en := 0xF;
       memory_model.o_data_mem_addr := 0x100;
       memory_model.o_data_mem_wr_data := 0xDEADBEEF |}
  = inr (memory_model.UnexpectedWrite 0x100 0xDEADBEEF 0xF).
Proof.
  pose proof (monitor_flags_unexpected_write
    {| memory_model.write_data_expected_queue := [];
       memory_model.write_address_expected_queue := [] |}
    {| memory_model.o_data_mem_per_byte_wr_en := 0xF;
       memory_model.o_data_mem_addr := 0x100;
       memory_model.o_data_mem_wr_data := 0xDEADBEEF |}
    [] ltac:(vm_compute; discriminate)) as [H _].
  destruct (H eq_refl) as [E _]. exact E.
Defined.

(** * Decoding a pattern into a host float *)

Lemma lor_pow2_small (n m : Z) :
  0 <= n -> 0 <= m < 2 ^ n -> Z.lor (2 ^ n) m = 2 ^ n + m.
Proof.
  intros Hn Hm.
  assert (Hl : Z.land (2 ^ n) m = 0).
  { rewrite Z.land_comm, land_pow2_testbit by lia.
    pose proof (Z.testbit_spec' m n Hn) as Hb.
    rewrite Z.div_small in Hb by lia. rewrite Z.mod_0_l in Hb by lia.
    rewrite Hb. lia. }
  rewrite <- Z.lxor_lor by exact Hl.
  symmetry. apply Z.add_nocarry_lxor. exact Hl.
Qed.

Lemma bits_to_float_fields (bits : Z) :
  fp_model.bits_to_float bits =
    let neg := ieee754.sign_field bits =? 1 in
    if ieee754.exponent_field bits =? 255
    then (if ieee754.fraction_field bits =? 0
          then py_float.PyInf neg else py_float.PyNaN)
    else py_float.PyFin neg (ieee754.significand bits) (ieee754.exponent2 bits).
Proof.
  unfold fp_model.bits_to_float, py_float.unpack_f.
  change MASK32 with (Z.ones 32). rewrite Z.land_ones by lia.
  rewrite testbit_sign_field, shift_exp_field.
  change 0x7FFFFF with fp_model.FP_MANT_MASK. rewrite mant_mask_field.
  destruct (fields_mod32 bits) as (-> & -> & ->).
  unfold ieee754.significand, ieee754.exponent2. cbv zeta.
  change 0xFF with 255.
  destruct (ieee754.exponent_field bits =? 255); [reflexivity|].
  destruct (ieee754.exponent_field bits =? 0); [reflexivity|].
  pose proof (field_bounds bits) as (_ & _ & Hf).
  change 0x800000 with (2 ^ 23). rewrite lor_pow2_small by lia. reflexivity.
Qed.

(** * FDIV.S *)

Lemma sign_xor_infinity (a b : Z) :
  Z.lor fp_model.FP_POS_INF (Z.land (Z.lxor a b) fp_model.FP_SIGN_MASK)
  = 0x7F800000 + 2 ^ 31 * ((ieee754.sign_field a + ieee754.sign_field b) mod 2).
Proof.
  change fp_model.FP_SIGN_MASK with (2 ^ 31).
  rewrite land_pow2_testbit by lia. rewrite Z.lxor_spec.
  rewrite !testbit_sign_field.
  pose proof (field_bounds a) as (Ha & _). pose proof (field_bounds b) as (Hb & _).
  assert (Ca : ieee754.sign_field a = 0 \/ ieee754.sign_field a = 1) by lia.
  assert (Cb : ieee754.sign_field b = 0 \/ ieee754.sign_field b = 1) by lia.
  destruct Ca as [-> | ->]; destruct Cb as [-> | ->]; reflexivity.
Qed.

(** C5: [fdiv_s] settles the special cases before any division: a NaN
    operand gives the canonical quiet NaN 0x7FC00000, so do two infinities
    and two zeros, and a zero divisor under a finite non-zero dividend gives
    the infinity whose sign bit is the exclusive or of the operands' sign
    bits. *)
Theorem fdiv_s_special_cases (rs1_bits rs2_bits : Z) :
  (ieee754.is_nan_pattern rs1_bits \/ ieee754.is_nan_pattern rs2_bits ->
     fp_model.fdiv_s rs1_bits rs2_bits = Ok 0x7FC00000) /\
  (ieee754.is_infinite_pattern rs1_bits /\ ieee754.is_infinite_pattern rs2_bits ->
     fp_model.fdiv_s rs1_bits rs2_bits = Ok 0x7FC00000) /\
  (ieee754.is_zero_pattern rs1_bits /\ ieee754.is_zero_pattern rs2_bits ->
     fp_model.fdiv_s rs1_bits rs2_bits = Ok 0x7FC00000) /\
  (ieee754.is_zero_pattern rs2_bits /\ ieee754.is_finite_pattern rs1_bits /\
   ~ ieee754.is_zero_pattern rs1_bits ->
     fp_model.fdiv_s rs1_bits rs2_bits
       = Ok (0x7F800000
             + 2 ^ 31 * ((ieee754.sign_field rs1_bits
                          + ieee754.sign_field rs2_bits) mod 2))).
Proof.
  unfold ieee754.is_nan_pattern, ieee754.is_infinite_pattern,
    ieee754.is_zero_pattern, ieee754.is_finite_pattern.
  unfold fp_model.fdiv_s.
  rewrite !is_nan_fields, !is_inf_fields, !is_zero_fields.
  rewrite (bits_to_float_fields rs2_bits). cbv zeta.
  rewrite sign_xor_infinity.
  pose proof (field_bounds rs1_bits) as (_ & He1 & Hf1).
  pose proof (field_bounds rs2_bits) as (_ & He2 & Hf2).
  unfold ieee754.significand, ieee754.exponent2.
  destruct (Z.eqb_spec (ieee754.exponent_field rs1_bits) 255) as [E1|E1];
  destruct (Z.eqb_spec (ieee754.fraction_field rs1_bits) 0) as [F1|F1];
  destruct (Z.eqb_spec (ieee754.exponent_field rs2_bits) 255) as [E2|E2];
  destruct (Z.eqb_spec (ieee754.fraction_field rs2_bits) 0) as [F2|F2];
  destruct (Z.eqb_spec (ieee754.exponent_field rs1_bits) 0) as [Z1|Z1];
  destruct (Z.eqb_spec (ieee754.exponent_field rs2_bits) 0) as [Z2|Z2];
  try lia; cbn [andb orb negb];
  (split; [|split; [|split]]); try reflexivity; try (intros; exfalso; lia);
  intros _; rewrite F2;
  destruct (ieee754.sign_field rs2_bits =? 1); reflexivity.
Qed.

Lemma fdiv_s_special_cases_witness :
  fp_model.fdiv_s 0xBF800000 0x00000000 = Ok 0xFF800000.
Proof.
  destruct (fdiv_s_special_cases 0xBF800000 0x00000000) as (_ & _ & _ & H).
  apply H. vm_compute.
  split; [split; reflexivity|]. split; [discriminate|].
  intros [E _]. discriminate E.
Defined.

(** * Instruction encoders *)

Section Encoders.
Import compressed_encode op_tables.

Lemma in_range_spec (lo x hi : Z) :
  in_range lo x hi = true <-> lo <= x <= hi.
Proof. unfold in_range. rewrite andb_true_iff, !Z.leb_le. tauto. Qed.

Lemma in_range_false (lo x hi : Z) :
  ~ (lo <= x <= hi) -> in_range lo x hi = false.
Proof.
  intros H. destruct (in_range lo x hi) eqn:E; [|reflexivity].
  apply in_range_spec in E. contradiction.
Qed.

Lemma py_assert_false {A : Type} (msg : string) (rest : result A) :
  raises (py_assert false msg rest).
Proof. eexists. reflexivity. Qed.

Lemma compress_reg_raises (reg : Z) :
  ~ (8 <= reg <= 15) -> raises (compress_reg reg).
Proof.
  intros H. unfold compress_reg. rewrite in_range_false by exact H.
  apply py_assert_false.
Qed.

Lemma shift_encoder_masks (enc_i : Z -> Z -> Z -> Z -> result Z)
    (f3 f7 rd rs1 sh : Z) :
  make_i_shift_encoder enc_i f3 f7 rd rs1 sh
  = make_i_shift_encoder enc_i f3 f7 rd rs1 (sh mod 32).
Proof.
  unfold make_i_shift_encoder. change 0x1F with (Z.ones 5).
  rewrite !Z.land_ones by lia. change (2 ^ 5) with 32.
  rewrite Z.mod_mod by lia. reflexivity.
Qed.

(** The [assert] statements of each compressed-form encoder, one lemma for
    each encoder: the call returns a word when every operand passes them
    and raises an [AssertionError] as soon as one does not. *)

Lemma compress_reg_checks (reg : Z) :
  raises_unless (8 <= reg <= 15) (compress_reg reg).
Proof.
  unfold raises_unless, compress_reg, py_assert, in_range.
  compare_cases; cbn [andb negb bind];
    (split; intros Hlegal;
     [try (exfalso; lia) | try (exfalso; apply Hlegal; lia)]; eexists; reflexivity).
Qed.

Lemma enc_c_addi4spn_checks (rd_prime nzuimm : Z) :
  raises_unless
    (8 <= rd_prime <= 15 /\
     nzuimm <> 0 /\ nzuimm mod 4 = 0 /\ 4 <= nzuimm <= 1020)
    (enc_c_addi4spn rd_prime nzuimm).
Proof.
  unfold raises_unless, enc_c_addi4spn, compress_reg, py_assert, in_range.
  compare_cases; cbn [andb negb bind];
    (split; intros Hlegal;
     [try (exfalso; lia) | try (exfalso; apply Hlegal; lia)]; eexists; reflexivity).
Qed.

Lemma enc_c_lw_checks (rd_prime rs1_prime uimm : Z) :
  raises_unless
    (8 <= rd_prime <= 15 /\ 8 <= rs1_prime <= 15 /\
     uimm mod 4 = 0 /\ 0 <= uimm <= 124)
    (enc_c_lw rd_prime rs1_prime uimm).
Proof.
  unfold raises_unless, enc_c_lw, compress_reg, py_assert, in_range.
  compare_cases; cbn [andb negb bind];
    (split; intros Hlegal;
     [try (exfalso; lia) | try (exfalso; apply Hlegal; lia)]; eexists; reflexivity).
Qed.

Lemma enc_c_sw_checks (rs1_prime rs2_prime uimm : Z) :
  raises_unless
    (8 <= rs1_prime <= 15 /\ 8 <= rs2_prime <= 15 /\
     uimm mod 4 = 0 /\ 0 <= uimm <= 124)
    (enc_c_sw rs1_prime rs2_prime uimm).
Proof.
  unfold raises_unless, enc_c_sw, compress_reg, py_assert, in_range.
  compare_cases; cbn [andb negb bind];
    (split; intros Hlegal;
     [try (exfalso; lia) | try (exfalso; apply Hlegal; lia)]; eexists; reflexivity).
Qed.

Lemma enc_c_addi_checks (rd nzimm : Z) :
  raises_unless (0 <= rd <= 31 /\ -32 <= nzimm <= 31) (enc_c_addi rd nzimm).
Proof.
  unfold raises_unless, enc_c_addi, py_assert, in_range.
  compare_cases; cbn [andb negb bind];
    (split; intros Hlegal;
     [try (exfalso; lia) | try (exfalso; apply Hlegal; lia)]; eexists; reflexivity).
Qed.

Lemma enc_c_jal_checks (imm : Z) :
  raises_unless (imm mod 2 = 0 /\ -2048 <= imm <= 2046) (enc_c_jal imm).
Proof.
  unfold raises_unless, enc_c_jal, py_assert, in_range.
  compare_cases; cbn [andb negb bind];
    (split; intros Hlegal;
     [try (exfalso; lia) | try (exfalso; apply Hlegal; lia)]; eexists; reflexivity).
Qed.

Lemma enc_c_li_checks (rd imm : Z) :
  raises_unless (1 <= rd <= 31 /\ -32 <= imm <= 31) (enc_c_li rd imm).
Proof.
  unfold raises_unless, enc_c_li, py_assert, in_range.
  compare_cases; cbn [andb negb bind];
    (split; intros Hlegal;
     [try (exfalso; lia) | try (exfalso; apply Hlegal; lia)]; eexists; reflexivity).
Qed.

Lemma enc_c_lui_checks (rd nzimm : Z) :
  raises_unless
    (1 <= rd <= 31 /\ rd <> 2 /\ nzimm <> 0 /\ -32 <= nzimm <= 31)
    (enc_c_lui rd nzimm).
Proof.
  unfold raises_unless, enc_c_lui, py_assert, in_range.
  compare_cases; cbn [andb negb bind];
    (split; intros Hlegal;
     [try (exfalso; lia) | try (exfalso; apply Hlegal; lia)]; eexists; reflexivity).
Qed.

Lemma enc_c_addi16sp_checks (nzimm : Z) :
  raises_unless
    (nzimm <> 0 /\ nzimm mod 16 = 0 /\ -512 <= nzimm <= 496)
    (enc_c_addi16sp nzimm).
Proof.
  unfold raises_unless, enc_c_addi16sp, py_assert, in_range.
  compare_cases; cbn [andb negb bind];
    (split; intros Hlegal;
     [try (exfalso; lia) | try (exfalso; apply Hlegal; lia)]; eexists; reflexivity).
Qed.

Lemma enc_c_srli_checks (rd_prime shamt : Z) :
  raises_unless (8 <= rd_prime <= 15 /\ 1 <= shamt <= 31)
    (enc_c_srli rd_prime shamt).
Proof.
  unfold raises_unless, enc_c_srli, compress_reg, py_assert, in_range.
  compare_cases; cbn [andb negb bind];
    (split; intros Hlegal;
     [try (exfalso; lia) | try (exfalso; apply Hlegal; lia)]; eexists; reflexivity).
Qed.

Lemma enc_c_srai_checks (rd_prime shamt : Z) :
  raises_unless (8 <= rd_prime <= 15 /\ 1 <= shamt <= 31)
    (enc_c_srai rd_prime shamt).
Proof.
  unfold raises_unless, enc_c_srai, compress_reg, py_assert, in_range.
  compare_cases; cbn [andb negb bind];
    (split; intros Hlegal;
     [try (exfalso; lia) | try (exfalso; apply Hlegal; lia)]; eexists; reflexivity).
Qed.

Lemma enc_c_andi_checks (rd_prime imm : Z) :
  raises_unless (8 <= rd_prime <= 15 /\ -32 <= imm <= 31)
    (enc_c_andi rd_prime imm).
Proof.
  unfold raises_unless, enc_c_andi, compress_reg, py_assert, in_range.
  compare_cases; cbn [andb negb bind];
    (split; intros Hlegal;
     [try (exfalso; lia) | try (exfalso; apply Hlegal; lia)]; eexists; reflexivity).
Qed.

Lemma enc_ca_checks (funct2 rd_prime rs2_prime : Z) :
  raises_unless (8 <= rd_prime <= 15 /\ 8 <= rs2_prime <= 15)
    (enc_ca funct2 rd_prime rs2_prime).
Proof.
  unfold raises_unless, enc_ca, compress_reg, py_assert, in_range.
  compare_cases; cbn [andb negb bind];
    (split; intros Hlegal;
     [try (exfalso; lia) | try (exfalso; apply Hlegal; lia)]; eexists; reflexivity).
Qed.

Lemma enc_c_j_checks (imm : Z) :
  raises_unless (imm mod 2 = 0 /\ -2048 <= imm <= 2046) (enc_c_j imm).
Proof.
  unfold raises_unless, enc_c_j, py_assert, in_range.
  compare_cases; cbn [andb negb bind];
    (split; intros Hlegal;
     [try (exfalso; lia) | try (exfalso; apply Hlegal; lia)]; eexists; reflexivity).
Qed.

Lemma enc_cb_checks (funct3 rs1_prime imm : Z) :
  raises_unless
    (8 <= rs1_prime <= 15 /\ imm mod 2 = 0 /\ -256 <= imm <= 254)
    (enc_cb funct3 rs1_prime imm).
Proof.
  unfold raises_unless, enc_cb, compress_reg, py_assert, in_range.
  compare_cases; cbn [andb negb bind];
    (split; intros Hlegal;
     [try (exfalso; lia) | try (exfalso; apply Hlegal; lia)]; eexists; reflexivity).
Qed.

Lemma enc_c_slli_checks (rd shamt : Z) :
  raises_unless (1 <= rd <= 31 /\ 1 <= shamt <= 31) (enc_c_slli rd shamt).
Proof.
  unfold raises_unless, enc_c_slli, py_assert, in_range.
  compare_cases; cbn [andb negb bind];
    (split; intros Hlegal;
     [try (exfalso; lia) | try (exfalso; apply Hlegal; lia)]; eexists; reflexivity).
Qed.

Lemma enc_c_lwsp_checks (rd uimm : Z) :
  raises_unless (1 <= rd <= 31 /\ uimm mod 4 = 0 /\ 0 <= uimm <= 252)
    (enc_c_lwsp rd uimm).
Proof.
  unfold raises_unless, enc_c_lwsp, py_assert, in_range.
  compare_cases; cbn [andb negb bind];
    (split; intros Hlegal;
     [try (exfalso; lia) | try (exfalso; apply Hlegal; lia)]; eexists; reflexivity).
Qed.

Lemma enc_c_jr_checks (rs1 : Z) :
  raises_unless (1 <= rs1 <= 31) (enc_c_jr rs1).
Proof.
  unfold raises_unless, enc_c_jr, py_assert, in_range.
  compare_cases; cbn [andb negb bind];
    (split; intros Hlegal;
     [try (exfalso; lia) | try (exfalso; apply Hlegal; lia)]; eexists; reflexivity).
Qed.

Lemma enc_c_mv_checks (rd rs2 : Z) :
  raises_unless (1 <= rd <= 31 /\ 1 <= rs2 <= 31) (enc_c_mv rd rs2).
Proof.
  unfold raises_unless, enc_c_mv, py_assert, in_range.
  compare_cases; cbn [andb negb bind];
    (split; intros Hlegal;
     [try (exfalso; lia) | try (exfalso; apply Hlegal; lia)]; eexists; reflexivity).
Qed.

Lemma enc_c_jalr_checks (rs1 : Z) :
  raises_unless (1 <= rs1 <= 31) (enc_c_jalr rs1).
Proof.
  unfold raises_unless, enc_c_jalr, py_assert, in_range.
  compare_cases; cbn [andb negb bind];
    (split; intros Hlegal;
     [try (exfalso; lia) | try (exfalso; apply Hlegal; lia)]; eexists; reflexivity).
Qed.

Lemma enc_c_add_checks (rd rs2 : Z) :
  raises_unless (1 <= rd <= 31 /\ 1 <= rs2 <= 31) (enc_c_add rd rs2).
Proof.
  unfold raises_unless, enc_c_add, py_assert, in_range.
  compare_cases; cbn [andb negb bind];
    (split; intros Hlegal;
     [try (exfalso; lia) | try (exfalso; apply Hlegal; lia)]; eexists; reflexivity).
Qed.

Lemma enc_c_swsp_checks (rs2 uimm : Z) :
  raises_unless (0 <= rs2 <= 31 /\ uimm mod 4 = 0 /\ 0 <= uimm <= 252)
    (enc_c_swsp rs2 uimm).
Proof.
  unfold raises_unless, enc_c_swsp, py_assert, in_range.
  compare_cases; cbn [andb negb bind];
    (split; intros Hlegal;
     [try (exfalso; lia) | try (exfalso; apply Hlegal; lia)]; eexists; reflexivity).
Qed.

End Encoders.

(** C3, the claim as stated fails: the shift-immediate encoder of "slli"
    accepts the shift amount 32 and returns the word of [slli x5, x6, 0]. *)
Lemma shift_encoder_accepts_out_of_range :
  op_tables.make_i_shift_encoder op_tables.enc_i_spec 0x1 0x00 5 6 32
  = Ok 0x00031293.
Proof. reflexivity. Qed.

(** C3, amended: every compressed-form encoder raises an error (an
    [AssertionError]) for every operand combination outside the legal
    range of its format, and returns a word for every combination inside
    it, so that none of them masks an out-of-range operand into range.  The
    legal range is the one its [assert] statements spell out: a register
    in x8-x15 where the format has a 3-bit register field ([compress_reg]
    maps it to [reg - 8] and raises on any other), in x1-x31 or x0-x31
    where it has a 5-bit field (not x2 for C.LUI); a shift amount in 1-31;
    a signed 6-bit immediate (non-zero for C.LUI); an offset or stack
    immediate within its bounds and a multiple of its scale (non-zero for
    C.ADDI4SPN and C.ADDI16SP).  The one exception among the encoders is
    the family of I-type shift encoders built by [make_i_shift_encoder]:
    they keep only the low five bits of the shift amount, so that a shift
    amount outside 0-31 is encoded as its remainder modulo 32 instead of
    raising an error. *)
Theorem encoders_reject_or_mask (enc_i : Z -> Z -> Z -> Z -> result Z) :
  (forall f3 f7 rd rs1 sh : Z,
     op_tables.make_i_shift_encoder enc_i f3 f7 rd rs1 sh
     = op_tables.make_i_shift_encoder enc_i f3 f7 rd rs1 (sh mod 32)) /\
  (forall reg : Z,
     (8 <= reg <= 15 -> compressed_encode.compress_reg reg = Ok (reg - 8)) /\
     (~ (8 <= reg <= 15) -> raises (compressed_encode.compress_reg reg)) /\
     raises_unless (8 <= reg <= 15) (compressed_encode.compress_reg reg)) /\
  (forall rd_prime nzuimm : Z,
     raises_unless
       (8 <= rd_prime <= 15 /\
        nzuimm <> 0 /\ nzuimm mod 4 = 0 /\ 4 <= nzuimm <= 1020)
       (compressed_encode.enc_c_addi4spn rd_prime nzuimm)) /\
  (forall rd_prime rs1_prime uimm : Z,
     raises_unless
       (8 <= rd_prime <= 15 /\ 8 <= rs1_prime <= 15 /\
        uimm mod 4 = 0 /\ 0 <= uimm <= 124)
       (compressed_encode.enc_c_lw rd_prime rs1_prime uimm)) /\
  (forall rs1_prime rs2_prime uimm : Z,
     raises_unless
       (8 <= rs1_prime <= 15 /\ 8 <= rs2_prime <= 15 /\
        uimm mod 4 = 0 /\ 0 <= uimm <= 124)
       (compressed_encode.enc_c_sw rs1_prime rs2_prime uimm)) /\
  (forall rd nzimm : Z,
     raises_unless (0 <= rd <= 31 /\ -32 <= nzimm <= 31)
       (compressed_encode.enc_c_addi rd nzimm)) /\
  (forall imm : Z,
     raises_unless (imm mod 2 = 0 /\ -2048 <= imm <= 2046)
       (compressed_encode.enc_c_jal imm)) /\
  (forall rd imm : Z,
     raises_unless (1 <= rd <= 31 /\ -32 <= imm <= 31)
       (compressed_encode.enc_c_li rd imm)) /\
  (forall rd nzimm : Z,
     raises_unless
       (1 <= rd <= 31 /\ rd <> 2 /\ nzimm <> 0 /\ -32 <= nzimm <= 31)
       (compressed_encode.enc_c_lui rd nzimm)) /\
  (forall nzimm : Z,
     raises_unless
       (nzimm <> 0 /\ nzimm mod 16 = 0 /\ -512 <= nzimm <= 496)
       (compressed_encode.enc_c_addi16sp nzimm)) /\
  (forall rd_prime shamt : Z,
     raises_unless (8 <= rd_prime <= 15 /\ 1 <= shamt <= 31)
       (compressed_encode.enc_c_srli rd_prime shamt) /\
     raises_unless (8 <= rd_prime <= 15 /\ 1 <= shamt <= 31)
       (compressed_encode.enc_c_srai rd_prime shamt)) /\
  (forall rd_prime imm : Z,
     raises_unless (8 <= rd_prime <= 15 /\ -32 <= imm <= 31)
       (compressed_encode.enc_c_andi rd_prime imm)) /\
  (forall rd_prime rs2_prime : Z,
     raises_unless (8 <= rd_prime <= 15 /\ 8 <= rs2_prime <= 15)
       (compressed_encode.enc_c_sub rd_prime rs2_prime) /\
     raises_unless (8 <= rd_prime <= 15 /\ 8 <= rs2_prime <= 15)
       (compressed_encode.enc_c_xor rd_prime rs2_prime) /\
     raises_unless (8 <= rd_prime <= 15 /\ 8 <= rs2_prime <= 15)
       (compressed_encode.enc_c_or rd_prime rs2_prime) /\
     raises_unless (8 <= rd_prime <= 15 /\ 8 <= rs2_prime <= 15)
       (compressed_encode.enc_c_and rd_prime rs2_prime)) /\
  (forall imm : Z,
     raises_unless (imm mod 2 = 0 /\ -2048 <= imm <= 2046)
       (compressed_encode.enc_c_j imm)) /\
  (forall rs1_prime imm : Z,
     raises_unless
       (8 <= rs1_prime <= 15 /\ imm mod 2 = 0 /\ -256 <= imm <= 254)
       (compressed_encode.enc_c_beqz rs1_prime imm) /\
     raises_unless
       (8 <= rs1_prime <= 15 /\ imm mod 2 = 0 /\ -256 <= imm <= 254)
       (compressed_encode.enc_c_bnez rs1_prime imm)) /\
  (forall rd shamt : Z,
     raises_unless (1 <= rd <= 31 /\ 1 <= shamt <= 31)
       (compressed_encode.enc_c_slli rd shamt)) /\
  (forall rd uimm : Z,
     raises_unless (1 <= rd <= 31 /\ uimm mod 4 = 0 /\ 0 <= uimm <= 252)
       (compressed_encode.enc_c_lwsp rd uimm)) /\
  (forall rs2 uimm : Z,
     raises_unless (0 <= rs2 <= 31 /\ uimm mod 4 = 0 /\ 0 <= uimm <= 252)
       (compressed_encode.enc_c_swsp rs2 uimm)) /\
  (forall rs1 : Z,
     raises_unless (1 <= rs1 <= 31) (compressed_encode.enc_c_jr rs1) /\
     raises_unless (1 <= rs1 <= 31) (compressed_encode.enc_c_jalr rs1)) /\
  (forall rd rs2 : Z,
     raises_unless (1 <= rd <= 31 /\ 1 <= rs2 <= 31)
       (compressed_encode.enc_c_mv rd rs2) /\
     raises_unless (1 <= rd <= 31 /\ 1 <= rs2 <= 31)
       (compressed_encode.enc_c_add rd rs2)).
Proof.
  repeat apply conj.
  - intros. apply shift_encoder_masks.
  - intros reg. split; [|split].
    + intros H. unfold compressed_encode.compress_reg.
      apply in_range_spec in H. rewrite H. reflexivity.
    + apply compress_reg_raises.
    + apply compress_reg_checks.
  - apply enc_c_addi4spn_checks.
  - apply enc_c_lw_checks.
  - apply enc_c_sw_checks.
  - apply enc_c_addi_checks.
  - apply enc_c_jal_checks.
  - apply enc_c_li_checks.
  - apply enc_c_lui_checks.
  - apply enc_c_addi16sp_checks.
  - intros. split; [apply enc_c_srli_checks | apply enc_c_srai_checks].
  - apply enc_c_andi_checks.
  - intros. split; [|split; [|split]]; apply enc_ca_checks.
  - apply enc_c_j_checks.
  - intros. split; apply enc_cb_checks.
  - apply enc_c_slli_checks.
  - apply enc_c_lwsp_checks.
  - apply enc_c_swsp_checks.
  - intros. split; [apply enc_c_jr_checks | apply enc_c_jalr_checks].
  - intros. split; [apply enc_c_mv_checks | apply enc_c_add_checks].
Qed.

(** * SC.W in the instruction executor *)

Section ExecuteSC.
Import py_list test_state instruction_executor.

Lemma getitem_in_range {A : Type} (l : list A) (i : Z) :
  0 <= i < Z.of_nat (length l) ->
  exists x, l !! Z.to_nat i = Some x /\ getitem l i = Ok x.
Proof.
  intros Hi. unfold getitem, position.
  destruct (Z.leb_spec 0 i); [|lia].
  destruct (Z.ltb_spec i (Z.of_nat (length l))); [|lia]. simpl.
  destruct (lookup_lt_is_Some_2 l (Z.to_nat i) ltac:(lia)) as [x Hx].
  exists x. rewrite Hx. split; reflexivity.
Qed.

Lemma setitem_in_range {A : Type} (l : list A) (i : Z) (x : A) :
  0 <= i < Z.of_nat (length l) ->
  setitem l i x = Ok (<[Z.to_nat i := x]> l).
Proof.
  intros Hi. unfold setitem, position.
  destruct (Z.leb_spec 0 i); [|lia].
  destruct (Z.ltb_spec i (Z.of_nat (length l))); [|lia]. reflexivity.
Qed.

Lemma word_align_down (v : Z) : Z.land v (Z.lnot 0x3) = v - v mod 4.
Proof.
  change (Z.land v (Z.lnot 0x3)) with (Z.ldiff v (Z.ones 2)).
  rewrite Z.ldiff_ones_r by lia.
  rewrite Z.shiftr_div_pow2, Z.shiftl_mul_pow2 by lia.
  change (2 ^ 2) with 4. pose proof (Z.div_mod v 4 ltac:(lia)). lia.
Qed.

Lemma check_reservation_spec (st : TestState) (address : Z) :
  check_reservation st address = true <-> reservation st = Some address.
Proof.
  unfold check_reservation. destruct (reservation st) as [r|].
  - rewrite Z.eqb_eq. split; [intros ->; reflexivity | intros [= ->]; reflexivity].
  - split; discriminate.
Qed.

End ExecuteSC.

(** C2: for every execution of SC.W ([execute_sc]) with register indices
    in 0..31, on a tracker whose two register files have 32 entries, the
    call returns, and the store succeeds iff the tracker's reservation is
    the word-aligned address (the rs1 value with the low two bits cleared).
    On success rd receives 0, and exactly one memory-write expectation (that
    address, the rs2 value) is appended to the queues and applied to the
    memory model; on failure rd receives 1, and no memory write is queued
    or applied.  Register x0 is hard-wired to zero (section 3 of the
    specification: writes to it are discarded), so with rd = x0 the write
    is dropped and the register file is left as it was.  In both cases the
    reservation is cleared, so that an SC.W which follows immediately, to
    the same address or to any other, returns and fails, and queues and
    writes nothing. *)
Theorem execute_sc_probe_and_clear
    (MEMORY_ADDRESS_MASK MEMORY_WORD_ALIGN_MASK : Z)
    (enc_sc_w : Z -> Z -> Z -> result Z)
    (st : test_state.TestState) (mem : gmap Z Z) (rd rs1 rs2 instr : Z)
    (Hprev : length (test_state.register_file_previous st) = 32%nat)
    (Hcur : length (test_state.register_file_current st) = 32%nat)
    (Hrd : 0 <= rd < 32) (Hrs1 : 0 <= rs1 < 32) (Hrs2 : 0 <= rs2 < 32)
    (Henc : enc_sc_w rd rs2 rs1 = Ok instr) :
  exists (rs1_value rs2_value : Z) (out : instruction_executor.sc_outcome),
    test_state.register_file_previous st !! Z.to_nat rs1 = Some rs1_value /\
    test_state.register_file_previous st !! Z.to_nat rs2 = Some rs2_value /\
    instruction_executor.execute_sc MEMORY_ADDRESS_MASK MEMORY_WORD_ALIGN_MASK
      enc_sc_w st mem rd rs1 rs2 = Ok out /\
    let address := rs1_value - rs1_value mod 4 in
    let st' := instruction_executor.state out in
    let result_value := if instruction_executor.success out then 0 else 1 in
    (instruction_executor.success out = true <->
       test_state.reservation st = Some address) /\
    test_state.register_file_current st' =
      (if rd =? 0 then test_state.register_file_current st
       else <[Z.to_nat rd := result_value]> (test_state.register_file_current st)) /\
    (rd <> 0 ->
       test_state.register_file_current st' !! Z.to_nat rd = Some result_value) /\
    (instruction_executor.success out = true ->
       test_state.memory_write_address_expected_queue st'
         = test_state.memory_write_address_expected_queue st ++ [address] /\
       test_state.memory_write_data_expected_queue st'
         = test_state.memory_write_data_expected_queue st ++ [rs2_value] /\
       instruction_executor.ram_bytes out
         = memory_model.write_word MEMORY_ADDRESS_MASK MEMORY_WORD_ALIGN_MASK
             mem address rs2_value) /\
    (instruction_executor.success out = false ->
       test_state.memory_write_address_expected_queue st'
         = test_state.memory_write_address_expected_queue st /\
       test_state.memory_write_data_expected_queue st'
         = test_state.memory_write_data_expected_queue st /\
       instruction_executor.ram_bytes out = mem) /\
    test_state.reservation st' = None /\
    (forall (rd' rs1' rs2' : Z) (out' : instruction_executor.sc_outcome),
       instruction_executor.execute_sc MEMORY_ADDRESS_MASK MEMORY_WORD_ALIGN_MASK
         enc_sc_w st' (instruction_executor.ram_bytes out) rd' rs1' rs2' = Ok out' ->
       instruction_executor.success out' = false /\
       test_state.memory_write_address_expected_queue
         (instruction_executor.state out')
         = test_state.memory_write_address_expected_queue st' /\
       test_state.memory_write_data_expected_queue
         (instruction_executor.state out')
         = test_state.memory_write_data_expected_queue st' /\
       instruction_executor.ram_bytes out' = instruction_executor.ram_bytes out) /\
    (forall (rd' rs1' rs2' instr' : Z),
       0 <= rd' < 32 -> 0 <= rs1' < 32 -> 0 <= rs2' < 32 ->
       enc_sc_w rd' rs2' rs1' = Ok instr' ->
       exists out' : instruction_executor.sc_outcome,
         instruction_executor.execute_sc MEMORY_ADDRESS_MASK MEMORY_WORD_ALIGN_MASK
           enc_sc_w st' (instruction_executor.ram_bytes out) rd' rs1' rs2' = Ok out' /\
         instruction_executor.success out' = false).
Proof.
  destruct (getitem_in_range (test_state.register_file_previous st) rs1
              ltac:(lia)) as (v1 & L1 & G1).
  destruct (getitem_in_range (test_state.register_file_previous st) rs2
              ltac:(lia)) as (v2 & L2 & G2).
  exists v1, v2.
  assert (Hfollow : forall st0 mem0 rd' rs1' rs2' out',
    test_state.reservation st0 = None ->
    instruction_executor.execute_sc MEMORY_ADDRESS_MASK MEMORY_WORD_ALIGN_MASK
      enc_sc_w st0 mem0 rd' rs1' rs2' = Ok out' ->
    instruction_executor.success out' = false /\
    test_state.memory_write_address_expected_queue (instruction_executor.state out')
      = test_state.memory_write_address_expected_queue st0 /\
    test_state.memory_write_data_expected_queue (instruction_executor.state out')
      = test_state.memory_write_data_expected_queue st0 /\
    instruction_executor.ram_bytes out' = mem0).
  { intros st0 mem0 rd' rs1' rs2' out' Hres H.
    unfold instruction_executor.execute_sc in H.
    destruct (enc_sc_w rd' rs2' rs1') as [i|]; [|discriminate]. cbn [bind] in H.
    destruct (py_list.getitem (test_state.register_file_previous st0) rs1')
      as [x|]; [|discriminate]. cbn [bind] in H.
    unfold test_state.check_reservation in H. rewrite Hres in H. cbn [bind] in H.
    destruct (negb (rd' =? 0)).
    - destruct (py_list.setitem _ rd' _) as [regs|]; [|discriminate].
      cbn [bind] in H. injection H as <-. repeat split; reflexivity.
    - cbn [bind] in H. injection H as <-. repeat split; reflexivity. }
  assert (Hreturns : forall st0 mem0 rd' rs1' rs2' instr',
    test_state.reservation st0 = None ->
    length (test_state.register_file_previous st0) = 32%nat ->
    length (test_state.register_file_current st0) = 32%nat ->
    0 <= rd' < 32 -> 0 <= rs1' < 32 -> 0 <= rs2' < 32 ->
    enc_sc_w rd' rs2' rs1' = Ok instr' ->
    exists out',
      instruction_executor.execute_sc MEMORY_ADDRESS_MASK MEMORY_WORD_ALIGN_MASK
        enc_sc_w st0 mem0 rd' rs1' rs2' = Ok out' /\
      instruction_executor.success out' = false).
  { intros st0 mem0 rd' rs1' rs2' instr' Hres Hp Hc Hrd' Hrs1' Hrs2' Henc'.
    destruct (getitem_in_range (test_state.register_file_previous st0) rs1'
                ltac:(lia)) as (x & _ & Gx).
    unfold instruction_executor.execute_sc.
    rewrite Henc'. cbn [bind]. rewrite Gx. cbn [bind].
    unfold test_state.check_reservation. rewrite Hres. cbn [bind].
    destruct (Z.eqb_spec rd' 0) as [->|Hne]; cbn [negb bind].
    - eexists. split; reflexivity.
    - rewrite setitem_in_range by (cbn; lia). cbn [bind].
      eexists. split; reflexivity. }
  unfold instruction_executor.execute_sc.
  rewrite Henc. cbn [bind]. rewrite G1. cbn [bind].
  rewrite word_align_down.
  set (address := v1 - v1 mod 4).
  pose proof (check_reservation_spec st address) as Hchk.
  change (test_state.register_file_previous (test_state.clear_reservation st))
    with (test_state.register_file_previous st).
  rewrite G2.
  assert (Hins : forall v : Z, rd <> 0 ->
            <[Z.to_nat rd := v]> (test_state.register_file_current st)
              !! Z.to_nat rd = Some v).
  { intros v _. apply list_lookup_insert_eq. lia. }
  destruct (test_state.check_reservation st address) eqn:Esucc; cbn [bind];
    (destruct (Z.eqb_spec rd 0) as [->|Hne]; cbn [negb bind];
     [|rewrite setitem_in_range by (cbn; lia); cbn [bind]]);
    (eexists; split; [exact L1|]; split; [exact L2|]; split; [reflexivity|]);
    cbv zeta;
    cbn [instruction_executor.success instruction_executor.state
         instruction_executor.ram_bytes];
    (split; [first [exact Hchk | split; [discriminate | intros H; apply Hchk in H; discriminate H]]|]);
    (split; [reflexivity|]);
    (split; [first [intros H; exfalso; apply H; reflexivity
                   | intros H; apply (Hins _ H)]|]);
    (split; [first [discriminate | intros _; repeat split; reflexivity]|]);
    (split; [first [discriminate | intros _; repeat split; reflexivity]|]);
    (split; [reflexivity|]);
    (split;
       [intros rd' rs1' rs2' out' H; (eapply Hfollow; [|exact H]); reflexivity|]);
    intros rd' rs1' rs2' instr' Hrd' Hrs1' Hrs2' Henc';
    (eapply Hreturns; [reflexivity | | | exact Hrd' | exact Hrs1' | exact Hrs2'
                       | exact Henc']);
    cbn; rewrite ?length_insert; exact Hcur.
Qed.

Lemma execute_sc_probe_and_clear_witness :
  let regs := <[10%nat := 0x100]> (<[12%nat := 0xDEADBEEF]> (repeat 0 32)) in
  let st := {| test_state.register_file_previous := regs;
               test_state.register_file_current := regs;
               test_state.program_counter_current := 0;
               test_state.reservation := Some 0x100;
               test_state.register_file_current_expected_queue := [];
               test_state.program_counter_expected_values_queue := [];
               test_state.memory_write_address_expected_queue := [];
               test_state.memory_write_data_expected_queue := [];
               test_state.cycle_counter := 0;
               test_state.instret_counter := 0 |} in
  exists out,
    instruction_executor.execute_sc 0xFFFF (Z.lnot 3) instruction_encode.enc_sc_w
      st ∅ 6 10 12 = Ok out /\
    test_state.reservation (instruction_executor.state out) = None.
Proof.
  intros regs st.
  destruct (execute_sc_probe_and_clear 0xFFFF (Z.lnot 3)
              instruction_encode.enc_sc_w st ∅ 6 10 12 _
              eq_refl eq_refl ltac:(lia) ltac:(lia) ltac:(lia) eq_refl)
    as (v1 & v2 & out & _ & _ & E & _ & _ & _ & _ & _ & R & _).
  exists out. split; [exact E | exact R].
Defined.

(** * Dyadic rationals *)

Section Dyadic.
Import dyadic.
Local Open Scope Q_scope.

Lemma pow2_pos (e : Z) : 0 < 2 ^ e.
Proof. apply Qpower_0_lt. reflexivity. Qed.

Lemma pow2_nonzero (e : Z) : ~ 2 ^ e == 0.
Proof. pose proof (pow2_pos e). lra. Qed.

Lemma pow2_add (a b : Z) : 2 ^ (a + b) == 2 ^ a * 2 ^ b.
Proof. apply Qpower_plus. discriminate. Qed.

Lemma pow2_inject (k : Z) : (0 <= k)%Z -> inject_Z (2 ^ k) == 2 ^ k.
Proof. intros H. rewrite Zpower_Qpower by exact H. reflexivity. Qed.

Lemma to_Q_shift (m e k : Z) :
  (0 <= k)%Z -> to_Q (m * 2 ^ k) e == to_Q m (e + k).
Proof.
  intros Hk. unfold to_Q.
  rewrite inject_Z_mult, pow2_inject, pow2_add by exact Hk. ring.
Qed.

Lemma to_Q_le (m n e : Z) : to_Q m e <= to_Q n e <-> (m <= n)%Z.
Proof.
  unfold to_Q. pose proof (pow2_pos e) as Hp. rewrite Zle_Qle. split; intros H.
  - apply Qmult_le_r in H; assumption.
  - apply Qmult_le_r; assumption.
Qed.

Lemma to_Q_lt (m n e : Z) : to_Q m e < to_Q n e <-> (m < n)%Z.
Proof.
  unfold to_Q. pose proof (pow2_pos e) as Hp. rewrite Zlt_Qlt. split; intros H.
  - apply Qmult_lt_r in H; assumption.
  - apply Qmult_lt_r; assumption.
Qed.

Lemma to_Q_eq (m n e : Z) : to_Q m e == to_Q n e <-> m = n.
Proof.
  split; [|intros ->; reflexivity]. intros H.
  apply Z.le_antisymm; apply (to_Q_le _ _ e); rewrite H; apply Qle_refl.
Qed.

Lemma to_Q_opp (m e : Z) : to_Q (- m) e == - to_Q m e.
Proof. unfold to_Q. rewrite inject_Z_opp. ring. Qed.

Lemma to_Q_integer (m e : Z) :
  (0 <= e)%Z -> to_Q m e == inject_Z (m * 2 ^ e).
Proof.
  intros He. unfold to_Q. rewrite inject_Z_mult, pow2_inject by exact He.
  reflexivity.
Qed.

Lemma to_Q_fraction (m k : Z) :
  (0 <= k)%Z -> to_Q m (- k) * inject_Z (2 ^ k) == inject_Z m.
Proof.
  intros Hk. unfold to_Q. rewrite pow2_inject by exact Hk.
  rewrite <- Qmult_assoc, <- pow2_add.
  replace (- k + k)%Z with 0%Z by lia. change (2 ^ 0) with 1. ring.
Qed.

End Dyadic.

(** * Rounding to the nearest integer, ties to even *)

Section Rounding.
Import dyadic py_float.

Lemma rne_div_nearest (m d : Z) :
  0 < d ->
  let n := rne_div m d in
  - d <= 2 * (m - n * d) <= d /\
  (Z.abs (2 * (m - n * d)) = d -> Z.even n = true).
Proof.
  intros Hd n. subst n. unfold rne_div.
  pose proof (Z.div_mod m d ltac:(lia)) as Hm.
  pose proof (Z.mod_pos_bound m d Hd) as Hr.
  set (q := m / d) in *. set (r := m mod d) in *.
  destruct (Z.ltb_spec (2 * r) d); [split; nia|].
  destruct (Z.ltb_spec d (2 * r)); [split; nia|].
  destruct (Z.even q) eqn:Eq; [split; [nia|auto]|].
  split; [nia|]. intros _. rewrite Z.even_add, Eq. reflexivity.
Qed.

Local Open Scope Q_scope.

Lemma nearest_even_fraction (m k : Z) :
  (0 <= k)%Z ->
  ieee754.nearest_even_integer (to_Q m (- k)) (rne_div m (2 ^ k)).
Proof.
  intros Hk.
  assert (Hd : (0 < 2 ^ k)%Z) by (apply Z.pow_pos_nonneg; lia).
  destruct (rne_div_nearest m (2 ^ k) Hd) as [Hb Ht].
  set (n := rne_div m (2 ^ k)) in *.
  pose proof (to_Q_fraction m k Hk) as Hq.
  set (q := to_Q m (- k)) in *. set (D := inject_Z (2 ^ k)) in *.
  assert (HD : 0 < D).
  { unfold D. change 0 with (inject_Z 0). rewrite <- Zlt_Qlt. exact Hd. }
  assert (Hy : (q - inject_Z n) * D == inject_Z (m - n * 2 ^ k)).
  { unfold Z.sub. rewrite inject_Z_plus, inject_Z_opp, inject_Z_mult.
    fold D. rewrite <- Hq. ring. }
  assert (Hlo : - D <= 2 * ((q - inject_Z n) * D)).
  { rewrite Hy. unfold D. rewrite <- inject_Z_opp.
    change 2 with (inject_Z 2). rewrite <- inject_Z_mult, <- Zle_Qle. lia. }
  assert (Hhi : 2 * ((q - inject_Z n) * D) <= D).
  { rewrite Hy. unfold D.
    change 2 with (inject_Z 2). rewrite <- inject_Z_mult, <- Zle_Qle. lia. }
  unfold ieee754.nearest_even_integer.
  set (x := q - inject_Z n) in *.
  assert (Hx : - (1 # 2) <= x <= 1 # 2) by (split; nra).
  split.
  - apply Qabs_Qle_condition. exact Hx.
  - intros Habs. apply Ht.
    assert (Hc : x == 1 # 2 \/ x == - (1 # 2)).
    { destruct (Qlt_le_dec x 0) as [Hneg|Hpos].
      - right. rewrite Qabs_neg in Habs by lra. lra.
      - left. rewrite Qabs_pos in Habs by lra. lra. }
    assert (Hz : 2 * (x * D) == D \/ 2 * (x * D) == - D).
    { destruct Hc as [-> | ->]; [left|right]; ring. }
    rewrite Hy in Hz. unfold D in Hz.
    rewrite <- inject_Z_opp in Hz. change 2 with (inject_Z 2) in Hz.
    rewrite <- inject_Z_mult in Hz.
    destruct Hz as [Hz|Hz]; apply -> inject_Z_injective in Hz; lia.
Qed.

Lemma nearest_even_exact (n : Z) :
  ieee754.nearest_even_integer (inject_Z n) n.
Proof.
  assert (E : inject_Z n - inject_Z n == 0) by ring.
  split; rewrite E; discriminate.
Qed.

Lemma nearest_even_opp (q : Q) (n : Z) :
  ieee754.nearest_even_integer q n ->
  ieee754.nearest_even_integer (- q) (- n).
Proof.
  intros [H1 H2].
  assert (E : Qabs (- q - inject_Z (- n)) == Qabs (q - inject_Z n)).
  { rewrite inject_Z_opp.
    assert (E : - q - - inject_Z n == - (q - inject_Z n)) by ring.
    rewrite E. apply Qabs_opp. }
  split.
  - rewrite E. exact H1.
  - rewrite E. intros H. rewrite Z.even_opp. apply H2. exact H.
Qed.

Lemma nearest_even_proper (q q' : Q) (n : Z) :
  q == q' -> ieee754.nearest_even_integer q n ->
  ieee754.nearest_even_integer q' n.
Proof.
  intros E [H1 H2]. split.
  - rewrite <- E. exact H1.
  - rewrite <- E. exact H2.
Qed.

(** The value of a finite host float. *)
Lemma round_nearest_even (neg : bool) (m e : Z) :
  ieee754.nearest_even_integer
    (to_Q (if neg then (- m)%Z else m) e) (py_float.round neg m e).
Proof.
  assert (H : ieee754.nearest_even_integer (to_Q m e)
                (if (0 <=? e)%Z then (m * 2 ^ e)%Z
                 else rne_div m (2 ^ (- e)))).
  { destruct (Z.leb_spec 0 e).
    - eapply nearest_even_proper; [|apply nearest_even_exact].
      symmetry. apply to_Q_integer. lia.
    - replace e with (- - e)%Z at 1 by lia.
      apply nearest_even_fraction. lia. }
  unfold py_float.round. destruct neg.
  - eapply nearest_even_proper; [|apply nearest_even_opp; exact H].
    symmetry. apply to_Q_opp.
  - exact H.
Qed.

Lemma to_Q_compare (a b e : Z) : (to_Q a e ?= to_Q b e) = (a ?= b)%Z.
Proof.
  destruct (Z.compare_spec a b) as [->|H|H].
  - apply Qeq_alt. reflexivity.
  - apply Qlt_alt. apply to_Q_lt. exact H.
  - apply Qgt_alt. apply to_Q_lt. exact H.
Qed.

Lemma compare_finite (n1 n2 : bool) (m1 e1 m2 e2 : Z) :
  py_float.compare (PyFin n1 m1 e1) (PyFin n2 m2 e2)
  = Some (to_Q (if n1 then (- m1)%Z else m1) e1
          ?= to_Q (if n2 then (- m2)%Z else m2) e2).
Proof.
  unfold py_float.compare, scaled. f_equal.
  set (e := Z.min e1 e2).
  rewrite <- (to_Q_compare _ _ e).
  rewrite !to_Q_shift by lia.
  replace (e + (e1 - e))%Z with e1 by lia.
  replace (e + (e2 - e))%Z with e2 by lia. reflexivity.
Qed.

End Rounding.

(** * FCVT.W.S *)

Section Fcvt.
Import dyadic py_float.
Local Open Scope Q_scope.

Lemma geb_two_pow_31 (neg : bool) (m e : Z) :
  geb (PyFin neg m e) two_pow_31 = true <->
  inject_Z (2 ^ 31) <= to_Q (if neg then (- m)%Z else m) e.
Proof.
  unfold geb, two_pow_31. rewrite compare_finite.
  assert (E : to_Q 1 31 == inject_Z (2 ^ 31)) by reflexivity.
  rewrite E. set (v := to_Q _ e).
  rewrite Qle_alt, <- (Qcompare_antisym v (inject_Z (2 ^ 31))).
  destruct (v ?= inject_Z (2 ^ 31)); simpl; split; congruence.
Qed.

Lemma ltb_minus_two_pow_31 (neg : bool) (m e : Z) :
  ltb (PyFin neg m e) minus_two_pow_31 = true <->
  to_Q (if neg then (- m)%Z else m) e < inject_Z (- 2 ^ 31).
Proof.
  unfold ltb, minus_two_pow_31. rewrite compare_finite.
  assert (E : to_Q (- (1))%Z 31 == inject_Z (- 2 ^ 31)) by reflexivity.
  rewrite E. set (v := to_Q _ e).
  rewrite Qlt_alt.
  destruct (v ?= inject_Z (- 2 ^ 31)); simpl; split; congruence.
Qed.

Lemma rne_div_small (m k : Z) :
  (0 <= m < 2 ^ 24)%Z -> (1 <= k)%Z -> (0 <= rne_div m (2 ^ k) <= 2 ^ 23)%Z.
Proof.
  intros Hm Hk. unfold rne_div.
  assert (Hd : (2 <= 2 ^ k)%Z).
  { change 2%Z with (2 ^ 1)%Z at 1. apply Z.pow_le_mono_r; lia. }
  assert (Hq : (0 <= m / 2 ^ k <= m / 2)%Z).
  { split; [apply Z.div_pos; lia|]. apply Z.div_le_compat_l; lia. }
  assert (Hh : (m / 2 < 2 ^ 23)%Z) by (apply Z.div_lt_upper_bound; lia).
  destruct (_ <? _)%Z; [lia|]. destruct (_ <? _)%Z; [lia|].
  destruct (Z.even _); lia.
Qed.

Lemma round_in_range (neg : bool) (m e : Z) :
  (0 <= m < 2 ^ 24)%Z ->
  inject_Z (- 2 ^ 31) <= to_Q (if neg then (- m)%Z else m) e ->
  to_Q (if neg then (- m)%Z else m) e < inject_Z (2 ^ 31) ->
  (- 2 ^ 31 <= py_float.round neg m e <= 2 ^ 31 - 1)%Z.
Proof.
  intros Hm Hlo Hhi. unfold py_float.round.
  destruct (Z.leb_spec 0 e) as [He|He].
  - rewrite to_Q_integer in Hlo, Hhi by exact He.
    rewrite <- Zle_Qle in Hlo. rewrite <- Zlt_Qlt in Hhi.
    destruct neg; lia.
  - pose proof (rne_div_small m (- e) Hm ltac:(lia)).
    change (2 ^ 23)%Z with 8388608%Z in *.
    change (2 ^ 31)%Z with 2147483648%Z.
    destruct neg; lia.
Qed.

Lemma significand_bound (bits : Z) :
  (0 <= ieee754.significand bits < 2 ^ 24)%Z.
Proof.
  unfold ieee754.significand.
  pose proof (field_bounds bits) as (_ & _ & Hf).
  change (2 ^ 23)%Z with 8388608%Z in *. change (2 ^ 24)%Z with 16777216%Z.
  destruct (_ =? _)%Z; lia.
Qed.

End Fcvt.

(** C10: [fcvt_w_s] returns a result for every input pattern and
    saturates: a NaN gives 0x7FFFFFFF, so do +infinity and every finite
    value of at least 2^31; -infinity and every finite value below -2^31
    give 0x80000000; any other finite input is rounded to the nearest
    integer, ties to even, and that integer is returned masked to 32
    bits. *)
Theorem fcvt_w_s_saturating (rs1_bits : Z) :
  (exists r : Z, fp_model.fcvt_w_s rs1_bits = Ok r /\ 0 <= r < 2 ^ 32) /\
  (ieee754.is_nan_pattern rs1_bits ->
     fp_model.fcvt_w_s rs1_bits = Ok 0x7FFFFFFF) /\
  (ieee754.is_infinite_pattern rs1_bits /\ ieee754.sign_field rs1_bits = 0 ->
     fp_model.fcvt_w_s rs1_bits = Ok 0x7FFFFFFF) /\
  (ieee754.is_infinite_pattern rs1_bits /\ ieee754.sign_field rs1_bits = 1 ->
     fp_model.fcvt_w_s rs1_bits = Ok 0x80000000) /\
  (ieee754.is_finite_pattern rs1_bits /\
   (inject_Z (2 ^ 31) <= ieee754.value rs1_bits)%Q ->
     fp_model.fcvt_w_s rs1_bits = Ok 0x7FFFFFFF) /\
  (ieee754.is_finite_pattern rs1_bits /\
   (ieee754.value rs1_bits < inject_Z (- 2 ^ 31))%Q ->
     fp_model.fcvt_w_s rs1_bits = Ok 0x80000000) /\
  (ieee754.is_finite_pattern rs1_bits /\
   (inject_Z (- 2 ^ 31) <= ieee754.value rs1_bits)%Q /\
   (ieee754.value rs1_bits < inject_Z (2 ^ 31))%Q ->
     exists n : Z,
       ieee754.nearest_even_integer (ieee754.value rs1_bits) n /\
       - 2 ^ 31 <= n < 2 ^ 31 /\
       fp_model.fcvt_w_s rs1_bits = Ok (Z.land n 0xFFFFFFFF) /\
       Z.land n 0xFFFFFFFF = n mod 2 ^ 32).
Proof.
  unfold ieee754.is_nan_pattern, ieee754.is_infinite_pattern,
    ieee754.is_finite_pattern.
  unfold fp_model.fcvt_w_s.
  rewrite is_nan_fields, is_inf_fields, is_negative_sign_field,
    bits_to_float_fields.
  pose proof (field_bounds rs1_bits) as (Hs & He & Hf).
  cbv zeta. unfold ieee754.value, ieee754.signed_significand.
  fold (dyadic.to_Q
          (if ieee754.sign_field rs1_bits =? 1
           then - ieee754.significand rs1_bits
           else ieee754.significand rs1_bits) (ieee754.exponent2 rs1_bits)).
  set (neg := ieee754.sign_field rs1_bits =? 1).
  set (m := ieee754.significand rs1_bits).
  set (e := ieee754.exponent2 rs1_bits).
  destruct (Z.eqb_spec (ieee754.exponent_field rs1_bits) 255) as [E|E].
  - (* NaN or infinity *)
    destruct (Z.eqb_spec (ieee754.fraction_field rs1_bits) 0) as [F|F];
      cbn [andb negb].
    + subst neg.
      destruct (Z.eqb_spec (ieee754.sign_field rs1_bits) 1) as [S|S]; cbn [negb];
        (split; [eexists; split; [reflexivity|lia]|]);
        repeat split; try reflexivity; intros; exfalso; lia.
    + (split; [eexists; split; [reflexivity|lia]|]);
        repeat split; try reflexivity; intros; exfalso; lia.
  - cbn [andb].
    pose proof (geb_two_pow_31 neg m e) as Hge.
    pose proof (ltb_minus_two_pow_31 neg m e) as Hlt.
    destruct (py_float.geb (py_float.PyFin neg m e) py_float.two_pow_31) eqn:G.
    { assert (Hv : (inject_Z (2 ^ 31) <= dyadic.to_Q (if neg then - m else m) e)%Q)
        by (apply Hge; reflexivity).
      split; [eexists; split; [reflexivity|lia]|].
      repeat split; try reflexivity; try (intros; exfalso; lia).
      - intros [_ H]. exfalso.
        assert ((inject_Z (- 2 ^ 31) < inject_Z (2 ^ 31))%Q) by reflexivity.
        lra.
      - intros (_ & _ & H). exfalso. lra. }
    destruct (py_float.ltb (py_float.PyFin neg m e) py_float.minus_two_pow_31) eqn:L.
    { assert (Hv : (dyadic.to_Q (if neg then - m else m) e < inject_Z (- 2 ^ 31))%Q)
        by (apply Hlt; reflexivity).
      split; [eexists; split; [reflexivity|lia]|].
      repeat split; try reflexivity; try (intros; exfalso; lia).
      - intros [_ H]. exfalso.
        assert ((inject_Z (- 2 ^ 31) < inject_Z (2 ^ 31))%Q) by reflexivity.
        lra.
      - intros (_ & H & _). exfalso. lra. }
    assert (Hhi : (dyadic.to_Q (if neg then - m else m) e < inject_Z (2 ^ 31))%Q).
    { apply Qnot_le_lt. intros H. apply Hge in H. congruence. }
    assert (Hlo : (inject_Z (- 2 ^ 31) <= dyadic.to_Q (if neg then - m else m) e)%Q).
    { apply Qnot_lt_le. intros H. apply Hlt in H. congruence. }
    pose proof (round_in_range neg m e (significand_bound rs1_bits) Hlo Hhi) as Hr.
    pose proof (round_nearest_even neg m e) as Hn.
    cbn [fp_model._round_to_nearest_even].
    set (n := py_float.round neg m e) in *.
    change (2 ^ 31) with 2147483648 in Hr.
    destruct (Z.ltb_spec 2147483647 n); [lia|].
    destruct (Z.ltb_spec n (-2147483648)); [lia|].
    assert (Hland : Z.land n 0xFFFFFFFF = n mod 2 ^ 32).
    { change 0xFFFFFFFF with (Z.ones 32). apply Z.land_ones. lia. }
    split.
    { eexists. split; [reflexivity|]. change MASK32 with 0xFFFFFFFF.
      rewrite Hland. apply Z.mod_pos_bound. lia. }
    repeat split; try (intros; exfalso; lia).
    + intros [_ Hx]. exfalso. lra.
    + intros [_ Hx]. exfalso. lra.
    + intros _. exists n. change MASK32 with 0xFFFFFFFF.
      split; [exact Hn|]. split; [lia|]. split; [reflexivity | exact Hland].
Qed.

(** * Dyadic numbers and the values of bit patterns *)

Section DyadicValues.
Import dyadic.
Local Open Scope Q_scope.

Lemma inject_Z_pos (n : Z) : (0 < n)%Z -> 0 < inject_Z n.
Proof. intros H. change 0 with (inject_Z 0). rewrite <- Zlt_Qlt. exact H. Qed.

Lemma inject_Z_nonneg (n : Z) : (0 <= n)%Z -> 0 <= inject_Z n.
Proof. intros H. change 0 with (inject_Z 0). rewrite <- Zle_Qle. exact H. Qed.

Lemma Qabs_to_Q (m i : Z) : Qabs (to_Q m i) == to_Q (Z.abs m) i.
Proof.
  unfold to_Q. pose proof (pow2_pos i) as Pi.
  destruct (Z.le_gt_cases 0 m) as [H|H].
  - rewrite Z.abs_eq by exact H.
    pose proof (inject_Z_nonneg m H). rewrite Qabs_pos by nra. reflexivity.
  - rewrite Z.abs_neq by lia. rewrite inject_Z_opp.
    pose proof (inject_Z_pos (- m) ltac:(lia)) as P.
    rewrite inject_Z_opp in P. rewrite Qabs_neg by nra. ring.
Qed.

Lemma to_Q_zero (i : Z) : to_Q 0 i == 0.
Proof. unfold to_Q. change (inject_Z 0) with 0. ring. Qed.

Lemma value_to_Q (bits : Z) :
  ieee754.value bits
  = to_Q (ieee754.signed_significand bits) (ieee754.exponent2 bits).
Proof. reflexivity. Qed.

End DyadicValues.

(** * Sign extension at any width *)

Section SignExtension.
Import riscv_utils.

Lemma sign_extend_split (val bits : Z) :
  1 <= bits ->
  sign_extend val bits
  = val mod 2 ^ (bits - 1) - 2 ^ (bits - 1) * Z.b2z (Z.testbit val (bits - 1)).
Proof.
  intros Hb. unfold sign_extend. cbv zeta.
  rewrite Z.shiftl_1_l.
  replace (2 ^ (bits - 1) - 1) with (Z.ones (bits - 1))
    by (rewrite Z.ones_equiv; lia).
  rewrite Z.land_ones by lia.
  rewrite land_pow2_testbit by lia. reflexivity.
Qed.

Lemma mod_pow2_split (val n : Z) :
  0 <= n ->
  val mod 2 ^ (n + 1) = val mod 2 ^ n + 2 ^ n * Z.b2z (Z.testbit val n).
Proof.
  intros Hn.
  assert (Hp : 0 < 2 ^ n) by (apply Z.pow_pos_nonneg; lia).
  rewrite Z.pow_add_r, Z.pow_1_r by lia.
  rewrite Z.rem_mul_r by lia.
  rewrite Z.testbit_spec' by lia. reflexivity.
Qed.

Lemma to_signed32_range (v : Z) : - 2 ^ 31 <= to_signed32 v < 2 ^ 31.
Proof.
  rewrite to_signed32_twos_complement. unfold branch_model.twos_complement32.
  pose proof (Z.mod_pos_bound v (2 ^ 32) ltac:(lia)) as H.
  cbv zeta. destruct (Z.ltb_spec (v mod 2 ^ 32) (2 ^ 31)); lia.
Qed.

Lemma to_signed32_mod (v : Z) : to_signed32 v mod 2 ^ 32 = v mod 2 ^ 32.
Proof.
  rewrite to_signed32_twos_complement. unfold branch_model.twos_complement32.
  cbv zeta. destruct (Z.ltb_spec (v mod 2 ^ 32) (2 ^ 31)).
  - apply Z.mod_mod. lia.
  - replace (v mod 2 ^ 32 - 2 ^ 32) with (v mod 2 ^ 32 + (-1) * 2 ^ 32) by lia.
    rewrite Z.mod_add by lia. apply Z.mod_mod. lia.
Qed.

Lemma to_signed32_shift (v k : Z) : to_signed32 (v + k * 2 ^ 32) = to_signed32 v.
Proof.
  rewrite !to_signed32_twos_complement. unfold branch_model.twos_complement32.
  rewrite Z.mod_add by lia. reflexivity.
Qed.

Lemma land_mask32_shift (v k : Z) :
  Z.land (v + k * 2 ^ 32) MASK32 = Z.land v MASK32.
Proof.
  rewrite !land_mask32_unsigned. unfold branch_model.unsigned32.
  apply Z.mod_add. lia.
Qed.

End SignExtension.

(** X1: for a width of at least one bit, [sign_extend val bits] is the
    one integer of the signed range of that width that agrees with [val]
    modulo [2^bits]; bits of [val] above the width are ignored. *)
Theorem sign_extend_signed_range (val bits : Z) (Hbits : 1 <= bits) :
  - 2 ^ (bits - 1) <= riscv_utils.sign_extend val bits < 2 ^ (bits - 1) /\
  riscv_utils.sign_extend val bits mod 2 ^ bits = val mod 2 ^ bits /\
  (forall r : Z, - 2 ^ (bits - 1) <= r < 2 ^ (bits - 1) ->
     r mod 2 ^ bits = val mod 2 ^ bits -> r = riscv_utils.sign_extend val bits).
Proof.
  assert (Hp : 0 < 2 ^ (bits - 1)) by (apply Z.pow_pos_nonneg; lia).
  assert (E2 : 2 ^ bits = 2 * 2 ^ (bits - 1)).
  { rewrite <- Z.pow_succ_r by lia. f_equal. lia. }
  pose proof (Z.mod_pos_bound val (2 ^ (bits - 1)) Hp) as Hlow.
  assert (R : - 2 ^ (bits - 1) <= riscv_utils.sign_extend val bits < 2 ^ (bits - 1)).
  { rewrite sign_extend_split by lia.
    destruct (Z.testbit val (bits - 1)); simpl Z.b2z; lia. }
  assert (M : riscv_utils.sign_extend val bits mod 2 ^ bits = val mod 2 ^ bits).
  { pose proof (mod_pow2_split val (bits - 1) ltac:(lia)) as S.
    replace (bits - 1 + 1) with bits in S by lia. rewrite S.
    rewrite sign_extend_split by lia.
    destruct (Z.testbit val (bits - 1)); simpl Z.b2z; symmetry.
    - apply Z.mod_unique with (q := -1); lia.
    - apply Z.mod_unique with (q := 0); lia. }
  split; [exact R|]. split; [exact M|].
  intros r Hr Hm. rewrite <- M in Hm.
  set (s := riscv_utils.sign_extend val bits) in *.
  pose proof (Z.div_mod r (2 ^ bits) ltac:(lia)) as Dr.
  pose proof (Z.div_mod s (2 ^ bits) ltac:(lia)) as Ds.
  rewrite Hm in Dr.
  assert (Q : r / 2 ^ bits = s / 2 ^ bits); [|rewrite Q in Dr; lia].
  assert (B : - 2 ^ bits < 2 ^ bits * (r / 2 ^ bits - s / 2 ^ bits) < 2 ^ bits)
    by lia.
  nia.
Qed.

Lemma sign_extend_signed_range_witness :
  riscv_utils.sign_extend 0x1FF 8 mod 2 ^ 8 = 0x1FF mod 2 ^ 8.
Proof.
  destruct (sign_extend_signed_range 0x1FF 8 ltac:(lia)) as (_ & H & _).
  exact H.
Defined.

(** X2: [to_signed32] and [to_unsigned32] are two readings of the same
    low 32 bits: each one is unchanged by the other applied first, their
    results lie in the signed and the unsigned 32-bit range, and each is
    the identity exactly on its own range. *)
Theorem signed_unsigned_conversions (v : Z) :
  riscv_utils.to_signed32 (riscv_utils.to_unsigned32 v)
    = riscv_utils.to_signed32 v /\
  riscv_utils.to_unsigned32 (riscv_utils.to_signed32 v)
    = riscv_utils.to_unsigned32 v /\
  - 2 ^ 31 <= riscv_utils.to_signed32 v < 2 ^ 31 /\
  0 <= riscv_utils.to_unsigned32 v < 2 ^ 32 /\
  (riscv_utils.to_signed32 v = v <-> - 2 ^ 31 <= v < 2 ^ 31) /\
  (riscv_utils.to_unsigned32 v = v <-> 0 <= v < 2 ^ 32).
Proof.
  unfold riscv_utils.to_unsigned32.
  pose proof (to_signed32_range v) as R.
  pose proof (to_signed32_mod v) as M.
  pose proof (Z.mod_pos_bound v (2 ^ 32) ltac:(lia)) as B.
  assert (U : Z.land v MASK32 = v mod 2 ^ 32) by apply land_mask32_unsigned.
  split; [|split; [|split; [|split; [|split]]]].
  - rewrite !to_signed32_twos_complement, U.
    unfold branch_model.twos_complement32.
    rewrite Z.mod_mod by lia. reflexivity.
  - rewrite !land_mask32_unsigned. exact M.
  - exact R.
  - rewrite U. exact B.
  - split.
    + intros E. rewrite <- E. exact R.
    + intros H. rewrite to_signed32_twos_complement.
      unfold branch_model.twos_complement32. cbv zeta.
      destruct (Z.ltb_spec (v mod 2 ^ 32) (2 ^ 31)) as [L|L].
      * destruct (Z.le_gt_cases 0 v).
        -- apply Z.mod_small. lia.
        -- exfalso. assert (v mod 2 ^ 32 = v + 2 ^ 32); [|lia].
           symmetry. apply Z.mod_unique with (q := -1); lia.
      * destruct (Z.le_gt_cases 0 v).
        -- exfalso. rewrite Z.mod_small in L by lia. lia.
        -- assert (v mod 2 ^ 32 = v + 2 ^ 32); [|lia].
           symmetry. apply Z.mod_unique with (q := -1); lia.
  - split.
    + intros E. rewrite <- E, U. exact B.
    + intros H. rewrite U. apply Z.mod_small. exact H.
Qed.

(** * Branch decisions: complementary pairs and operands beyond 32 bits *)

(** X3: each branch kind and its opposite ("beq"/"bne", "blt"/"bge",
    "bltu"/"bgeu") always give opposite answers.  The four ordered
    comparisons look only at the low 32 bits of their operands, but
    "beq" and "bne" compare the integers as given: two operands with the
    same low 32 bits that differ above them are not equal for "beq". *)
Theorem branch_pairs_and_high_bits (operand_a operand_b j k : Z) :
  (exists t : bool,
     branch_model.branch_taken_decision "beq" operand_a operand_b = Ok t /\
     branch_model.branch_taken_decision "bne" operand_a operand_b = Ok (negb t)) /\
  (exists t : bool,
     branch_model.branch_taken_decision "blt" operand_a operand_b = Ok t /\
     branch_model.branch_taken_decision "bge" operand_a operand_b = Ok (negb t)) /\
  (exists t : bool,
     branch_model.branch_taken_decision "bltu" operand_a operand_b = Ok t /\
     branch_model.branch_taken_decision "bgeu" operand_a operand_b = Ok (negb t)) /\
  (forall operation : string,
     In operation ["blt"; "bge"; "bltu"; "bgeu"]%string ->
     branch_model.branch_taken_decision operation
       (operand_a + j * 2 ^ 32) (operand_b + k * 2 ^ 32)
     = branch_model.branch_taken_decision operation operand_a operand_b) /\
  (k <> 0 ->
     branch_model.branch_taken_decision "beq" operand_a (operand_a + k * 2 ^ 32)
       = Ok false /\
     branch_model.branch_taken_decision "bne" operand_a (operand_a + k * 2 ^ 32)
       = Ok true /\
     branch_model.branch_taken_decision "bgeu" operand_a (operand_a + k * 2 ^ 32)
       = Ok true /\
     branch_model.branch_taken_decision "bge" operand_a (operand_a + k * 2 ^ 32)
       = Ok true).
Proof.
  split; [|split; [|split; [|split]]].
  - eexists. split; reflexivity.
  - eexists. split; [reflexivity|].
    unfold branch_model.branch_taken_decision.
    cbn [String.eqb Ascii.eqb Bool.eqb]. cbv iota. f_equal.
    rewrite Z.geb_leb, Z.ltb_antisym, negb_involutive. reflexivity.
  - eexists. split; [reflexivity|].
    unfold branch_model.branch_taken_decision.
    cbn [String.eqb Ascii.eqb Bool.eqb]. cbv iota. f_equal.
    rewrite Z.geb_leb, Z.ltb_antisym, negb_involutive. reflexivity.
  - intros operation Hin. simpl in Hin.
    destruct Hin as [<- | [<- | [<- | [<- | []]]]];
      unfold branch_model.branch_taken_decision;
      cbn [String.eqb Ascii.eqb Bool.eqb]; cbv iota;
      rewrite ?to_signed32_shift, ?land_mask32_shift; reflexivity.
  - intros Hk.
    unfold branch_model.branch_taken_decision.
    cbn [String.eqb Ascii.eqb Bool.eqb]. cbv iota.
    rewrite (to_signed32_shift operand_a k), (land_mask32_shift operand_a k).
    rewrite !Z.geb_leb, !Z.leb_refl.
    assert (E : (operand_a =? operand_a + k * 2 ^ 32) = false)
      by (apply Z.eqb_neq; lia).
    rewrite E. repeat split; reflexivity.
Qed.

Lemma branch_pairs_and_high_bits_witness :
  branch_model.branch_taken_decision "beq" 5 (5 + 1 * 2 ^ 32) = Ok false.
Proof.
  destruct (branch_pairs_and_high_bits 5 5 0 1) as (_ & _ & _ & _ & H).
  destruct (H ltac:(lia)) as (E & _). exact E.
Defined.

(** * Words and bytes of the memory model *)

Section WordSums.
Import memory_model.

Variables MEMORY_ADDRESS_MASK MEMORY_WORD_ALIGN_MASK : Z.

Local Abbreviation read_byte := (read_byte MEMORY_ADDRESS_MASK).
Local Abbreviation read_word := (read_word MEMORY_ADDRESS_MASK MEMORY_WORD_ALIGN_MASK).

(** *** Words as sums of bytes *)

Lemma lor_shift_add (lo hi n : Z) :
  0 <= n -> 0 <= lo < 2 ^ n -> Z.lor lo (Z.shiftl hi n) = lo + hi * 2 ^ n.
Proof.
  intros Hn Hlo.
  assert (L : Z.land lo (Z.shiftl hi n) = 0).
  { apply Z.bits_inj'. intros i Hi. rewrite Z.land_spec, Z.bits_0.
    destruct (Z.lt_ge_cases i n) as [C|C].
    - rewrite Z.shiftl_spec_low by lia. apply andb_false_r.
    - rewrite <- (Z.mod_small lo (2 ^ n)) by lia.
      rewrite Z.mod_pow2_bits_high by lia. reflexivity. }
  rewrite <- Z.lxor_lor by exact L.
  rewrite Z.shiftl_mul_pow2 by lia.
  rewrite <- (Z.shiftl_mul_pow2 hi n) by lia.
  symmetry. apply Z.add_nocarry_lxor. exact L.
Qed.

Lemma word_sum (b0 b1 b2 b3 : Z) :
  0 <= b0 <= 255 -> 0 <= b1 <= 255 -> 0 <= b2 <= 255 -> 0 <= b3 <= 255 ->
  Z.lor (Z.lor (Z.lor b0 (Z.shiftl b1 8)) (Z.shiftl b2 16)) (Z.shiftl b3 24)
  = b0 + b1 * 2 ^ 8 + b2 * 2 ^ 16 + b3 * 2 ^ 24.
Proof.
  intros H0 H1 H2 H3.
  rewrite (lor_shift_add b0 b1 8) by lia.
  rewrite (lor_shift_add _ b2 16) by lia.
  rewrite (lor_shift_add _ b3 24) by lia.
  reflexivity.
Qed.

Lemma read_byte_range (ram : gmap Z Z) (a : Z) :
  ram_invariant MEMORY_ADDRESS_MASK ram -> 0 <= read_byte ram a <= 255.
Proof.
  intros Hinv. unfold memory_model.read_byte.
  destruct (ram !! Z.land a MEMORY_ADDRESS_MASK) as [x|] eqn:E; simpl; [|lia].
  destruct (Hinv _ _ E) as [_ Hv]. exact Hv.
Qed.

Lemma read_word_sum (ram : gmap Z Z) (a : Z) :
  ram_invariant MEMORY_ADDRESS_MASK ram ->
  read_word ram a
  = read_byte ram (Z.land a MEMORY_WORD_ALIGN_MASK)
    + read_byte ram (Z.land a MEMORY_WORD_ALIGN_MASK + 1) * 2 ^ 8
    + read_byte ram (Z.land a MEMORY_WORD_ALIGN_MASK + 2) * 2 ^ 16
    + read_byte ram (Z.land a MEMORY_WORD_ALIGN_MASK + 3) * 2 ^ 24.
Proof.
  intros Hinv. unfold memory_model.read_word. cbv zeta.
  apply word_sum; apply read_byte_range; exact Hinv.
Qed.

Lemma read_word_range (ram : gmap Z Z) (a : Z) :
  ram_invariant MEMORY_ADDRESS_MASK ram -> 0 <= read_word ram a < 2 ^ 32.
Proof.
  intros Hinv. rewrite read_word_sum by exact Hinv.
  pose proof (read_byte_range ram (Z.land a MEMORY_WORD_ALIGN_MASK) Hinv).
  pose proof (read_byte_range ram (Z.land a MEMORY_WORD_ALIGN_MASK + 1) Hinv).
  pose proof (read_byte_range ram (Z.land a MEMORY_WORD_ALIGN_MASK + 2) Hinv).
  pose proof (read_byte_range ram (Z.land a MEMORY_WORD_ALIGN_MASK + 3) Hinv).
  lia.
Qed.

End WordSums.

Section WordAccess.
Import memory_model.

Variables MEMORY_ADDRESS_MASK MEMORY_WORD_ALIGN_MASK k : Z.
Hypothesis Hk : 2 <= k.
Hypothesis Hmask : MEMORY_ADDRESS_MASK = 2 ^ k - 1.
Hypothesis Halign : MEMORY_WORD_ALIGN_MASK = Z.lnot 3 \/
                    MEMORY_WORD_ALIGN_MASK = 0xFFFFFFFC.

Local Abbreviation read_byte := (read_byte MEMORY_ADDRESS_MASK).
Local Abbreviation write_byte := (write_byte MEMORY_ADDRESS_MASK).
Local Abbreviation read_word := (read_word MEMORY_ADDRESS_MASK MEMORY_WORD_ALIGN_MASK).
Local Abbreviation write_word := (write_word MEMORY_ADDRESS_MASK MEMORY_WORD_ALIGN_MASK).
(** The key of the first byte of the word an address falls in. *)
Local Abbreviation slot a :=
  (Z.land (Z.land a MEMORY_WORD_ALIGN_MASK) MEMORY_ADDRESS_MASK).

Lemma slot_offset (a i : Z) :
  0 <= i < 4 ->
  Z.land (Z.land a MEMORY_WORD_ALIGN_MASK + i) MEMORY_ADDRESS_MASK = slot a + i.
Proof.
  intros Hi.
  destruct (aligned_address_mod4 MEMORY_WORD_ALIGN_MASK a Halign) as (Hmod & _).
  apply (masked_offset MEMORY_ADDRESS_MASK k _ i Hk Hmask Hmod Hi).
Qed.

Lemma slot_multiple (a : Z) : exists q : Z, slot a = 4 * q.
Proof.
  destruct (aligned_address_mod4 MEMORY_WORD_ALIGN_MASK a Halign) as (Hmod & _).
  destruct (masked_offset MEMORY_ADDRESS_MASK k _ 0 Hk Hmask Hmod ltac:(lia))
    as [_ H].
  apply Z.mod_divide in H; [|lia]. destruct H as [q H].
  exists q. lia.
Qed.

Lemma slot_range (a : Z) : 0 <= slot a < 2 ^ k.
Proof.
  rewrite Hmask. change (2 ^ k - 1) with (Z.pred (2 ^ k)).
  rewrite <- Z.ones_equiv, Z.land_ones by lia.
  apply Z.mod_pos_bound. apply Z.pow_pos_nonneg; lia.
Qed.

Lemma slot_of_multiple (i : Z) :
  0 <= 4 * i < 2 ^ k -> k <= 32 -> slot (4 * i) = 4 * i.
Proof.
  intros Hi Hk32.
  assert (P : 2 ^ k <= 2 ^ 32) by (apply Z.pow_le_mono_r; lia).
  destruct (aligned_address_mod4 MEMORY_WORD_ALIGN_MASK (4 * i) Halign)
    as (_ & _ & Hdown).
  rewrite Hdown by lia.
  replace (4 * i / 4) with i by (rewrite Z.mul_comm, Z.div_mul; lia).
  rewrite Hmask. change (2 ^ k - 1) with (Z.pred (2 ^ k)).
  rewrite <- Z.ones_equiv, Z.land_ones by lia.
  apply Z.mod_small. lia.
Qed.

(** A byte of a word after [write_word]: a byte of the value when the two
    words share their slot, the old byte otherwise. *)
Lemma read_byte_write_word (ram : gmap Z Z) (a b v i : Z) :
  0 <= i < 4 ->
  read_byte (write_word ram a v) (Z.land b MEMORY_WORD_ALIGN_MASK + i)
  = if slot a =? slot b then Z.land (Z.shiftr v (8 * i)) 0xFF
    else read_byte ram (Z.land b MEMORY_WORD_ALIGN_MASK + i).
Proof.
  intros Hi.
  destruct (slot_multiple a) as [qa Qa]. destruct (slot_multiple b) as [qb Qb].
  pose proof (slot_offset a 1 ltac:(lia)) as A1.
  pose proof (slot_offset a 2 ltac:(lia)) as A2.
  pose proof (slot_offset a 3 ltac:(lia)) as A3.
  pose proof (slot_offset b i Hi) as Bi.
  unfold memory_model.write_word, memory_model.read_byte,
    memory_model.write_byte. cbv zeta.
  rewrite A1, A2, A3, Bi, !land_255_twice.
  destruct (Z.eqb_spec (slot a) (slot b)) as [E|N].
  - rewrite <- E.
    assert (Hc : i = 0 \/ i = 1 \/ i = 2 \/ i = 3) by lia.
    destruct Hc as [-> | [-> | [-> | ->]]].
    + rewrite Z.add_0_r. rewrite !lookup_insert_ne by lia.
      rewrite lookup_insert_eq. reflexivity.
    + rewrite !lookup_insert_ne by lia. rewrite lookup_insert_eq. reflexivity.
    + rewrite !lookup_insert_ne by lia. rewrite lookup_insert_eq. reflexivity.
    + rewrite lookup_insert_eq. reflexivity.
  - rewrite !lookup_insert_ne by lia. reflexivity.
Qed.

Lemma read_word_write_word_same (ram : gmap Z Z) (a b v : Z) :
  slot a = slot b -> read_word (write_word ram a v) b = Z.land v 0xFFFFFFFF.
Proof.
  intros E. unfold memory_model.read_word. cbv zeta.
  pose proof (read_byte_write_word ram a b v 0 ltac:(lia)) as B0.
  rewrite Z.add_0_r in B0.
  rewrite B0, !read_byte_write_word by lia.
  apply Z.eqb_eq in E. rewrite E. apply word_of_bytes.
Qed.

Lemma read_word_write_word_other (ram : gmap Z Z) (a b v : Z) :
  slot a <> slot b -> read_word (write_word ram a v) b = read_word ram b.
Proof.
  intros N. unfold memory_model.read_word. cbv zeta.
  pose proof (read_byte_write_word ram a b v 0 ltac:(lia)) as B0.
  rewrite Z.add_0_r in B0.
  rewrite B0, !read_byte_write_word by lia.
  apply Z.eqb_neq in N. rewrite N. reflexivity.
Qed.

(** A byte of a word after [write_byte]. *)
Lemma read_byte_write_byte (ram : gmap Z Z) (c x b i : Z) :
  0 <= i < 4 ->
  read_byte (write_byte ram c x) (Z.land b MEMORY_WORD_ALIGN_MASK + i)
  = if Z.land c MEMORY_ADDRESS_MASK =? slot b + i then Z.land x 0xFF
    else read_byte ram (Z.land b MEMORY_WORD_ALIGN_MASK + i).
Proof.
  intros Hi. pose proof (slot_offset b i Hi) as Bi.
  destruct (Z.eqb_spec (Z.land c MEMORY_ADDRESS_MASK) (slot b + i)) as [E|N].
  - apply read_write_byte_same. rewrite Bi. exact E.
  - apply read_write_byte_other. rewrite Bi. exact N.
Qed.

(** *** The initial image *)

Lemma init_from_read (dut_words : list Z) (j : Z) (ram : gmap Z Z) (i : Z) :
  k <= 32 -> 0 <= j -> 4 * (j + Z.of_nat (length dut_words)) <= 2 ^ k ->
  0 <= 4 * i < 2 ^ k ->
  read_word (init_from MEMORY_ADDRESS_MASK MEMORY_WORD_ALIGN_MASK j dut_words ram)
    (4 * i)
  = if (j <=? i) && (i <? j + Z.of_nat (length dut_words))
    then Z.land (nth (Z.to_nat (i - j)) dut_words 0) 0xFFFFFFFF
    else read_word ram (4 * i).
Proof.
  intros Hk32. revert j ram.
  induction dut_words as [|w rest IH]; intros j ram Hj Hfit Hi.
  - cbn [init_from length Z.of_nat]. rewrite Z.add_0_r.
    destruct (Z.leb_spec j i); destruct (Z.ltb_spec i j);
      cbn [andb]; try reflexivity; lia.
  - cbn [init_from length] in *. rewrite Nat2Z.inj_succ in *.
    rewrite IH by lia.
    destruct (Z.eq_dec i j) as [->|Nij].
    + replace ((j + 1 <=? j) && (j <? j + 1 + Z.of_nat (length rest)))
        with false by (symmetry; apply andb_false_iff; left; apply Z.leb_gt; lia).
      replace ((j <=? j) && (j <? j + Z.succ (Z.of_nat (length rest))))
        with true
        by (symmetry; apply andb_true_iff; split;
            [apply Z.leb_le | apply Z.ltb_lt]; lia).
      rewrite Z.sub_diag. simpl nth.
      rewrite (Z.mul_comm j 4). apply read_word_write_word_same. reflexivity.
    + rewrite (Z.mul_comm j 4).
      rewrite read_word_write_word_other
        by (rewrite !slot_of_multiple by lia; lia).
      destruct (Z.leb_spec (j + 1) i) as [L1|L1];
        destruct (Z.leb_spec j i) as [L2|L2]; try lia; simpl.
      * replace (i <? j + Z.succ (Z.of_nat (length rest)))
          with (i <? j + 1 + Z.of_nat (length rest)) by (f_equal; lia).
        destruct (i <? j + 1 + Z.of_nat (length rest)); [|reflexivity].
        replace (Z.to_nat (i - j)) with (S (Z.to_nat (i - (j + 1)))) by lia.
        reflexivity.
      * reflexivity.
Qed.

End WordAccess.

(** X4: reading a word after [write_word], for an address mask
    [2^k - 1]: when the two addresses fall in the same word of the
    memory (their aligned addresses agree under the address mask), the
    word read is the value written, masked to 32 bits; any other word is
    left as it was. *)
Theorem write_word_read_back_or_frame
    (MEMORY_ADDRESS_MASK MEMORY_WORD_ALIGN_MASK k : Z)
    (Hk : 2 <= k)
    (Hmask : MEMORY_ADDRESS_MASK = 2 ^ k - 1)
    (Halign : MEMORY_WORD_ALIGN_MASK = Z.lnot 3 \/
              MEMORY_WORD_ALIGN_MASK = 0xFFFFFFFC)
    (ram : gmap Z Z) (a b v : Z) :
  let slot x := Z.land (Z.land x MEMORY_WORD_ALIGN_MASK) MEMORY_ADDRESS_MASK in
  let ram' :=
    memory_model.write_word MEMORY_ADDRESS_MASK MEMORY_WORD_ALIGN_MASK ram a v in
  (slot a = slot b ->
     memory_model.read_word MEMORY_ADDRESS_MASK MEMORY_WORD_ALIGN_MASK ram' b
     = Z.land v 0xFFFFFFFF) /\
  (slot a <> slot b ->
     memory_model.read_word MEMORY_ADDRESS_MASK MEMORY_WORD_ALIGN_MASK ram' b
     = memory_model.read_word MEMORY_ADDRESS_MASK MEMORY_WORD_ALIGN_MASK ram b).
Proof.
  intros slot ram'. split.
  - apply (read_word_write_word_same _ _ k Hk Hmask Halign).
  - apply (read_word_write_word_other _ _ k Hk Hmask Halign).
Qed.

Lemma write_word_read_back_or_frame_witness :
  memory_model.read_word 0xFFFF (Z.lnot 3)
    (memory_model.write_word 0xFFFF (Z.lnot 3)
       (memory_model.write_word 0xFFFF (Z.lnot 3) ∅ 0x200 0x11223344)
       0x10102 0xDEADBEEF) 0x200
  = memory_model.read_word 0xFFFF (Z.lnot 3)
      (memory_model.write_word 0xFFFF (Z.lnot 3) ∅ 0x200 0x11223344) 0x200.
Proof.
  destruct (write_word_read_back_or_frame 0xFFFF (Z.lnot 3) 16
              ltac:(lia) ltac:(reflexivity) ltac:(left; reflexivity)
              (memory_model.write_word 0xFFFF (Z.lnot 3) ∅ 0x200 0x11223344)
              0x10102 0x200 0xDEADBEEF) as [_ H].
  apply H. vm_compute. discriminate.
Defined.

(** X5: a word read from any memory the model can reach (the initial
    image changed by byte and word writes) is a 32-bit value: the four
    bytes at the aligned address, each in 0..255, weighted by 1, 2^8,
    2^16 and 2^24. *)
Theorem read_word_is_32_bit
    (MEMORY_ADDRESS_MASK MEMORY_WORD_ALIGN_MASK : Z) (ram : gmap Z Z)
    (Hreach : memory_model.reachable MEMORY_ADDRESS_MASK MEMORY_WORD_ALIGN_MASK ram)
    (a : Z) :
  let byte i := memory_model.read_byte MEMORY_ADDRESS_MASK ram
                  (Z.land a MEMORY_WORD_ALIGN_MASK + i) in
  memory_model.read_word MEMORY_ADDRESS_MASK MEMORY_WORD_ALIGN_MASK ram a
    = byte 0 + byte 1 * 2 ^ 8 + byte 2 * 2 ^ 16 + byte 3 * 2 ^ 24 /\
  0 <= memory_model.read_word MEMORY_ADDRESS_MASK MEMORY_WORD_ALIGN_MASK ram a
    < 2 ^ 32.
Proof.
  intros byte. pose proof (reachable_invariant _ _ _ Hreach) as Hinv.
  split.
  - subst byte. cbv beta. rewrite Z.add_0_r. apply read_word_sum. exact Hinv.
  - apply read_word_range. exact Hinv.
Qed.

Lemma read_word_is_32_bit_witness :
  0 <= memory_model.read_word 0xFFFF (Z.lnot 3)
         (memory_model.write_byte 0xFFFF
            (memory_model.init 0xFFFF (Z.lnot 3) [0x12345678; 0x9ABCDEF0])
            0x5 0x1FF) 0x6
    < 2 ^ 32.
Proof.
  destruct (read_word_is_32_bit 0xFFFF (Z.lnot 3) _
              (memory_model.reach_write_byte _ _ _ 0x5 0x1FF
                 (memory_model.reach_init _ _ [0x12345678; 0x9ABCDEF0])) 0x6)
    as [_ H].
  exact H.
Defined.

(** X6: a byte store seen through a word load, for an address mask
    [2^k - 1] and a reachable memory: when the byte written is byte [i] of
    the word read afterwards, the word changes by the difference of the new
    and the old byte at weight [2^(8 i)], so only that byte of the word
    changes; a byte written outside the word leaves the word as it was. *)
Theorem write_byte_within_word
    (MEMORY_ADDRESS_MASK MEMORY_WORD_ALIGN_MASK k : Z)
    (Hk : 2 <= k)
    (Hmask : MEMORY_ADDRESS_MASK = 2 ^ k - 1)
    (Halign : MEMORY_WORD_ALIGN_MASK = Z.lnot 3 \/
              MEMORY_WORD_ALIGN_MASK = 0xFFFFFFFC)
    (ram : gmap Z Z)
    (Hreach : memory_model.reachable MEMORY_ADDRESS_MASK MEMORY_WORD_ALIGN_MASK ram)
    (c x b : Z) :
  let slot := Z.land (Z.land b MEMORY_WORD_ALIGN_MASK) MEMORY_ADDRESS_MASK in
  let key := Z.land c MEMORY_ADDRESS_MASK in
  let ram' := memory_model.write_byte MEMORY_ADDRESS_MASK ram c x in
  (forall i : Z, 0 <= i < 4 -> key = slot + i ->
     memory_model.read_word MEMORY_ADDRESS_MASK MEMORY_WORD_ALIGN_MASK ram' b
     = memory_model.read_word MEMORY_ADDRESS_MASK MEMORY_WORD_ALIGN_MASK ram b
       + (Z.land x 0xFF - memory_model.read_byte MEMORY_ADDRESS_MASK ram c)
         * 2 ^ (8 * i)) /\
  (~ (slot <= key < slot + 4) ->
     memory_model.read_word MEMORY_ADDRESS_MASK MEMORY_WORD_ALIGN_MASK ram' b
     = memory_model.read_word MEMORY_ADDRESS_MASK MEMORY_WORD_ALIGN_MASK ram b).
Proof.
  intros slot key ram'.
  pose proof (reachable_invariant _ _ _ Hreach) as Hinv.
  assert (Hinv' : memory_model.ram_invariant MEMORY_ADDRESS_MASK ram')
    by (apply write_byte_invariant; exact Hinv).
  pose proof (fun i => read_byte_write_byte _ _ k Hk Hmask Halign ram c x b i) as W.
  fold slot key ram' in W.
  pose proof (W 0 ltac:(lia)) as W0. rewrite !Z.add_0_r in W0.
  pose proof (W 1 ltac:(lia)) as W1.
  pose proof (W 2 ltac:(lia)) as W2.
  pose proof (W 3 ltac:(lia)) as W3.
  rewrite (read_word_sum _ MEMORY_WORD_ALIGN_MASK ram' b Hinv'),
    (read_word_sum _ MEMORY_WORD_ALIGN_MASK ram b Hinv).
  rewrite W0, W1, W2, W3.
  split.
  - intros i Hi E.
    assert (Old : memory_model.read_byte MEMORY_ADDRESS_MASK ram c
                  = memory_model.read_byte MEMORY_ADDRESS_MASK ram
                      (Z.land b MEMORY_WORD_ALIGN_MASK + i)).
    { unfold memory_model.read_byte.
      rewrite (slot_offset _ _ k Hk Hmask Halign b i Hi).
      fold slot key. rewrite E. reflexivity. }
    rewrite Old.
    assert (Hc : i = 0 \/ i = 1 \/ i = 2 \/ i = 3) by lia.
    destruct Hc as [-> | [-> | [-> | ->]]]; rewrite E;
      repeat match goal with
      | |- context [?u =? ?v] =>
          first [ replace (u =? v) with true by (symmetry; apply Z.eqb_eq; lia)
                | replace (u =? v) with false by (symmetry; apply Z.eqb_neq; lia) ]
      end; rewrite ?Z.add_0_r; change (8 * 0) with 0; change (8 * 1) with 8;
      change (8 * 2) with 16; change (8 * 3) with 24; lia.
  - intros Hout.
    repeat match goal with
    | |- context [?u =? ?v] =>
        replace (u =? v) with false by (symmetry; apply Z.eqb_neq; lia)
    end.
    reflexivity.
Qed.

Lemma write_byte_within_word_witness :
  memory_model.read_word 0xFFFF (Z.lnot 3)
    (memory_model.write_byte 0xFFFF
       (memory_model.init 0xFFFF (Z.lnot 3) [0x12345678; 0x9ABCDEF0]) 0x6 0x1FF)
    0x4
  = memory_model.read_word 0xFFFF (Z.lnot 3)
      (memory_model.init 0xFFFF (Z.lnot 3) [0x12345678; 0x9ABCDEF0]) 0x4
    + (Z.land 0x1FF 0xFF
       - memory_model.read_byte 0xFFFF
           (memory_model.init 0xFFFF (Z.lnot 3) [0x12345678; 0x9ABCDEF0]) 0x6)
      * 2 ^ (8 * 2).
Proof.
  destruct (write_byte_within_word 0xFFFF (Z.lnot 3) 16
              ltac:(lia) ltac:(reflexivity) ltac:(left; reflexivity) _
              (memory_model.reach_init _ _ [0x12345678; 0x9ABCDEF0])
              0x6 0x1FF 0x4) as [H _].
  apply (H 2); [lia | reflexivity].
Defined.

(** X7: the initial image.  When the words of the design under test fit
    in the memory (at most [2^k] bytes, [k <= 32]), the model built by
    [__init__] returns word [i] of the design, masked to 32 bits, at byte
    address [4 i], and 0 at every word address beyond the image. *)
Theorem init_reads_back
    (MEMORY_ADDRESS_MASK MEMORY_WORD_ALIGN_MASK k : Z)
    (Hk : 2 <= k <= 32)
    (Hmask : MEMORY_ADDRESS_MASK = 2 ^ k - 1)
    (Halign : MEMORY_WORD_ALIGN_MASK = Z.lnot 3 \/
              MEMORY_WORD_ALIGN_MASK = 0xFFFFFFFC)
    (dut_words : list Z)
    (Hfit : 4 * Z.of_nat (length dut_words) <= 2 ^ k) :
  let ram := memory_model.init MEMORY_ADDRESS_MASK MEMORY_WORD_ALIGN_MASK
               dut_words in
  (forall (i : nat) (w : Z), dut_words !! i = Some w ->
     memory_model.read_word MEMORY_ADDRESS_MASK MEMORY_WORD_ALIGN_MASK ram
       (4 * Z.of_nat i) = Z.land w 0xFFFFFFFF) /\
  (forall i : Z, Z.of_nat (length dut_words) <= i -> 4 * i < 2 ^ k ->
     memory_model.read_word MEMORY_ADDRESS_MASK MEMORY_WORD_ALIGN_MASK ram
       (4 * i) = 0).
Proof.
  intros ram. subst ram. unfold memory_model.init.
  split.
  - intros i w Hw.
    pose proof (lookup_lt_Some _ _ _ Hw) as Hlen.
    rewrite (init_from_read _ _ k ltac:(lia) Hmask Halign) by lia.
    replace ((0 <=? Z.of_nat i) && (Z.of_nat i <? 0 + Z.of_nat (length dut_words)))
      with true
      by (symmetry; apply andb_true_iff; split;
          [apply Z.leb_le | apply Z.ltb_lt]; lia).
    rewrite Z.sub_0_r, Nat2Z.id.
    rewrite (nth_lookup_Some _ _ 0 _ Hw). reflexivity.
  - intros i Hi Hk'.
    rewrite (init_from_read _ _ k ltac:(lia) Hmask Halign) by lia.
    replace ((0 <=? i) && (i <? 0 + Z.of_nat (length dut_words)))
      with false
      by (symmetry; apply andb_false_iff; right; apply Z.ltb_ge; lia).
    unfold memory_model.read_word, memory_model.read_byte. cbv zeta.
    rewrite !lookup_empty. reflexivity.
Qed.

Lemma init_reads_back_witness :
  memory_model.read_word 0xFFFF (Z.lnot 3)
    (memory_model.init 0xFFFF (Z.lnot 3) [0x12345678; 0x19ABCDEF0])
    (4 * Z.of_nat 1)
  = Z.land 0x19ABCDEF0 0xFFFFFFFF.
Proof.
  destruct (init_reads_back 0xFFFF (Z.lnot 3) 16
              ltac:(lia) ltac:(reflexivity) ltac:(left; reflexivity)
              [0x12345678; 0x19ABCDEF0] ltac:(simpl; lia)) as [H _].
  apply H. reflexivity.
Defined.

(** * The monitor over a whole run *)


(** * The layout of compressed instruction words *)

Section PackedFields.
Import compressed_encode.

Lemma lor_below (a b n : Z) :
  0 <= n -> 0 <= a < 2 ^ n -> 0 <= b < 2 ^ n -> 0 <= Z.lor a b < 2 ^ n.
Proof.
  intros Hn Ha Hb.
  assert (N : 0 <= Z.lor a b) by (apply Z.lor_nonneg; lia).
  split; [exact N|].
  destruct (Z.eq_dec (Z.lor a b) 0) as [E|E].
  - rewrite E. apply Z.pow_pos_nonneg; lia.
  - apply Z.log2_lt_pow2; [lia|].
    rewrite Z.log2_lor by lia.
    destruct (Z.eq_dec a 0) as [->|Na]; destruct (Z.eq_dec b 0) as [->|Nb].
    + exfalso. apply E. reflexivity.
    + rewrite Z.max_r by (apply Z.log2_nonneg). apply Z.log2_lt_pow2; lia.
    + rewrite Z.max_l by (apply Z.log2_nonneg). apply Z.log2_lt_pow2; lia.
    + apply Z.max_lub_lt; apply Z.log2_lt_pow2; lia.
Qed.

Lemma lor_mod4 (a b : Z) : Z.lor a b mod 4 = Z.lor (a mod 4) (b mod 4).
Proof.
  change 4 with (2 ^ 2). rewrite <- !Z.land_ones by lia.
  apply Z.land_lor_distr_l.
Qed.

Lemma lor_div (a b n : Z) :
  0 <= n -> Z.lor a b / 2 ^ n = Z.lor (a / 2 ^ n) (b / 2 ^ n).
Proof.
  intros Hn. rewrite <- !Z.shiftr_div_pow2 by lia. apply Z.shiftr_lor.
Qed.

Lemma masked_field (v m : Z) : 0 <= m -> 0 <= Z.land v m <= m.
Proof.
  intros Hm. split.
  - apply Z.land_nonneg. right. exact Hm.
  - assert (D : Z.land (Z.ldiff m v) (Z.land m v) = 0).
    { rewrite (Z.land_comm m v), Z.land_assoc, Z.land_ldiff. apply Z.land_0_l. }
    assert (S : Z.ldiff m v + Z.land m v = m).
    { rewrite Z.add_nocarry_lxor, Z.lxor_lor by exact D.
      apply Z.lor_ldiff_and. }
    assert (N : 0 <= Z.ldiff m v) by (apply Z.ldiff_nonneg; left; exact Hm).
    rewrite Z.land_comm. lia.
Qed.

(** What a list of fields puts into a halfword: every field stays below
    bit 16; bits 1:0 come from the fields at position 0 and bits 15:13
    from the fields at position 13, the other fields lie in between. *)
Lemma fold_fields_layout (fields : list (Z * Z * Z)) (acc : Z) :
  0 <= acc < 2 ^ 16 ->
  forallb (fun '(v, p, m) =>
             (0 <=? m)
             && (((p =? 0) && (m <=? 3)) || ((p =? 13) && (m <=? 7))
                 || ((2 <=? p) && (m * 2 ^ p <? 2 ^ 13)))) fields = true ->
  let word :=
    fold_left (fun result '(value, position, mask) =>
                 Z.lor result (Z.shiftl (Z.land value mask) position))
              fields acc in
  0 <= word < 2 ^ 16 /\
  word mod 4
  = fold_left (fun low '(v, p, m) =>
                 if p =? 0 then Z.lor low (Z.land v m) else low)
              fields (acc mod 4) /\
  word / 2 ^ 13
  = fold_left (fun high '(v, p, m) =>
                 if p =? 13 then Z.lor high (Z.land v m) else high)
              fields (acc / 2 ^ 13).
Proof.
  revert acc. induction fields as [|[[v p] m] rest IH]; intros acc Hacc Hok.
  - cbn. repeat split; lia.
  - cbn [forallb] in Hok. apply andb_true_iff in Hok. destruct Hok as [Hf Hrest].
    apply andb_true_iff in Hf. destruct Hf as [Hm Hkind].
    apply Z.leb_le in Hm.
    pose proof (masked_field v m Hm) as Hv.
    cbn [fold_left]. cbv zeta.
    set (c := Z.shiftl (Z.land v m) p).
    assert (Hc : 0 <= c < 2 ^ 16 /\
                 c mod 4 = (if p =? 0 then Z.land v m else 0) /\
                 c / 2 ^ 13 = (if p =? 13 then Z.land v m else 0)).
    { subst c. apply orb_true_iff in Hkind. destruct Hkind as [Hkind|Hbody].
      - apply orb_true_iff in Hkind. destruct Hkind as [Hq|Hf3].
        + apply andb_true_iff in Hq. destruct Hq as [Hp H3].
          apply Z.eqb_eq in Hp. apply Z.leb_le in H3. subst p.
          rewrite Z.shiftl_0_r. cbn [Z.eqb].
          repeat split; try lia.
          * apply Z.mod_small. lia.
          * apply Z.div_small. lia.
        + apply andb_true_iff in Hf3. destruct Hf3 as [Hp H7].
          apply Z.eqb_eq in Hp. apply Z.leb_le in H7. subst p.
          rewrite Z.shiftl_mul_pow2 by lia. cbn [Z.eqb Pos.eqb].
          repeat split; try lia.
          * replace (Z.land v m * 2 ^ 13) with (Z.land v m * 2 ^ 11 * 4) by lia.
            apply Z.mod_mul. lia.
          * apply Z.div_mul. lia.
      - apply andb_true_iff in Hbody. destruct Hbody as [Hp Hlt].
        apply Z.leb_le in Hp. apply Z.ltb_lt in Hlt.
        rewrite Z.shiftl_mul_pow2 by lia.
        assert (P : 0 < 2 ^ p) by (apply Z.pow_pos_nonneg; lia).
        assert (B : 0 <= Z.land v m * 2 ^ p < 2 ^ 13) by nia.
        replace (p =? 0) with false by (symmetry; apply Z.eqb_neq; lia).
        assert (D : Z.land v m * 2 ^ p / 2 ^ 13 = 0) by (apply Z.div_small; lia).
        assert (M : Z.land v m * 2 ^ p mod 4 = 0).
        { replace (2 ^ p) with (2 ^ (p - 2) * 4)
            by (change 4 with (2 ^ 2); rewrite <- Z.pow_add_r by lia;
                f_equal; lia).
          rewrite Z.mul_assoc. apply Z.mod_mul. lia. }
        split; [lia|]. split; [exact M|].
        destruct (Z.eqb_spec p 13) as [->|Np]; [|exact D].
        rewrite D. change (2 ^ 13) with 8192 in B. lia. }
    destruct Hc as (Hc1 & Hc2 & Hc3).
    destruct (IH (Z.lor acc c) (lor_below acc c 16 ltac:(lia) Hacc Hc1) Hrest)
      as (I1 & I2 & I3).
    split; [exact I1|]. split.
    + rewrite I2, lor_mod4, Hc2. f_equal.
      destruct (p =? 0); [reflexivity|]. apply Z.lor_0_r.
    + rewrite I3, lor_div, Hc3 by lia. f_equal.
      destruct (p =? 13); [reflexivity|]. apply Z.lor_0_r.
Qed.

Lemma pack_bits_layout (fields : list (Z * Z * Z)) :
  forallb (fun '(v, p, m) =>
             (0 <=? m)
             && (((p =? 0) && (m <=? 3)) || ((p =? 13) && (m <=? 7))
                 || ((2 <=? p) && (m * 2 ^ p <? 2 ^ 13)))) fields = true ->
  0 <= _pack_bits fields < 2 ^ 16 /\
  _pack_bits fields mod 4
  = fold_left (fun low '(v, p, m) =>
                 if p =? 0 then Z.lor low (Z.land v m) else low) fields 0 /\
  _pack_bits fields / 2 ^ 13
  = fold_left (fun high '(v, p, m) =>
                 if p =? 13 then Z.lor high (Z.land v m) else high) fields 0.
Proof.
  intros Hok. apply (fold_fields_layout fields 0 ltac:(lia) Hok).
Qed.

End PackedFields.

(** X9: every compressed encoder that returns a word returns a 16-bit
    word of its own major group: bits 1:0 hold the quadrant of the
    instruction (0, 1 or 2, never the 3 that marks a 32-bit instruction)
    and bits 15:13 its funct3; no operand can spill into those bits or
    beyond bit 15. *)
Theorem compressed_word_layout (a b c w quadrant funct3 : Z) :
  In (Ok w, quadrant, funct3)
    [ (compressed_encode.enc_c_addi4spn a b, 0, 0);
      (compressed_encode.enc_c_lw a b c, 0, 2);
      (compressed_encode.enc_c_sw a b c, 0, 6);
      (compressed_encode.enc_c_nop, 1, 0);
      (compressed_encode.enc_c_addi a b, 1, 0);
      (compressed_encode.enc_c_jal a, 1, 1);
      (compressed_encode.enc_c_li a b, 1, 2);
      (compressed_encode.enc_c_lui a b, 1, 3);
      (compressed_encode.enc_c_addi16sp a, 1, 3);
      (compressed_encode.enc_c_srli a b, 1, 4);
      (compressed_encode.enc_c_srai a b, 1, 4);
      (compressed_encode.enc_c_andi a b, 1, 4);
      (compressed_encode.enc_c_sub a b, 1, 4);
      (compressed_encode.enc_c_xor a b, 1, 4);
      (compressed_encode.enc_c_or a b, 1, 4);
      (compressed_encode.enc_c_and a b, 1, 4);
      (compressed_encode.enc_c_j a, 1, 5);
      (compressed_encode.enc_c_beqz a b, 1, 6);
      (compressed_encode.enc_c_bnez a b, 1, 7);
      (compressed_encode.enc_c_slli a b, 2, 0);
      (compressed_encode.enc_c_lwsp a b, 2, 2);
      (compressed_encode.enc_c_jr a, 2, 4);
      (compressed_encode.enc_c_mv a b, 2, 4);
      (compressed_encode.enc_c_ebreak, 2, 4);
      (compressed_encode.enc_c_jalr a, 2, 4);
      (compressed_encode.enc_c_add a b, 2, 4);
      (compressed_encode.enc_c_swsp a b, 2, 6) ] ->
  0 <= w < 2 ^ 16 /\ w mod 4 = quadrant /\ w / 2 ^ 13 = funct3.
Proof.
  intros Hin. cbn [In] in Hin.
  repeat (destruct Hin as [Hin|Hin]); try contradiction;
    injection Hin as Hw <- <-;
    unfold compressed_encode.enc_c_addi4spn, compressed_encode.enc_c_lw,
      compressed_encode.enc_c_sw, compressed_encode.enc_c_nop,
      compressed_encode.enc_c_addi, compressed_encode.enc_c_jal,
      compressed_encode.enc_c_li, compressed_encode.enc_c_lui,
      compressed_encode.enc_c_addi16sp, compressed_encode.enc_c_srli,
      compressed_encode.enc_c_srai, compressed_encode.enc_c_andi,
      compressed_encode.enc_c_sub, compressed_encode.enc_c_xor,
      compressed_encode.enc_c_or, compressed_encode.enc_c_and,
      compressed_encode.enc_ca, compressed_encode.enc_c_j,
      compressed_encode.enc_c_beqz, compressed_encode.enc_c_bnez,
      compressed_encode.enc_cb, compressed_encode.enc_c_slli,
      compressed_encode.enc_c_lwsp, compressed_encode.enc_c_jr,
      compressed_encode.enc_c_mv, compressed_encode.enc_c_ebreak,
      compressed_encode.enc_c_jalr, compressed_encode.enc_c_add,
      compressed_encode.enc_c_swsp, compressed_encode.pack_ci,
      compressed_encode.pack_cj, compressed_encode.pack_cr,
      compressed_encode.compress_reg, compressed_encode.py_assert, bind in Hw;
    cbv zeta in Hw;
    repeat match type of Hw with
    | context [if ?cond then _ else _] =>
        destruct cond eqn:?; cbv beta iota in Hw; try discriminate Hw
    end;
    first [injection Hw as <- | subst w];
    first
      [ match goal with
        | |- context [compressed_encode._pack_bits ?fields] =>
            destruct (pack_bits_layout fields eq_refl) as (B & L & Hh);
            split; [exact B|];
            split; [rewrite L | rewrite Hh]; reflexivity
        end
      | split; [lia|]; split; reflexivity ].
Qed.

Lemma compressed_word_layout_witness :
  0 <= 17368 < 2 ^ 16 /\ 17368 mod 4 = 0 /\ 17368 / 2 ^ 13 = 2.
Proof.
  apply (compressed_word_layout 14 15 4 17368 0 2).
  right. left. reflexivity.
Defined.

(** * Operands can be read back from compressed words *)

Section Tables.
Import compressed_encode enumeration.

Lemma all_from_spec (P : Z -> bool) (lo : Z) (n : positive) :
  all_from lo n P = true ->
  forall x : Z, lo <= x < lo + Z.pos n -> P x = true.
Proof.
  unfold all_from.
  set (step := fun s : Z * bool => (fst s + 1, snd s && P (fst s))).
  assert (I : forall k : positive,
             fst (Pos.iter step (lo, true) k) = lo + Z.pos k /\
             (snd (Pos.iter step (lo, true) k) = true ->
              forall x : Z, lo <= x < lo + Z.pos k -> P x = true)).
  { induction k as [|k [F S]] using Pos.peano_ind.
    - cbn. split; [reflexivity|].
      intros H x Hx. replace x with lo by lia. exact H.
    - rewrite Pos.iter_succ. unfold step at 1 3. cbn [fst snd].
      rewrite F. split; [lia|].
      intros H x Hx. apply andb_true_iff in H. destruct H as [H1 H2].
      destruct (Z.eq_dec x (lo + Z.pos k)) as [->|N]; [exact H2|].
      apply S; [exact H1 | lia]. }
  intros H. apply (proj2 (I n) H).
Qed.

(** An encoder of one operand whose words are decoded back by [d] on a
    whole range never gives one word to two operands of the range. *)
Lemma table1 (enc : Z -> result Z) (d : Z -> Z) (lo : Z) (n : positive) :
  all_from lo n (fun a => match enc a with
                          | Ok w => d w =? a
                          | Raise _ => true
                          end) = true ->
  forall a a' w : Z, lo <= a < lo + Z.pos n -> lo <= a' < lo + Z.pos n ->
    enc a = Ok w -> enc a' = Ok w -> a = a'.
Proof.
  intros T a a' w Ha Ha' E E'.
  pose proof (all_from_spec _ _ _ T a Ha) as C. cbv beta in C.
  pose proof (all_from_spec _ _ _ T a' Ha') as C'. cbv beta in C'.
  rewrite E in C. rewrite E' in C'.
  apply Z.eqb_eq in C, C'. congruence.
Qed.

Lemma table2 (enc : Z -> Z -> result Z) (d1 d2 : Z -> Z)
    (lo1 : Z) (n1 : positive) (lo2 : Z) (n2 : positive) :
  all_from lo1 n1 (fun a =>
    all_from lo2 n2 (fun b => match enc a b with
                              | Ok w => (d1 w =? a) && (d2 w =? b)
                              | Raise _ => true
                              end)) = true ->
  forall a b a' b' w : Z,
    lo1 <= a < lo1 + Z.pos n1 -> lo2 <= b < lo2 + Z.pos n2 ->
    lo1 <= a' < lo1 + Z.pos n1 -> lo2 <= b' < lo2 + Z.pos n2 ->
    enc a b = Ok w -> enc a' b' = Ok w -> a = a' /\ b = b'.
Proof.
  intros T a b a' b' w Ha Hb Ha' Hb' E E'.
  pose proof (all_from_spec _ _ _ (all_from_spec _ _ _ T a Ha) b Hb) as C.
  pose proof (all_from_spec _ _ _ (all_from_spec _ _ _ T a' Ha') b' Hb') as C'.
  cbv beta in C, C'. rewrite E in C. rewrite E' in C'.
  apply andb_true_iff in C, C'. rewrite !Z.eqb_eq in C, C'.
  destruct C, C'. split; congruence.
Qed.

Lemma table3 (enc : Z -> Z -> Z -> result Z) (d1 d2 d3 : Z -> Z)
    (lo1 : Z) (n1 : positive) (lo2 : Z) (n2 : positive)
    (lo3 : Z) (n3 : positive) :
  all_from lo1 n1 (fun a =>
    all_from lo2 n2 (fun b =>
      all_from lo3 n3 (fun c =>
        match enc a b c with
        | Ok w => (d1 w =? a) && (d2 w =? b) && (d3 w =? c)
        | Raise _ => true
        end))) = true ->
  forall a b c a' b' c' w : Z,
    lo1 <= a < lo1 + Z.pos n1 -> lo2 <= b < lo2 + Z.pos n2 ->
    lo3 <= c < lo3 + Z.pos n3 ->
    lo1 <= a' < lo1 + Z.pos n1 -> lo2 <= b' < lo2 + Z.pos n2 ->
    lo3 <= c' < lo3 + Z.pos n3 ->
    enc a b c = Ok w -> enc a' b' c' = Ok w -> a = a' /\ b = b' /\ c = c'.
Proof.
  intros T a b c a' b' c' w Ha Hb Hc Ha' Hb' Hc' E E'.
  pose proof (all_from_spec _ _ _
    (all_from_spec _ _ _ (all_from_spec _ _ _ T a Ha) b Hb) c Hc) as C.
  pose proof (all_from_spec _ _ _
    (all_from_spec _ _ _ (all_from_spec _ _ _ T a' Ha') b' Hb') c' Hc') as C'.
  cbv beta in C, C'. rewrite E in C. rewrite E' in C'.
  rewrite !andb_true_iff, !Z.eqb_eq in C, C'.
  destruct C as [[? ?] ?], C' as [[? ?] ?]. repeat split; congruence.
Qed.

(** The operands an encoder accepts lie in the ranges its assertions
    name. *)
Lemma py_assert_ok {A : Type} (cond : bool) (msg : string) (rest : result A)
    (v : A) :
  py_assert cond msg rest = Ok v -> cond = true /\ rest = Ok v.
Proof. destruct cond; [intros H; split; [reflexivity | exact H] | discriminate]. Qed.

Lemma enc_c_j_range (funct3 imm w : Z) :
  py_assert (imm mod 2 =? 0) ""
    (py_assert (in_range (-2048) imm 2046) ""
       (Ok (pack_cj funct3 (Z.land imm 0xFFF)))) = Ok w ->
  -2048 <= imm < -2048 + 4095.
Proof.
  intros H. apply py_assert_ok in H. destruct H as [_ H].
  apply py_assert_ok in H. destruct H as [R _].
  apply in_range_spec in R. lia.
Qed.

Lemma enc_cb_range (funct3 rs1_prime imm w : Z) :
  enc_cb funct3 rs1_prime imm = Ok w ->
  8 <= rs1_prime < 8 + 8 /\ -256 <= imm < -256 + 511.
Proof.
  unfold enc_cb. intros H.
  apply py_assert_ok in H. destruct H as [R1 H].
  apply py_assert_ok in H. destruct H as [_ H].
  apply py_assert_ok in H. destruct H as [R2 _].
  apply in_range_spec in R1, R2. lia.
Qed.

Lemma enc_c_lw_range (a b c w : Z) :
  enc_c_lw a b c = Ok w -> 8 <= a < 8 + 8 /\ 8 <= b < 8 + 8 /\ 0 <= c < 0 + 125.
Proof.
  unfold enc_c_lw. intros E.
  repeat (apply py_assert_ok in E; destruct E as [? E]).
  repeat match goal with
  | H : _ && _ = true |- _ => apply andb_true_iff in H; destruct H
  | H : in_range _ _ _ = true |- _ => apply in_range_spec in H
  end.
  lia.
Qed.

Lemma enc_c_sw_range (a b c w : Z) :
  enc_c_sw a b c = Ok w -> 8 <= a < 8 + 8 /\ 8 <= b < 8 + 8 /\ 0 <= c < 0 + 125.
Proof.
  unfold enc_c_sw. intros E.
  repeat (apply py_assert_ok in E; destruct E as [? E]).
  repeat match goal with
  | H : _ && _ = true |- _ => apply andb_true_iff in H; destruct H
  | H : in_range _ _ _ = true |- _ => apply in_range_spec in H
  end.
  lia.
Qed.

Lemma enc_c_lwsp_range (a b w : Z) :
  enc_c_lwsp a b = Ok w -> 1 <= a < 1 + 31 /\ 0 <= b < 0 + 253.
Proof.
  unfold enc_c_lwsp. intros E.
  repeat (apply py_assert_ok in E; destruct E as [? E]).
  repeat match goal with
  | H : _ && _ = true |- _ => apply andb_true_iff in H; destruct H
  | H : in_range _ _ _ = true |- _ => apply in_range_spec in H
  end.
  lia.
Qed.

Lemma enc_c_swsp_range (a b w : Z) :
  enc_c_swsp a b = Ok w -> 0 <= a < 0 + 32 /\ 0 <= b < 0 + 253.
Proof.
  unfold enc_c_swsp. intros E.
  repeat (apply py_assert_ok in E; destruct E as [? E]).
  repeat match goal with
  | H : _ && _ = true |- _ => apply andb_true_iff in H; destruct H
  | H : in_range _ _ _ = true |- _ => apply in_range_spec in H
  end.
  lia.
Qed.

Lemma enc_c_addi4spn_range (a b w : Z) :
  enc_c_addi4spn a b = Ok w -> 8 <= a < 8 + 8 /\ 4 <= b < 4 + 1017.
Proof.
  unfold enc_c_addi4spn. intros E.
  repeat (apply py_assert_ok in E; destruct E as [? E]).
  repeat match goal with
  | H : _ && _ = true |- _ => apply andb_true_iff in H; destruct H
  | H : in_range _ _ _ = true |- _ => apply in_range_spec in H
  end.
  lia.
Qed.

Lemma enc_c_addi16sp_range (a w : Z) :
  enc_c_addi16sp a = Ok w -> -512 <= a < -512 + 1009.
Proof.
  unfold enc_c_addi16sp. intros E.
  repeat (apply py_assert_ok in E; destruct E as [? E]).
  repeat match goal with
  | H : _ && _ = true |- _ => apply andb_true_iff in H; destruct H
  | H : in_range _ _ _ = true |- _ => apply in_range_spec in H
  end.
  lia.
Qed.

Lemma enc_c_addi_range (a b w : Z) :
  enc_c_addi a b = Ok w -> 0 <= a < 0 + 32 /\ -32 <= b < -32 + 64.
Proof.
  unfold enc_c_addi. intros E.
  repeat (apply py_assert_ok in E; destruct E as [? E]).
  repeat match goal with
  | H : _ && _ = true |- _ => apply andb_true_iff in H; destruct H
  | H : in_range _ _ _ = true |- _ => apply in_range_spec in H
  end.
  lia.
Qed.

Lemma enc_c_li_range (a b w : Z) :
  enc_c_li a b = Ok w -> 1 <= a < 1 + 31 /\ -32 <= b < -32 + 64.
Proof.
  unfold enc_c_li. intros E.
  repeat (apply py_assert_ok in E; destruct E as [? E]).
  repeat match goal with
  | H : _ && _ = true |- _ => apply andb_true_iff in H; destruct H
  | H : in_range _ _ _ = true |- _ => apply in_range_spec in H
  end.
  lia.
Qed.

Lemma enc_c_lui_range (a b w : Z) :
  enc_c_lui a b = Ok w -> 1 <= a < 1 + 31 /\ -32 <= b < -32 + 64.
Proof.
  unfold enc_c_lui. intros E.
  repeat (apply py_assert_ok in E; destruct E as [? E]).
  repeat match goal with
  | H : _ && _ = true |- _ => apply andb_true_iff in H; destruct H
  | H : in_range _ _ _ = true |- _ => apply in_range_spec in H
  end.
  lia.
Qed.

Lemma enc_c_andi_range (a b w : Z) :
  enc_c_andi a b = Ok w -> 8 <= a < 8 + 8 /\ -32 <= b < -32 + 64.
Proof.
  unfold enc_c_andi. intros E.
  repeat (apply py_assert_ok in E; destruct E as [? E]).
  repeat match goal with
  | H : _ && _ = true |- _ => apply andb_true_iff in H; destruct H
  | H : in_range _ _ _ = true |- _ => apply in_range_spec in H
  end.
  lia.
Qed.

Lemma enc_c_srli_range (a b w : Z) :
  enc_c_srli a b = Ok w -> 8 <= a < 8 + 8 /\ 1 <= b < 1 + 31.
Proof.
  unfold enc_c_srli. intros E.
  repeat (apply py_assert_ok in E; destruct E as [? E]).
  repeat match goal with
  | H : _ && _ = true |- _ => apply andb_true_iff in H; destruct H
  | H : in_range _ _ _ = true |- _ => apply in_range_spec in H
  end.
  lia.
Qed.

Lemma enc_c_srai_range (a b w : Z) :
  enc_c_srai a b = Ok w -> 8 <= a < 8 + 8 /\ 1 <= b < 1 + 31.
Proof.
  unfold enc_c_srai. intros E.
  repeat (apply py_assert_ok in E; destruct E as [? E]).
  repeat match goal with
  | H : _ && _ = true |- _ => apply andb_true_iff in H; destruct H
  | H : in_range _ _ _ = true |- _ => apply in_range_spec in H
  end.
  lia.
Qed.

Lemma enc_c_slli_range (a b w : Z) :
  enc_c_slli a b = Ok w -> 1 <= a < 1 + 31 /\ 1 <= b < 1 + 31.
Proof.
  unfold enc_c_slli. intros E.
  repeat (apply py_assert_ok in E; destruct E as [? E]).
  repeat match goal with
  | H : _ && _ = true |- _ => apply andb_true_iff in H; destruct H
  | H : in_range _ _ _ = true |- _ => apply in_range_spec in H
  end.
  lia.
Qed.

Lemma enc_c_mv_range (a b w : Z) :
  enc_c_mv a b = Ok w -> 1 <= a < 1 + 31 /\ 1 <= b < 1 + 31.
Proof.
  unfold enc_c_mv. intros E.
  repeat (apply py_assert_ok in E; destruct E as [? E]).
  repeat match goal with
  | H : _ && _ = true |- _ => apply andb_true_iff in H; destruct H
  | H : in_range _ _ _ = true |- _ => apply in_range_spec in H
  end.
  lia.
Qed.

Lemma enc_c_add_range (a b w : Z) :
  enc_c_add a b = Ok w -> 1 <= a < 1 + 31 /\ 1 <= b < 1 + 31.
Proof.
  unfold enc_c_add. intros E.
  repeat (apply py_assert_ok in E; destruct E as [? E]).
  repeat match goal with
  | H : _ && _ = true |- _ => apply andb_true_iff in H; destruct H
  | H : in_range _ _ _ = true |- _ => apply in_range_spec in H
  end.
  lia.
Qed.

Lemma enc_c_jr_range (a w : Z) :
  enc_c_jr a = Ok w -> 1 <= a < 1 + 31.
Proof.
  unfold enc_c_jr. intros E.
  repeat (apply py_assert_ok in E; destruct E as [? E]).
  repeat match goal with
  | H : _ && _ = true |- _ => apply andb_true_iff in H; destruct H
  | H : in_range _ _ _ = true |- _ => apply in_range_spec in H
  end.
  lia.
Qed.

Lemma enc_c_jalr_range (a w : Z) :
  enc_c_jalr a = Ok w -> 1 <= a < 1 + 31.
Proof.
  unfold enc_c_jalr. intros E.
  repeat (apply py_assert_ok in E; destruct E as [? E]).
  repeat match goal with
  | H : _ && _ = true |- _ => apply andb_true_iff in H; destruct H
  | H : in_range _ _ _ = true |- _ => apply in_range_spec in H
  end.
  lia.
Qed.

Lemma enc_ca_range (funct2 a b w : Z) :
  enc_ca funct2 a b = Ok w -> 8 <= a < 8 + 8 /\ 8 <= b < 8 + 8.
Proof.
  unfold enc_ca. intros E.
  repeat (apply py_assert_ok in E; destruct E as [? E]).
  repeat match goal with
  | H : _ && _ = true |- _ => apply andb_true_iff in H; destruct H
  | H : in_range _ _ _ = true |- _ => apply in_range_spec in H
  end.
  lia.
Qed.

End Tables.

(** X10: the jump and branch encoders scatter the bits of the offset over
    the word, and nothing is lost on the way: two accepted calls of
    [enc_c_j] (of [enc_c_jal], [enc_c_beqz], [enc_c_bnez]) that return the
    same word had the same offset and the same register. *)
Theorem jump_and_branch_operands_recoverable (w : Z) :
  (forall imm imm' : Z,
     compressed_encode.enc_c_j imm = Ok w ->
     compressed_encode.enc_c_j imm' = Ok w -> imm = imm') /\
  (forall imm imm' : Z,
     compressed_encode.enc_c_jal imm = Ok w ->
     compressed_encode.enc_c_jal imm' = Ok w -> imm = imm') /\
  (forall rs1_prime imm rs1_prime' imm' : Z,
     compressed_encode.enc_c_beqz rs1_prime imm = Ok w ->
     compressed_encode.enc_c_beqz rs1_prime' imm' = Ok w ->
     rs1_prime = rs1_prime' /\ imm = imm') /\
  (forall rs1_prime imm rs1_prime' imm' : Z,
     compressed_encode.enc_c_bnez rs1_prime imm = Ok w ->
     compressed_encode.enc_c_bnez rs1_prime' imm' = Ok w ->
     rs1_prime = rs1_prime' /\ imm = imm').
Proof.
  pose (bit := fun (x k : Z) => Z.land (Z.shiftr x k) 1).
  pose (dj := fun x : Z =>
    riscv_utils.sign_extend
      (Z.shiftl (bit x 12) 11 + Z.shiftl (bit x 11) 4
       + Z.shiftl (Z.land (Z.shiftr x 9) 3) 8 + Z.shiftl (bit x 8) 10
       + Z.shiftl (bit x 7) 6 + Z.shiftl (bit x 6) 7
       + Z.shiftl (Z.land (Z.shiftr x 3) 7) 1 + Z.shiftl (bit x 2) 5) 12).
  pose (db := fun x : Z =>
    riscv_utils.sign_extend
      (Z.shiftl (bit x 12) 8 + Z.shiftl (Z.land (Z.shiftr x 10) 3) 3
       + Z.shiftl (Z.land (Z.shiftr x 5) 3) 6
       + Z.shiftl (Z.land (Z.shiftr x 3) 3) 1 + Z.shiftl (bit x 2) 5) 9).
  pose (dr := fun x : Z => Z.land (Z.shiftr x 7) 7 + 8).
  assert (Tj : enumeration.all_from (-2048) 4095
                 (fun a => match compressed_encode.enc_c_j a with
                           | Ok x => dj x =? a
                           | Raise _ => true
                           end) = true)
    by (vm_compute; reflexivity).
  assert (Tjal : enumeration.all_from (-2048) 4095
                   (fun a => match compressed_encode.enc_c_jal a with
                             | Ok x => dj x =? a
                             | Raise _ => true
                             end) = true)
    by (vm_compute; reflexivity).
  assert (Tbeqz : enumeration.all_from 8 8 (fun a =>
            enumeration.all_from (-256) 511
              (fun b => match compressed_encode.enc_c_beqz a b with
                        | Ok x => (dr x =? a) && (db x =? b)
                        | Raise _ => true
                        end)) = true)
    by (vm_compute; reflexivity).
  assert (Tbnez : enumeration.all_from 8 8 (fun a =>
            enumeration.all_from (-256) 511
              (fun b => match compressed_encode.enc_c_bnez a b with
                        | Ok x => (dr x =? a) && (db x =? b)
                        | Raise _ => true
                        end)) = true)
    by (vm_compute; reflexivity).
  split; [|split; [|split]].
  - intros imm imm' E E'.
    apply (table1 _ _ _ _ Tj imm imm' w); try assumption.
    + apply (enc_c_j_range 5 imm w E).
    + apply (enc_c_j_range 5 imm' w E').
  - intros imm imm' E E'.
    apply (table1 _ _ _ _ Tjal imm imm' w); try assumption.
    + unfold compressed_encode.enc_c_jal in E.
      apply py_assert_ok in E. destruct E as [_ E].
      apply py_assert_ok in E. destruct E as [R _].
      apply in_range_spec in R. lia.
    + unfold compressed_encode.enc_c_jal in E'.
      apply py_assert_ok in E'. destruct E' as [_ E'].
      apply py_assert_ok in E'. destruct E' as [R _].
      apply in_range_spec in R. lia.
  - intros r i r' i' E E'.
    destruct (enc_cb_range 6 r i w E). destruct (enc_cb_range 6 r' i' w E').
    apply (table2 _ _ _ _ _ _ _ Tbeqz r i r' i' w); assumption.
  - intros r i r' i' E E'.
    destruct (enc_cb_range 7 r i w E). destruct (enc_cb_range 7 r' i' w E').
    apply (table2 _ _ _ _ _ _ _ Tbnez r i r' i' w); assumption.
Qed.

Lemma jump_and_branch_operands_recoverable_witness :
  compressed_encode.enc_c_j (-2) = Ok 49149 /\ -2 = -2.
Proof.
  split; [reflexivity|].
  destruct (jump_and_branch_operands_recoverable 49149) as [H _].
  apply (H (-2) (-2)); reflexivity.
Defined.

(** X11: the load, store and stack-pointer encoders lose nothing either:
    two accepted calls of [enc_c_lw] (of [enc_c_sw], [enc_c_lwsp],
    [enc_c_swsp], [enc_c_addi4spn], [enc_c_addi16sp]) that return the same
    word had the same registers and the same offset. *)
Theorem memory_operands_recoverable (w : Z) :
  (forall rd rs1 uimm rd' rs1' uimm' : Z,
     compressed_encode.enc_c_lw rd rs1 uimm = Ok w ->
     compressed_encode.enc_c_lw rd' rs1' uimm' = Ok w ->
     rd = rd' /\ rs1 = rs1' /\ uimm = uimm') /\
  (forall rs1 rs2 uimm rs1' rs2' uimm' : Z,
     compressed_encode.enc_c_sw rs1 rs2 uimm = Ok w ->
     compressed_encode.enc_c_sw rs1' rs2' uimm' = Ok w ->
     rs1 = rs1' /\ rs2 = rs2' /\ uimm = uimm') /\
  (forall rd uimm rd' uimm' : Z,
     compressed_encode.enc_c_lwsp rd uimm = Ok w ->
     compressed_encode.enc_c_lwsp rd' uimm' = Ok w ->
     rd = rd' /\ uimm = uimm') /\
  (forall rs2 uimm rs2' uimm' : Z,
     compressed_encode.enc_c_swsp rs2 uimm = Ok w ->
     compressed_encode.enc_c_swsp rs2' uimm' = Ok w ->
     rs2 = rs2' /\ uimm = uimm') /\
  (forall rd nzuimm rd' nzuimm' : Z,
     compressed_encode.enc_c_addi4spn rd nzuimm = Ok w ->
     compressed_encode.enc_c_addi4spn rd' nzuimm' = Ok w ->
     rd = rd' /\ nzuimm = nzuimm') /\
  (forall nzimm nzimm' : Z,
     compressed_encode.enc_c_addi16sp nzimm = Ok w ->
     compressed_encode.enc_c_addi16sp nzimm' = Ok w ->
     nzimm = nzimm').
Proof.
  pose (bit := fun (x k : Z) => Z.land (Z.shiftr x k) 1).
  pose (reg2 := fun x : Z => Z.land (Z.shiftr x 2) 7 + 8).
  pose (reg7 := fun x : Z => Z.land (Z.shiftr x 7) 7 + 8).
  pose (dw := fun x : Z =>
    Z.shiftl (bit x 5) 6 + Z.shiftl (Z.land (Z.shiftr x 10) 7) 3
    + Z.shiftl (bit x 6) 2).
  pose (dlwsp := fun x : Z =>
    Z.shiftl (bit x 12) 5 + Z.shiftl (Z.land (Z.shiftr x 4) 7) 2
    + Z.shiftl (Z.land (Z.shiftr x 2) 3) 6).
  pose (dswsp := fun x : Z =>
    Z.shiftl (Z.land (Z.shiftr x 9) 15) 2 + Z.shiftl (Z.land (Z.shiftr x 7) 3) 6).
  pose (d4spn := fun x : Z =>
    Z.shiftl (Z.land (Z.shiftr x 11) 3) 4 + Z.shiftl (Z.land (Z.shiftr x 7) 15) 6
    + Z.shiftl (bit x 6) 2 + Z.shiftl (bit x 5) 3).
  pose (d16sp := fun x : Z =>
    riscv_utils.sign_extend
      (Z.shiftl (bit x 12) 9 + Z.shiftl (bit x 6) 4 + Z.shiftl (bit x 5) 6
       + Z.shiftl (Z.land (Z.shiftr x 3) 3) 7 + Z.shiftl (bit x 2) 5) 10).
  assert (Tlw : enumeration.all_from 8 8 (fun a =>
            enumeration.all_from 8 8 (fun b =>
              enumeration.all_from 0 125 (fun c =>
                match compressed_encode.enc_c_lw a b c with
                | Ok x => (reg2 x =? a) && (reg7 x =? b) && (dw x =? c)
                | Raise _ => true
                end))) = true)
    by (vm_compute; reflexivity).
  assert (Tsw : enumeration.all_from 8 8 (fun a =>
            enumeration.all_from 8 8 (fun b =>
              enumeration.all_from 0 125 (fun c =>
                match compressed_encode.enc_c_sw a b c with
                | Ok x => (reg7 x =? a) && (reg2 x =? b) && (dw x =? c)
                | Raise _ => true
                end))) = true)
    by (vm_compute; reflexivity).
  assert (Tlwsp : enumeration.all_from 1 31 (fun a =>
            enumeration.all_from 0 253 (fun b =>
              match compressed_encode.enc_c_lwsp a b with
              | Ok x => (Z.land (Z.shiftr x 7) 31 =? a) && (dlwsp x =? b)
              | Raise _ => true
              end)) = true)
    by (vm_compute; reflexivity).
  assert (Tswsp : enumeration.all_from 0 32 (fun a =>
            enumeration.all_from 0 253 (fun b =>
              match compressed_encode.enc_c_swsp a b with
              | Ok x => (Z.land (Z.shiftr x 2) 31 =? a) && (dswsp x =? b)
              | Raise _ => true
              end)) = true)
    by (vm_compute; reflexivity).
  assert (T4spn : enumeration.all_from 8 8 (fun a =>
            enumeration.all_from 4 1017 (fun b =>
              match compressed_encode.enc_c_addi4spn a b with
              | Ok x => (reg2 x =? a) && (d4spn x =? b)
              | Raise _ => true
              end)) = true)
    by (vm_compute; reflexivity).
  assert (T16sp : enumeration.all_from (-512) 1009 (fun a =>
            match compressed_encode.enc_c_addi16sp a with
            | Ok x => d16sp x =? a
            | Raise _ => true
            end) = true)
    by (vm_compute; reflexivity).
  split; [|split; [|split; [|split; [|split]]]].
  - intros a b c a' b' c' E E'.
    destruct (enc_c_lw_range _ _ _ _ E) as (? & ? & ?).
    destruct (enc_c_lw_range _ _ _ _ E') as (? & ? & ?).
    apply (table3 _ _ _ _ _ _ _ _ _ _ Tlw a b c a' b' c' w); assumption.
  - intros a b c a' b' c' E E'.
    destruct (enc_c_sw_range _ _ _ _ E) as (? & ? & ?).
    destruct (enc_c_sw_range _ _ _ _ E') as (? & ? & ?).
    apply (table3 _ _ _ _ _ _ _ _ _ _ Tsw a b c a' b' c' w); assumption.
  - intros a b a' b' E E'.
    destruct (enc_c_lwsp_range _ _ _ E). destruct (enc_c_lwsp_range _ _ _ E').
    apply (table2 _ _ _ _ _ _ _ Tlwsp a b a' b' w); assumption.
  - intros a b a' b' E E'.
    destruct (enc_c_swsp_range _ _ _ E). destruct (enc_c_swsp_range _ _ _ E').
    apply (table2 _ _ _ _ _ _ _ Tswsp a b a' b' w); assumption.
  - intros a b a' b' E E'.
    destruct (enc_c_addi4spn_range _ _ _ E).
    destruct (enc_c_addi4spn_range _ _ _ E').
    apply (table2 _ _ _ _ _ _ _ T4spn a b a' b' w); assumption.
  - intros a a' E E'.
    apply (table1 _ _ _ _ T16sp a a' w); try assumption.
    + apply (enc_c_addi16sp_range _ _ E).
    + apply (enc_c_addi16sp_range _ _ E').
Qed.

Lemma memory_operands_recoverable_witness :
  compressed_encode.enc_c_lw 14 15 4 = Ok 17368 /\
  (14 = 14 /\ 15 = 15 /\ 4 = 4).
Proof.
  split; [reflexivity|].
  destruct (memory_operands_recoverable 17368) as [H _].
  apply (H 14 15 4 14 15 4); reflexivity.
Defined.

(** X12: the register and immediate encoders of the arithmetic
    instructions lose nothing: two accepted calls of the same encoder that
    return the same word had the same operands.  This holds for
    [enc_c_addi], [enc_c_li], [enc_c_lui], [enc_c_andi], [enc_c_srli],
    [enc_c_srai], [enc_c_slli], the four register-register operations
    on x8-x15, [enc_c_mv], [enc_c_add], [enc_c_jr] and [enc_c_jalr]. *)
Theorem arithmetic_operands_recoverable (w : Z) :
  (forall (enc : Z -> Z -> result Z),
     In enc [compressed_encode.enc_c_addi; compressed_encode.enc_c_li;
             compressed_encode.enc_c_lui; compressed_encode.enc_c_andi;
             compressed_encode.enc_c_srli; compressed_encode.enc_c_srai;
             compressed_encode.enc_c_slli; compressed_encode.enc_c_sub;
             compressed_encode.enc_c_xor; compressed_encode.enc_c_or;
             compressed_encode.enc_c_and; compressed_encode.enc_c_mv;
             compressed_encode.enc_c_add] ->
     forall a b a' b' : Z,
       enc a b = Ok w -> enc a' b' = Ok w -> a = a' /\ b = b') /\
  (forall (enc : Z -> result Z),
     In enc [compressed_encode.enc_c_jr; compressed_encode.enc_c_jalr] ->
     forall a a' : Z, enc a = Ok w -> enc a' = Ok w -> a = a').
Proof.
  pose (bit := fun (x k : Z) => Z.land (Z.shiftr x k) 1).
  pose (reg2 := fun x : Z => Z.land (Z.shiftr x 2) 7 + 8).
  pose (reg7 := fun x : Z => Z.land (Z.shiftr x 7) 7 + 8).
  pose (full2 := fun x : Z => Z.land (Z.shiftr x 2) 31).
  pose (full7 := fun x : Z => Z.land (Z.shiftr x 7) 31).
  pose (imm6 := fun x : Z =>
    riscv_utils.sign_extend (Z.shiftl (bit x 12) 5 + Z.land (Z.shiftr x 2) 31) 6).
  assert (Taddi : enumeration.all_from 0 32 (fun a =>
            enumeration.all_from (-32) 64 (fun b =>
              match compressed_encode.enc_c_addi a b with
              | Ok x => (full7 x =? a) && (imm6 x =? b)
              | Raise _ => true
              end)) = true) by (vm_compute; reflexivity).
  assert (Tli : enumeration.all_from 1 31 (fun a =>
            enumeration.all_from (-32) 64 (fun b =>
              match compressed_encode.enc_c_li a b with
              | Ok x => (full7 x =? a) && (imm6 x =? b)
              | Raise _ => true
              end)) = true) by (vm_compute; reflexivity).
  assert (Tlui : enumeration.all_from 1 31 (fun a =>
            enumeration.all_from (-32) 64 (fun b =>
              match compressed_encode.enc_c_lui a b with
              | Ok x => (full7 x =? a) && (imm6 x =? b)
              | Raise _ => true
              end)) = true) by (vm_compute; reflexivity).
  assert (Tandi : enumeration.all_from 8 8 (fun a =>
            enumeration.all_from (-32) 64 (fun b =>
              match compressed_encode.enc_c_andi a b with
              | Ok x => (reg7 x =? a) && (imm6 x =? b)
              | Raise _ => true
              end)) = true) by (vm_compute; reflexivity).
  assert (Tsrli : enumeration.all_from 8 8 (fun a =>
            enumeration.all_from 1 31 (fun b =>
              match compressed_encode.enc_c_srli a b with
              | Ok x => (reg7 x =? a) && (full2 x =? b)
              | Raise _ => true
              end)) = true) by (vm_compute; reflexivity).
  assert (Tsrai : enumeration.all_from 8 8 (fun a =>
            enumeration.all_from 1 31 (fun b =>
              match compressed_encode.enc_c_srai a b with
              | Ok x => (reg7 x =? a) && (full2 x =? b)
              | Raise _ => true
              end)) = true) by (vm_compute; reflexivity).
  assert (Tslli : enumeration.all_from 1 31 (fun a =>
            enumeration.all_from 1 31 (fun b =>
              match compressed_encode.enc_c_slli a b with
              | Ok x => (full7 x =? a) && (full2 x =? b)
              | Raise _ => true
              end)) = true) by (vm_compute; reflexivity).
  assert (Tca : forall funct2 : Z, In funct2 [0; 1; 2; 3] ->
            enumeration.all_from 8 8 (fun a =>
              enumeration.all_from 8 8 (fun b =>
                match compressed_encode.enc_ca funct2 a b with
                | Ok x => (reg7 x =? a) && (reg2 x =? b)
                | Raise _ => true
                end)) = true).
  { intros funct2 Hin. cbn [In] in Hin.
    destruct Hin as [<- | [<- | [<- | [<- | []]]]]; vm_compute; reflexivity. }
  assert (Tmv : enumeration.all_from 1 31 (fun a =>
            enumeration.all_from 1 31 (fun b =>
              match compressed_encode.enc_c_mv a b with
              | Ok x => (full7 x =? a) && (full2 x =? b)
              | Raise _ => true
              end)) = true) by (vm_compute; reflexivity).
  assert (Tadd : enumeration.all_from 1 31 (fun a =>
            enumeration.all_from 1 31 (fun b =>
              match compressed_encode.enc_c_add a b with
              | Ok x => (full7 x =? a) && (full2 x =? b)
              | Raise _ => true
              end)) = true) by (vm_compute; reflexivity).
  assert (Tjr : enumeration.all_from 1 31 (fun a =>
            match compressed_encode.enc_c_jr a with
            | Ok x => full7 x =? a
            | Raise _ => true
            end) = true) by (vm_compute; reflexivity).
  assert (Tjalr : enumeration.all_from 1 31 (fun a =>
            match compressed_encode.enc_c_jalr a with
            | Ok x => full7 x =? a
            | Raise _ => true
            end) = true) by (vm_compute; reflexivity).
  split.
  - intros enc Hin a b a' b' E E'. cbn [In] in Hin.
    repeat (destruct Hin as [<- | Hin]); try contradiction.
    + destruct (enc_c_addi_range _ _ _ E). destruct (enc_c_addi_range _ _ _ E').
      apply (table2 _ _ _ _ _ _ _ Taddi a b a' b' w); assumption.
    + destruct (enc_c_li_range _ _ _ E). destruct (enc_c_li_range _ _ _ E').
      apply (table2 _ _ _ _ _ _ _ Tli a b a' b' w); assumption.
    + destruct (enc_c_lui_range _ _ _ E). destruct (enc_c_lui_range _ _ _ E').
      apply (table2 _ _ _ _ _ _ _ Tlui a b a' b' w); assumption.
    + destruct (enc_c_andi_range _ _ _ E). destruct (enc_c_andi_range _ _ _ E').
      apply (table2 _ _ _ _ _ _ _ Tandi a b a' b' w); assumption.
    + destruct (enc_c_srli_range _ _ _ E). destruct (enc_c_srli_range _ _ _ E').
      apply (table2 _ _ _ _ _ _ _ Tsrli a b a' b' w); assumption.
    + destruct (enc_c_srai_range _ _ _ E). destruct (enc_c_srai_range _ _ _ E').
      apply (table2 _ _ _ _ _ _ _ Tsrai a b a' b' w); assumption.
    + destruct (enc_c_slli_range _ _ _ E). destruct (enc_c_slli_range _ _ _ E').
      apply (table2 _ _ _ _ _ _ _ Tslli a b a' b' w); assumption.
    + destruct (enc_ca_range _ _ _ _ E). destruct (enc_ca_range _ _ _ _ E').
      apply (table2 _ _ _ _ _ _ _ (Tca 0 ltac:(simpl; tauto)) a b a' b' w);
        assumption.
    + destruct (enc_ca_range _ _ _ _ E). destruct (enc_ca_range _ _ _ _ E').
      apply (table2 _ _ _ _ _ _ _ (Tca 1 ltac:(simpl; tauto)) a b a' b' w);
        assumption.
    + destruct (enc_ca_range _ _ _ _ E). destruct (enc_ca_range _ _ _ _ E').
      apply (table2 _ _ _ _ _ _ _ (Tca 2 ltac:(simpl; tauto)) a b a' b' w);
        assumption.
    + destruct (enc_ca_range _ _ _ _ E). destruct (enc_ca_range _ _ _ _ E').
      apply (table2 _ _ _ _ _ _ _ (Tca 3 ltac:(simpl; tauto)) a b a' b' w);
        assumption.
    + destruct (enc_c_mv_range _ _ _ E). destruct (enc_c_mv_range _ _ _ E').
      apply (table2 _ _ _ _ _ _ _ Tmv a b a' b' w); assumption.
    + destruct (enc_c_add_range _ _ _ E). destruct (enc_c_add_range _ _ _ E').
      apply (table2 _ _ _ _ _ _ _ Tadd a b a' b' w); assumption.
  - intros enc Hin a a' E E'. cbn [In] in Hin.
    destruct Hin as [<- | [<- | []]].
    + apply (table1 _ _ _ _ Tjr a a' w); try assumption.
      * apply (enc_c_jr_range _ _ E).
      * apply (enc_c_jr_range _ _ E').
    + apply (table1 _ _ _ _ Tjalr a a' w); try assumption.
      * apply (enc_c_jalr_range _ _ E).
      * apply (enc_c_jalr_range _ _ E').
Qed.

Lemma arithmetic_operands_recoverable_witness :
  compressed_encode.enc_c_li 10 (-1) = Ok 0x557D /\ (10 = 10 /\ -1 = -1).
Proof.
  split; [reflexivity|].
  destruct (arithmetic_operands_recoverable 0x557D) as [H _].
  apply (H compressed_encode.enc_c_li ltac:(simpl; tauto) 10 (-1) 10 (-1));
    reflexivity.
Defined.

(** * Sign injection *)

Section SignBits.
Import ieee754.

Lemma fraction_of_bits (x y : Z) :
  (forall i : Z, 0 <= i < 23 -> Z.testbit x i = Z.testbit y i) ->
  fraction_field x = fraction_field y.
Proof.
  intros H. unfold fraction_field. rewrite <- !Z.land_ones by lia.
  apply Z.bits_inj'. intros i Hi. rewrite !Z.land_spec.
  rewrite Z.testbit_ones_nonneg by lia.
  destruct (Z.ltb_spec i 23) as [L|L].
  - rewrite H by lia. reflexivity.
  - rewrite !andb_false_r. reflexivity.
Qed.

Lemma exponent_of_bits (x y : Z) :
  (forall i : Z, 23 <= i < 31 -> Z.testbit x i = Z.testbit y i) ->
  exponent_field x = exponent_field y.
Proof.
  intros H. unfold exponent_field.
  rewrite <- !Z.shiftr_div_pow2, <- !Z.land_ones by lia.
  apply Z.bits_inj'. intros i Hi. rewrite !Z.land_spec, !Z.shiftr_spec by lia.
  rewrite Z.testbit_ones_nonneg by lia.
  destruct (Z.ltb_spec i 8) as [L|L].
  - rewrite H by lia. reflexivity.
  - rewrite !andb_false_r. reflexivity.
Qed.

Lemma sign_of_bit (x : Z) : sign_field x = Z.b2z (Z.testbit x 31).
Proof.
  rewrite testbit_sign_field. pose proof (field_bounds x) as (Hs & _).
  destruct (Z.eqb_spec (sign_field x) 1) as [E|N]; simpl; lia.
Qed.

Lemma sign_mask_bit (i : Z) :
  0 <= i -> Z.testbit fp_model.FP_SIGN_MASK i = (i =? 31).
Proof.
  intros Hi. change fp_model.FP_SIGN_MASK with (2 ^ 31).
  rewrite Z.pow2_bits_eqb by lia. apply Z.eqb_sym.
Qed.

Lemma fsgnj_s_bit (a b i : Z) :
  0 <= i ->
  Z.testbit (fp_model.fsgnj_s a b) i
  = if i =? 31 then Z.testbit b 31 else Z.testbit a i.
Proof.
  intros Hi. unfold fp_model.fsgnj_s. cbv zeta.
  rewrite Z.lor_spec, !Z.land_spec, Z.lnot_spec, sign_mask_bit by lia.
  destruct (Z.eqb_spec i 31) as [->|N]; cbn [negb].
  - rewrite andb_false_r, andb_true_r. reflexivity.
  - rewrite andb_false_r, andb_true_r, orb_false_r. reflexivity.
Qed.

Lemma fsgnjn_s_bit (a b i : Z) :
  0 <= i ->
  Z.testbit (fp_model.fsgnjn_s a b) i
  = if i =? 31 then negb (Z.testbit b 31) else Z.testbit a i.
Proof.
  intros Hi. unfold fp_model.fsgnjn_s. cbv zeta.
  rewrite Z.lor_spec, !Z.land_spec, !Z.lnot_spec, sign_mask_bit by lia.
  destruct (Z.eqb_spec i 31) as [->|N]; cbn [negb].
  - rewrite andb_false_r, andb_true_r. reflexivity.
  - rewrite andb_false_r, andb_true_r, orb_false_r. reflexivity.
Qed.

Lemma fsgnjx_s_bit (a b i : Z) :
  0 <= i ->
  Z.testbit (fp_model.fsgnjx_s a b) i
  = if i =? 31 then xorb (Z.testbit a 31) (Z.testbit b 31) else Z.testbit a i.
Proof.
  intros Hi. unfold fp_model.fsgnjx_s.
  rewrite Z.lxor_spec, Z.land_spec, sign_mask_bit by lia.
  destruct (Z.eqb_spec i 31) as [->|N].
  - rewrite andb_true_r. reflexivity.
  - rewrite andb_false_r, xorb_false_r. reflexivity.
Qed.

(** A pattern that takes every bit but bit 31 from [a]. *)
Lemma magnitude_fields (r a : Z) :
  (forall i : Z, 0 <= i -> i <> 31 -> Z.testbit r i = Z.testbit a i) ->
  exponent_field r = exponent_field a /\ fraction_field r = fraction_field a.
Proof.
  intros H. split.
  - apply exponent_of_bits. intros i Hi. apply H; lia.
  - apply fraction_of_bits. intros i Hi. apply H; lia.
Qed.

Lemma bits_in_32 (r a : Z) :
  0 <= a < 2 ^ 32 ->
  (forall i : Z, 32 <= i -> Z.testbit r i = Z.testbit a i) ->
  0 <= r < 2 ^ 32.
Proof.
  intros Ha H.
  assert (E : r = r mod 2 ^ 32); [|rewrite E; apply Z.mod_pos_bound; lia].
  apply Z.bits_inj'. intros i Hi.
  destruct (Z.lt_ge_cases i 32) as [L|L].
  - rewrite Z.mod_pow2_bits_low by lia. reflexivity.
  - rewrite Z.mod_pow2_bits_high by lia. rewrite H by lia.
    rewrite <- (Z.mod_small a (2 ^ 32)) by lia.
    apply Z.mod_pow2_bits_high. lia.
Qed.

Lemma other_bits_kept (a b i : Z) :
  0 <= i -> i <> 31 ->
  Z.testbit (fp_model.fsgnj_s a b) i = Z.testbit a i /\
  Z.testbit (fp_model.fsgnjn_s a b) i = Z.testbit a i /\
  Z.testbit (fp_model.fsgnjx_s a b) i = Z.testbit a i.
Proof.
  intros Hi N. rewrite fsgnj_s_bit, fsgnjn_s_bit, fsgnjx_s_bit by lia.
  apply Z.eqb_neq in N. rewrite N. repeat split.
Qed.

Lemma sign_injection_layout (a b : Z) :
  (exponent_field (fp_model.fsgnj_s a b) = exponent_field a /\
   fraction_field (fp_model.fsgnj_s a b) = fraction_field a /\
   sign_field (fp_model.fsgnj_s a b) = sign_field b) /\
  (exponent_field (fp_model.fsgnjn_s a b) = exponent_field a /\
   fraction_field (fp_model.fsgnjn_s a b) = fraction_field a /\
   sign_field (fp_model.fsgnjn_s a b) = 1 - sign_field b) /\
  (exponent_field (fp_model.fsgnjx_s a b) = exponent_field a /\
   fraction_field (fp_model.fsgnjx_s a b) = fraction_field a /\
   sign_field (fp_model.fsgnjx_s a b) = (sign_field a + sign_field b) mod 2).
Proof.
  split; [|split].
  - destruct (magnitude_fields (fp_model.fsgnj_s a b) a) as [E F].
    { intros i Hi N. apply other_bits_kept; assumption. }
    split; [exact E|]. split; [exact F|].
    rewrite !sign_of_bit, fsgnj_s_bit by lia. reflexivity.
  - destruct (magnitude_fields (fp_model.fsgnjn_s a b) a) as [E F].
    { intros i Hi N. apply other_bits_kept; assumption. }
    split; [exact E|]. split; [exact F|].
    rewrite !sign_of_bit, fsgnjn_s_bit by lia.
    cbn [Z.eqb Pos.eqb]. destruct (Z.testbit b 31); reflexivity.
  - destruct (magnitude_fields (fp_model.fsgnjx_s a b) a) as [E F].
    { intros i Hi N. apply other_bits_kept; assumption. }
    split; [exact E|]. split; [exact F|].
    rewrite !sign_of_bit, fsgnjx_s_bit by lia.
    cbn [Z.eqb Pos.eqb].
    destruct (Z.testbit a 31), (Z.testbit b 31); reflexivity.
Qed.

End SignBits.

(** X13: the three sign-injection operations keep the exponent and the
    fraction of their first operand and change the sign bit only: FSGNJ
    takes the sign of the second operand, FSGNJN its opposite, FSGNJX the
    exclusive or of both signs.  A 32-bit first operand gives a 32-bit
    result, and no operand is treated as special: NaN patterns are moved
    like any other. *)
Theorem sign_injection_fields (rs1_bits rs2_bits : Z) :
  let j := fp_model.fsgnj_s rs1_bits rs2_bits in
  let jn := fp_model.fsgnjn_s rs1_bits rs2_bits in
  let jx := fp_model.fsgnjx_s rs1_bits rs2_bits in
  (ieee754.exponent_field j = ieee754.exponent_field rs1_bits /\
   ieee754.fraction_field j = ieee754.fraction_field rs1_bits /\
   ieee754.sign_field j = ieee754.sign_field rs2_bits) /\
  (ieee754.exponent_field jn = ieee754.exponent_field rs1_bits /\
   ieee754.fraction_field jn = ieee754.fraction_field rs1_bits /\
   ieee754.sign_field jn = 1 - ieee754.sign_field rs2_bits) /\
  (ieee754.exponent_field jx = ieee754.exponent_field rs1_bits /\
   ieee754.fraction_field jx = ieee754.fraction_field rs1_bits /\
   ieee754.sign_field jx
   = (ieee754.sign_field rs1_bits + ieee754.sign_field rs2_bits) mod 2) /\
  (0 <= rs1_bits < 2 ^ 32 ->
   0 <= j < 2 ^ 32 /\ 0 <= jn < 2 ^ 32 /\ 0 <= jx < 2 ^ 32).
Proof.
  intros j jn jx. subst j jn jx.
  destruct (sign_injection_layout rs1_bits rs2_bits) as (J & JN & JX).
  split; [exact J|]. split; [exact JN|]. split; [exact JX|].
  intros H. split; [|split].
  - apply (bits_in_32 _ rs1_bits H). intros i Hi.
    apply other_bits_kept; lia.
  - apply (bits_in_32 _ rs1_bits H). intros i Hi.
    apply other_bits_kept; lia.
  - apply (bits_in_32 _ rs1_bits H). intros i Hi.
    apply other_bits_kept; lia.
Qed.

Lemma sign_injection_fields_witness :
  0 <= fp_model.fsgnjn_s 0x7FC00001 0x3F800000 < 2 ^ 32.
Proof.
  destruct (sign_injection_fields 0x7FC00001 0x3F800000) as (_ & _ & _ & H).
  destruct (H ltac:(lia)) as (_ & R & _). exact R.
Defined.

Section SignValues.
Import ieee754 dyadic.
Local Open Scope Q_scope.

Lemma value_of_fields (r a : Z) :
  exponent_field r = exponent_field a ->
  fraction_field r = fraction_field a ->
  value r == inject_Z (if sign_field r =? 1 then - 1 else 1)
             * to_Q (significand a) (exponent2 a).
Proof.
  intros E F. unfold value, signed_significand, significand, exponent2, to_Q.
  rewrite E, F.
  destruct (sign_field r =? 1)%Z.
  - rewrite inject_Z_opp. change (inject_Z (- 1)) with (- (1)). ring.
  - change (inject_Z 1) with 1. ring.
Qed.

Lemma magnitude_of_value (a : Z) :
  Qabs (value a) == to_Q (significand a) (exponent2 a).
Proof.
  rewrite value_to_Q, Qabs_to_Q. unfold signed_significand.
  pose proof (significand_bound a) as B.
  destruct (sign_field a =? 1)%Z.
  - rewrite Z.abs_opp, Z.abs_eq by lia. reflexivity.
  - rewrite Z.abs_eq by lia. reflexivity.
Qed.

End SignValues.

(** X14: what the sign injections compute on finite patterns: [fsgnj_s a b]
    denotes the magnitude of [a] with the sign of [b]; with both operands
    the same, [fsgnj_s a a] is [a] itself (FMV.S), [fsgnjn_s a a] denotes
    the negated value (FNEG.S) and [fsgnjx_s a a] the absolute value
    (FABS.S). *)
Theorem sign_injection_values (a b : Z) :
  (ieee754.value (fp_model.fsgnj_s a b)
   == (if ieee754.sign_field b =? 1 then - Qabs (ieee754.value a)
       else Qabs (ieee754.value a)))%Q /\
  fp_model.fsgnj_s a a = a /\
  (ieee754.value (fp_model.fsgnjn_s a a) == - ieee754.value a)%Q /\
  (ieee754.value (fp_model.fsgnjx_s a a) == Qabs (ieee754.value a))%Q /\
  (ieee754.is_finite_pattern a ->
   ieee754.is_finite_pattern (fp_model.fsgnj_s a b) /\
   ieee754.is_finite_pattern (fp_model.fsgnjn_s a a) /\
   ieee754.is_finite_pattern (fp_model.fsgnjx_s a a)).
Proof.
  destruct (sign_injection_layout a b) as ((E1 & F1 & S1) & _).
  destruct (sign_injection_layout a a) as (_ & (E2 & F2 & S2) & (E3 & F3 & S3)).
  pose proof (field_bounds a) as (Hs & _).
  split; [|split; [|split; [|split]]].
  - rewrite (value_of_fields _ a E1 F1), S1.
    destruct (ieee754.sign_field b =? 1); rewrite magnitude_of_value.
    + change (inject_Z (- 1)) with (- (1))%Q. ring.
    + change (inject_Z 1) with 1%Q. ring.
  - apply Z.bits_inj'. intros i Hi. rewrite fsgnj_s_bit by lia.
    destruct (Z.eqb_spec i 31) as [->|N]; reflexivity.
  - rewrite (value_of_fields _ a E2 F2), S2.
    rewrite (value_of_fields a a eq_refl eq_refl).
    destruct (Z.eqb_spec (ieee754.sign_field a) 1) as [A|A].
    + rewrite A. change (1 - 1 =? 1) with false. cbv iota.
      change (inject_Z (- 1)) with (- (1))%Q. change (inject_Z 1) with 1%Q. ring.
    + replace (ieee754.sign_field a) with 0 by lia.
      change (1 - 0 =? 1) with true. cbv iota.
      change (inject_Z (- 1)) with (- (1))%Q. change (inject_Z 1) with 1%Q. ring.
  - rewrite (value_of_fields _ a E3 F3), S3, magnitude_of_value.
    replace ((ieee754.sign_field a + ieee754.sign_field a) mod 2) with 0.
    + change (0 =? 1) with false. cbv iota. change (inject_Z 1) with 1%Q. ring.
    + replace (ieee754.sign_field a + ieee754.sign_field a)
        with (ieee754.sign_field a * 2) by lia.
      symmetry. apply Z.mod_mul. lia.
  - unfold ieee754.is_finite_pattern. rewrite E1, E2, E3. tauto.
Qed.

Lemma sign_injection_values_witness :
  ieee754.is_finite_pattern (fp_model.fsgnjn_s 0x3F800000 0x3F800000).
Proof.
  destruct (sign_injection_values 0x3F800000 0x3F800000) as (_ & _ & _ & _ & H).
  destruct (H ltac:(vm_compute; discriminate)) as (_ & R & _). exact R.
Defined.

(** * Comparisons, minimum and maximum *)

Section Ordering.
Import ieee754 dyadic py_float.
Local Open Scope Q_scope.

Lemma not_nan_finite (a : Z) : is_finite_pattern a -> fp_model.is_nan a = false.
Proof.
  unfold is_finite_pattern. intros H. rewrite is_nan_fields.
  apply Z.eqb_neq in H. rewrite H. reflexivity.
Qed.

Lemma is_nan_pattern_iff (a : Z) :
  fp_model.is_nan a = true <-> is_nan_pattern a.
Proof.
  rewrite is_nan_fields. unfold is_nan_pattern.
  rewrite andb_true_iff, negb_true_iff, Z.eqb_eq, Z.eqb_neq. tauto.
Qed.

Lemma bits_to_float_finite (a : Z) :
  is_finite_pattern a ->
  fp_model.bits_to_float a
  = PyFin (sign_field a =? 1)%Z (significand a) (exponent2 a).
Proof.
  unfold is_finite_pattern. intros H. rewrite bits_to_float_fields. cbv zeta.
  apply Z.eqb_neq in H. rewrite H. reflexivity.
Qed.

Lemma compare_values (a b : Z) :
  is_finite_pattern a -> is_finite_pattern b ->
  compare (fp_model.bits_to_float a) (fp_model.bits_to_float b)
  = Some (value a ?= value b).
Proof.
  intros Ha Hb. rewrite !bits_to_float_finite by assumption.
  rewrite compare_finite. reflexivity.
Qed.

Lemma compare_antisym (f g : pyfloat) :
  compare g f = option_map CompOpp (compare f g).
Proof.
  destruct f as [|n1|n1 m1 e1], g as [|n2|n2 m2 e2]; try reflexivity.
  - destruct n1, n2; reflexivity.
  - destruct n1; reflexivity.
  - destruct n2; reflexivity.
  - unfold compare. cbn [option_map]. rewrite (Z.min_comm e2 e1).
    rewrite Z.compare_antisym. reflexivity.
Qed.

Lemma compare_refl (f : pyfloat) :
  isnan f = false -> compare f f = Some Eq.
Proof.
  destruct f as [|n|n m e]; [discriminate| |]; intros _.
  - destruct n; reflexivity.
  - unfold compare. rewrite Z.compare_refl. reflexivity.
Qed.

Lemma compare_some (f g : pyfloat) :
  isnan f = false -> isnan g = false -> exists c, compare f g = Some c.
Proof.
  destruct f as [|n1|n1 m1 e1], g as [|n2|n2 m2 e2]; try discriminate;
    intros _ _; eexists; reflexivity.
Qed.

Lemma bits_to_float_not_nan (a : Z) :
  fp_model.is_nan a = false -> isnan (fp_model.bits_to_float a) = false.
Proof.
  rewrite is_nan_fields, bits_to_float_fields. cbv zeta.
  destruct (exponent_field a =? 255)%Z; [|reflexivity].
  destruct (fraction_field a =? 0)%Z; [reflexivity | discriminate].
Qed.

(** Finite patterns of 32 bits with the same value are the same pattern,
    or two zeros. *)
Lemma value_injective (a b : Z) :
  is_finite_pattern a -> is_finite_pattern b ->
  value a == value b ->
  (a mod 2 ^ 32 = b mod 2 ^ 32)%Z \/ (is_zero_pattern a /\ is_zero_pattern b).
Proof.
  intros Ha Hb E.
  pose proof (field_bounds a) as (Sa & Ea & Fa).
  pose proof (field_bounds b) as (Sb & Eb & Fb).
  unfold is_finite_pattern in Ha, Hb.
  rewrite !value_to_Q in E.
  set (e := Z.min (exponent2 a) (exponent2 b)).
  assert (Xa : to_Q (signed_significand a) (exponent2 a)
               == to_Q (signed_significand a * 2 ^ (exponent2 a - e)) e).
  { rewrite to_Q_shift by lia. replace (e + (exponent2 a - e))%Z
      with (exponent2 a) by lia. reflexivity. }
  assert (Xb : to_Q (signed_significand b) (exponent2 b)
               == to_Q (signed_significand b * 2 ^ (exponent2 b - e)) e).
  { rewrite to_Q_shift by lia. replace (e + (exponent2 b - e))%Z
      with (exponent2 b) by lia. reflexivity. }
  rewrite Xa, Xb in E. apply to_Q_eq in E.
  (* the integer equation *)
  assert (Ga : (0 <= significand a < 2 ^ 24)%Z) by apply significand_bound.
  assert (Gb : (0 <= significand b < 2 ^ 24)%Z) by apply significand_bound.
  assert (Na : (exponent_field a <> 0 -> 2 ^ 23 <= significand a)%Z).
  { unfold significand. intros N. apply Z.eqb_neq in N. rewrite N. lia. }
  assert (Nb : (exponent_field b <> 0 -> 2 ^ 23 <= significand b)%Z).
  { unfold significand. intros N. apply Z.eqb_neq in N. rewrite N. lia. }
  assert (Za : (exponent_field a = 0 -> significand a = fraction_field a
                                       /\ exponent2 a = -149)%Z).
  { unfold significand, exponent2. intros ->. split; reflexivity. }
  assert (Zb : (exponent_field b = 0 -> significand b = fraction_field b
                                       /\ exponent2 b = -149)%Z).
  { unfold significand, exponent2. intros ->. split; reflexivity. }
  assert (Pa : (exponent_field a <> 0 ->
                significand a = 2 ^ 23 + fraction_field a
                /\ exponent2 a = exponent_field a - 150)%Z).
  { unfold significand, exponent2. intros N. apply Z.eqb_neq in N.
    rewrite N. split; reflexivity. }
  assert (Pb : (exponent_field b <> 0 ->
                significand b = 2 ^ 23 + fraction_field b
                /\ exponent2 b = exponent_field b - 150)%Z).
  { unfold significand, exponent2. intros N. apply Z.eqb_neq in N.
    rewrite N. split; reflexivity. }
  (* equal magnitudes and, unless zero, equal signs *)
  assert (M : (significand a * 2 ^ (exponent2 a - e)
               = significand b * 2 ^ (exponent2 b - e))%Z /\
              (significand a <> 0 -> sign_field a = sign_field b)%Z).
  { assert (P1 : (0 < 2 ^ (exponent2 a - e))%Z)
      by (apply Z.pow_pos_nonneg; lia).
    assert (P2 : (0 < 2 ^ (exponent2 b - e))%Z)
      by (apply Z.pow_pos_nonneg; lia).
    unfold signed_significand in E.
    destruct (Z.eqb_spec (sign_field a) 1) as [A|A],
             (Z.eqb_spec (sign_field b) 1) as [B|B]; split; try nia. }
  destruct M as [M Sg].
  assert (Ex : exponent2 a = exponent2 b /\ significand a = significand b).
  { destruct (Z.lt_trichotomy (exponent2 a) (exponent2 b)) as [L|[L|L]].
    - exfalso. replace (exponent2 a - e)%Z with 0%Z in M by lia.
      assert (Nz : exponent_field b <> 0%Z).
      { intros Z0. destruct (Zb Z0) as [_ Q]. rewrite Q in L.
        unfold exponent2 in L.
        destruct (Z.eqb_spec (exponent_field a) 0); lia. }
      assert (P : (2 <= 2 ^ (exponent2 b - e))%Z).
      { replace (exponent2 b - e)%Z with (Z.succ (exponent2 b - e - 1)) by lia.
        rewrite Z.pow_succ_r by lia.
        assert (0 < 2 ^ (exponent2 b - e - 1))%Z
          by (apply Z.pow_pos_nonneg; lia). lia. }
      specialize (Nb Nz). nia.
    - split; [exact L|].
      replace (exponent2 a - e)%Z with 0%Z in M by lia.
      replace (exponent2 b - e)%Z with 0%Z in M by lia. lia.
    - exfalso. replace (exponent2 b - e)%Z with 0%Z in M by lia.
      assert (Nz : exponent_field a <> 0%Z).
      { intros Z0. destruct (Za Z0) as [_ Q]. rewrite Q in L.
        unfold exponent2 in L.
        destruct (Z.eqb_spec (exponent_field b) 0); lia. }
      assert (P : (2 <= 2 ^ (exponent2 a - e))%Z).
      { replace (exponent2 a - e)%Z with (Z.succ (exponent2 a - e - 1)) by lia.
        rewrite Z.pow_succ_r by lia.
        assert (0 < 2 ^ (exponent2 a - e - 1))%Z
          by (apply Z.pow_pos_nonneg; lia). lia. }
      specialize (Na Nz). nia. }
  destruct Ex as [Ee Es].
  assert (Fields : exponent_field a = exponent_field b
                   /\ fraction_field a = fraction_field b).
  { destruct (Z.eq_dec (exponent_field a) 0%Z) as [A|A],
             (Z.eq_dec (exponent_field b) 0%Z) as [B|B].
    - destruct (Za A), (Zb B). lia.
    - destruct (Za A). specialize (Nb B). lia.
    - destruct (Zb B). specialize (Na A). lia.
    - destruct (Pa A), (Pb B). lia. }
  destruct Fields as [Fe Ff].
  destruct (Z.eq_dec (significand a) 0%Z) as [Z0|NZ].
  - right. unfold is_zero_pattern.
    assert (exponent_field a = 0%Z).
    { destruct (Z.eq_dec (exponent_field a) 0%Z) as [A|A]; [exact A|].
      specialize (Na A). lia. }
    destruct (Za H) as [Q _]. repeat split; lia.
  - left. rewrite !fields_decompose. rewrite (Sg NZ), Fe, Ff. reflexivity.
Qed.

Lemma zero_pattern_value (a : Z) : is_zero_pattern a -> value a == 0.
Proof.
  unfold is_zero_pattern. intros [E F].
  rewrite value_to_Q. unfold signed_significand, significand.
  rewrite E, F. cbn [Z.eqb].
  destruct (sign_field a =? 1)%Z; apply to_Q_zero.
Qed.

Lemma is_zero_pattern_iff (a : Z) :
  fp_model.is_zero a = true <-> is_zero_pattern a.
Proof.
  rewrite is_zero_fields. unfold is_zero_pattern.
  rewrite andb_true_iff, !Z.eqb_eq. tauto.
Qed.

End Ordering.

(** X15: the comparisons agree with the order of the numbers.  For two
    finite patterns, [flt_s] answers 1 exactly when the first value is
    below the second and [fle_s] exactly when it is not above it; for
    32-bit patterns [feq_s], which compares the patterns themselves after
    putting the two zeros together, answers 1 exactly when the values are
    equal.  A NaN operand makes all three answer 0, and the answers are
    always 0 or 1. *)
Theorem comparisons_follow_values (rs1_bits rs2_bits : Z) :
  (ieee754.is_finite_pattern rs1_bits -> ieee754.is_finite_pattern rs2_bits ->
   (fp_model.flt_s rs1_bits rs2_bits = 1
    <-> (ieee754.value rs1_bits < ieee754.value rs2_bits)%Q) /\
   (fp_model.fle_s rs1_bits rs2_bits = 1
    <-> (ieee754.value rs1_bits <= ieee754.value rs2_bits)%Q) /\
   (0 <= rs1_bits < 2 ^ 32 -> 0 <= rs2_bits < 2 ^ 32 ->
    (fp_model.feq_s rs1_bits rs2_bits = 1
     <-> (ieee754.value rs1_bits == ieee754.value rs2_bits)%Q))) /\
  (ieee754.is_nan_pattern rs1_bits \/ ieee754.is_nan_pattern rs2_bits ->
   fp_model.flt_s rs1_bits rs2_bits = 0 /\
   fp_model.fle_s rs1_bits rs2_bits = 0 /\
   fp_model.feq_s rs1_bits rs2_bits = 0) /\
  (In (fp_model.flt_s rs1_bits rs2_bits) [0; 1] /\
   In (fp_model.fle_s rs1_bits rs2_bits) [0; 1] /\
   In (fp_model.feq_s rs1_bits rs2_bits) [0; 1]).
Proof.
  split; [|split].
  - intros Ha Hb.
    pose proof (compare_values _ _ Ha Hb) as C.
    unfold fp_model.flt_s, fp_model.fle_s, fp_model.feq_s,
      py_float.ltb, py_float.leb.
    rewrite !not_nan_finite by assumption. cbn [orb]. cbv zeta.
    rewrite C.
    split; [|split].
    + destruct (Qcompare_spec (ieee754.value rs1_bits) (ieee754.value rs2_bits))
        as [E|L|G]; split; intros H; try discriminate; try reflexivity.
      * rewrite E in H. exfalso. apply (Qlt_irrefl _ H).
      * exact L.
      * exfalso. apply (Qlt_irrefl (ieee754.value rs1_bits)).
        apply (Qlt_trans _ _ _ H G).
    + destruct (Qcompare_spec (ieee754.value rs1_bits) (ieee754.value rs2_bits))
        as [E|L|G]; split; intros H; try discriminate; try reflexivity.
      * rewrite E. apply Qle_refl.
      * apply Qlt_le_weak. exact L.
      * exfalso. apply (Qlt_irrefl (ieee754.value rs1_bits)).
        apply (Qle_lt_trans _ _ _ H G).
    + intros Ra Rb.
      destruct (fp_model.is_zero rs1_bits && fp_model.is_zero rs2_bits) eqn:Zs.
      * apply andb_true_iff in Zs. destruct Zs as [Z1 Z2].
        apply is_zero_pattern_iff in Z1, Z2.
        split; [intros _ | reflexivity].
        rewrite (zero_pattern_value _ Z1), (zero_pattern_value _ Z2). reflexivity.
      * destruct (Z.eqb_spec rs1_bits rs2_bits) as [->|N].
        -- split; reflexivity.
        -- split; [discriminate|]. intros E. exfalso.
           destruct (value_injective _ _ Ha Hb E) as [M|[Z1 Z2]].
           ++ rewrite !Z.mod_small in M by lia. contradiction.
           ++ apply is_zero_pattern_iff in Z1, Z2. rewrite Z1, Z2 in Zs.
              discriminate.
  - intros H.
    assert (N : fp_model.is_nan rs1_bits || fp_model.is_nan rs2_bits = true).
    { apply orb_true_iff. destruct H as [H|H]; [left|right];
        apply is_nan_pattern_iff; exact H. }
    unfold fp_model.flt_s, fp_model.fle_s, fp_model.feq_s. rewrite N.
    repeat split.
  - unfold fp_model.flt_s, fp_model.fle_s, fp_model.feq_s. cbv zeta.
    destruct (fp_model.is_nan rs1_bits || fp_model.is_nan rs2_bits);
      [simpl; tauto|].
    destruct (py_float.ltb _ _), (py_float.leb _ _),
      (fp_model.is_zero rs1_bits && fp_model.is_zero rs2_bits),
      (rs1_bits =? rs2_bits); simpl; tauto.
Qed.

Lemma comparisons_follow_values_witness :
  fp_model.flt_s 0xBF800000 0x00000001 = 1
  <-> (ieee754.value 0xBF800000 < ieee754.value 0x00000001)%Q.
Proof.
  destruct (comparisons_follow_values 0xBF800000 0x00000001) as (H & _).
  destruct (H ltac:(vm_compute; discriminate) ltac:(vm_compute; discriminate))
    as (R & _).
  exact R.
Defined.

(** * Minimum and maximum *)

Section MinMax.
Import ieee754 dyadic py_float.

Lemma zero_pattern_finite (a : Z) : is_zero_pattern a -> is_finite_pattern a.
Proof. unfold is_zero_pattern, is_finite_pattern. intros [E _]. lia. Qed.

Lemma compare_zero_patterns (a b : Z) :
  fp_model.is_zero a = true -> fp_model.is_zero b = true ->
  compare (fp_model.bits_to_float a) (fp_model.bits_to_float b) = Some Eq.
Proof.
  intros Za Zb. apply is_zero_pattern_iff in Za, Zb.
  rewrite compare_values by (apply zero_pattern_finite; assumption).
  f_equal. apply Qeq_alt.
  rewrite (zero_pattern_value a Za), (zero_pattern_value b Zb). reflexivity.
Qed.

Lemma is_nan_false_iff (a : Z) :
  fp_model.is_nan a = false <-> ~ is_nan_pattern a.
Proof.
  rewrite <- is_nan_pattern_iff.
  destruct (fp_model.is_nan a); split; intros H; congruence.
Qed.

(** The comparisons that [fmin_s] and [fmax_s] and [fle_s] make on two
    operands that are not NaN. *)
Lemma compare_operands (a b : Z) :
  fp_model.is_nan a = false -> fp_model.is_nan b = false ->
  exists c : comparison,
    compare (fp_model.bits_to_float a) (fp_model.bits_to_float b) = Some c /\
    compare (fp_model.bits_to_float b) (fp_model.bits_to_float a)
    = Some (CompOpp c) /\
    compare (fp_model.bits_to_float a) (fp_model.bits_to_float a) = Some Eq /\
    compare (fp_model.bits_to_float b) (fp_model.bits_to_float b) = Some Eq.
Proof.
  intros Na Nb. apply bits_to_float_not_nan in Na, Nb.
  destruct (compare_some _ _ Na Nb) as [c C]. exists c.
  split; [exact C|]. split.
  - rewrite compare_antisym, C. reflexivity.
  - split; apply compare_refl; assumption.
Qed.

Lemma fle_s_compare (a b : Z) (c : comparison) :
  fp_model.is_nan a = false -> fp_model.is_nan b = false ->
  compare (fp_model.bits_to_float a) (fp_model.bits_to_float b) = Some c ->
  fp_model.fle_s a b = match c with Gt => 0 | _ => 1 end.
Proof.
  intros Na Nb C. unfold fp_model.fle_s, leb. rewrite Na, Nb, C.
  destruct c; reflexivity.
Qed.

Lemma min_max_not_nan (a b : Z) :
  fp_model.is_nan a = false -> fp_model.is_nan b = false ->
  (fp_model.fmin_s a b = a \/ fp_model.fmin_s a b = b) /\
  (fp_model.fmax_s a b = a \/ fp_model.fmax_s a b = b) /\
  fp_model.fle_s (fp_model.fmin_s a b) a = 1 /\
  fp_model.fle_s (fp_model.fmin_s a b) b = 1 /\
  fp_model.fle_s a (fp_model.fmax_s a b) = 1 /\
  fp_model.fle_s b (fp_model.fmax_s a b) = 1.
Proof.
  intros Na Nb.
  destruct (compare_operands a b Na Nb) as (c & Cab & Cba & Caa & Cbb).
  unfold fp_model.fmin_s, fp_model.fmax_s, leb, geb. cbv zeta.
  rewrite Na, Nb. cbn [andb]. rewrite Cab.
  destruct (fp_model.is_zero a && fp_model.is_zero b) eqn:Zs.
  - apply andb_true_iff in Zs. destruct Zs as [Za Zb].
    pose proof (compare_zero_patterns a b Za Zb) as Zab.
    pose proof (compare_zero_patterns b a Zb Za) as Zba.
    destruct (fp_model.is_negative a); cbn [negb];
      rewrite ?(fle_s_compare _ _ _ Na Na Caa), ?(fle_s_compare _ _ _ Nb Nb Cbb),
        ?(fle_s_compare _ _ _ Na Nb Zab), ?(fle_s_compare _ _ _ Nb Na Zba);
      tauto.
  - destruct c;
      rewrite ?(fle_s_compare _ _ _ Na Na Caa), ?(fle_s_compare _ _ _ Nb Nb Cbb),
        ?(fle_s_compare _ _ _ Na Nb Cab), ?(fle_s_compare _ _ _ Nb Na Cba);
      cbn [CompOpp]; tauto.
Qed.

Lemma min_max_zero_signs (a b : Z) :
  is_zero_pattern a -> is_zero_pattern b ->
  is_zero_pattern (fp_model.fmin_s a b) /\
  is_zero_pattern (fp_model.fmax_s a b) /\
  sign_field (fp_model.fmin_s a b) = Z.max (sign_field a) (sign_field b) /\
  sign_field (fp_model.fmax_s a b) = Z.min (sign_field a) (sign_field b).
Proof.
  intros Za Zb.
  assert (Na : fp_model.is_nan a = false)
    by (apply not_nan_finite, zero_pattern_finite; exact Za).
  assert (Nb : fp_model.is_nan b = false)
    by (apply not_nan_finite, zero_pattern_finite; exact Zb).
  pose proof (proj2 (is_zero_pattern_iff a) Za) as Ia.
  pose proof (proj2 (is_zero_pattern_iff b) Zb) as Ib.
  unfold fp_model.fmin_s, fp_model.fmax_s. cbv zeta.
  rewrite Na, Nb, Ia, Ib. cbn [andb].
  rewrite is_negative_sign_field.
  pose proof (field_bounds a) as (Sa & _).
  pose proof (field_bounds b) as (Sb & _).
  destruct (Z.eqb_spec (sign_field a) 1) as [A|A]; cbn [negb];
    repeat split; try apply Za; try apply Zb; lia.
Qed.

Lemma min_max_values (a b : Z) :
  is_finite_pattern a -> is_finite_pattern b ->
  (value (fp_model.fmin_s a b) == Qmin (value a) (value b))%Q /\
  (value (fp_model.fmax_s a b) == Qmax (value a) (value b))%Q.
Proof.
  intros Ha Hb.
  pose proof (not_nan_finite a Ha) as Na.
  pose proof (not_nan_finite b Hb) as Nb.
  pose proof (compare_values a b Ha Hb) as C.
  unfold fp_model.fmin_s, fp_model.fmax_s, leb, geb. cbv zeta.
  rewrite Na, Nb. cbn [andb]. rewrite C.
  destruct (fp_model.is_zero a && fp_model.is_zero b) eqn:Zs.
  - apply andb_true_iff in Zs. destruct Zs as [Za Zb].
    apply is_zero_pattern_iff in Za, Zb.
    pose proof (zero_pattern_value a Za) as Va.
    pose proof (zero_pattern_value b Zb) as Vb.
    assert (Mn : (Qmin (value a) (value b) == 0)%Q).
    { rewrite Va, Vb. apply Q.min_l. apply Qle_refl. }
    assert (Mx : (Qmax (value a) (value b) == 0)%Q).
    { rewrite Va, Vb. apply Q.max_l. apply Qle_refl. }
    rewrite Mn, Mx.
    destruct (fp_model.is_negative a); cbn [negb]; split; assumption.
  - destruct (Qcompare_spec (value a) (value b)) as [E|L|G].
    + split.
      * rewrite Q.min_l; [reflexivity|]. rewrite E. apply Qle_refl.
      * rewrite Q.max_l; [reflexivity|]. rewrite E. apply Qle_refl.
    + split.
      * rewrite Q.min_l; [reflexivity|]. apply Qlt_le_weak. exact L.
      * rewrite Q.max_r; [reflexivity|]. apply Qlt_le_weak. exact L.
    + split.
      * rewrite Q.min_r; [reflexivity|]. apply Qlt_le_weak. exact G.
      * rewrite Q.max_l; [reflexivity|]. apply Qlt_le_weak. exact G.
Qed.

End MinMax.

(** X16: [fmin_s] and [fmax_s] select one of their operands.  With two NaN
    operands both give the canonical NaN; with exactly one, they give the
    other operand unchanged, whether the NaN is quiet or signalling.
    Otherwise the result is one of the two operands, [fmin_s] is below both
    and [fmax_s] above both for [fle_s] (infinities included); on finite
    patterns they denote the smaller and the larger value; and of two zeros
    [fmin_s] is negative when one of them is and [fmax_s] positive when one
    of them is. *)
Theorem min_max_select (rs1_bits rs2_bits : Z) :
  let lo := fp_model.fmin_s rs1_bits rs2_bits in
  let hi := fp_model.fmax_s rs1_bits rs2_bits in
  (ieee754.is_nan_pattern rs1_bits -> ieee754.is_nan_pattern rs2_bits ->
   lo = fp_model.FP_CANONICAL_NAN /\ hi = fp_model.FP_CANONICAL_NAN) /\
  (ieee754.is_nan_pattern rs1_bits -> ~ ieee754.is_nan_pattern rs2_bits ->
   lo = rs2_bits /\ hi = rs2_bits) /\
  (~ ieee754.is_nan_pattern rs1_bits -> ieee754.is_nan_pattern rs2_bits ->
   lo = rs1_bits /\ hi = rs1_bits) /\
  (~ ieee754.is_nan_pattern rs1_bits -> ~ ieee754.is_nan_pattern rs2_bits ->
   (lo = rs1_bits \/ lo = rs2_bits) /\
   (hi = rs1_bits \/ hi = rs2_bits) /\
   fp_model.fle_s lo rs1_bits = 1 /\ fp_model.fle_s lo rs2_bits = 1 /\
   fp_model.fle_s rs1_bits hi = 1 /\ fp_model.fle_s rs2_bits hi = 1) /\
  (ieee754.is_finite_pattern rs1_bits -> ieee754.is_finite_pattern rs2_bits ->
   (ieee754.value lo
    == Qmin (ieee754.value rs1_bits) (ieee754.value rs2_bits))%Q /\
   (ieee754.value hi
    == Qmax (ieee754.value rs1_bits) (ieee754.value rs2_bits))%Q) /\
  (ieee754.is_zero_pattern rs1_bits -> ieee754.is_zero_pattern rs2_bits ->
   ieee754.is_zero_pattern lo /\ ieee754.is_zero_pattern hi /\
   ieee754.sign_field lo
   = Z.max (ieee754.sign_field rs1_bits) (ieee754.sign_field rs2_bits) /\
   ieee754.sign_field hi
   = Z.min (ieee754.sign_field rs1_bits) (ieee754.sign_field rs2_bits)).
Proof.
  intros lo hi. subst lo hi.
  split; [|split; [|split; [|split; [|split]]]].
  - intros Na Nb. apply is_nan_pattern_iff in Na, Nb.
    unfold fp_model.fmin_s, fp_model.fmax_s. cbv zeta. rewrite Na, Nb.
    split; reflexivity.
  - intros Na Nb. apply is_nan_pattern_iff in Na. apply is_nan_false_iff in Nb.
    unfold fp_model.fmin_s, fp_model.fmax_s. cbv zeta. rewrite Na, Nb.
    split; reflexivity.
  - intros Na Nb. apply is_nan_false_iff in Na. apply is_nan_pattern_iff in Nb.
    unfold fp_model.fmin_s, fp_model.fmax_s. cbv zeta. rewrite Na, Nb.
    split; reflexivity.
  - intros Na Nb. apply is_nan_false_iff in Na, Nb.
    apply min_max_not_nan; assumption.
  - apply min_max_values.
  - apply min_max_zero_signs.
Qed.

Lemma min_max_select_witness :
  fp_model.fmin_s 0x7FA00000 0x3F800000 = 0x3F800000 /\
  fp_model.fmax_s 0x7FA00000 0x3F800000 = 0x3F800000.
Proof.
  destruct (min_max_select 0x7FA00000 0x3F800000) as (_ & H & _).
  apply H.
  - split; vm_compute; [reflexivity | discriminate].
  - intros [E _]. vm_compute in E. discriminate.
Defined.

(** * The fused multiply-add family *)

Section Negation.
Import ieee754.

Lemma negate_bit (x i : Z) :
  0 <= i ->
  Z.testbit (fp_model._negate_float32 x) i
  = if i =? 31 then negb (Z.testbit x 31) else Z.testbit x i.
Proof.
  intros Hi. unfold fp_model._negate_float32.
  rewrite Z.lxor_spec, sign_mask_bit by lia.
  destruct (Z.eqb_spec i 31) as [->|N].
  - apply xorb_true_r.
  - apply xorb_false_r.
Qed.

Lemma negate_fields (x : Z) :
  exponent_field (fp_model._negate_float32 x) = exponent_field x /\
  fraction_field (fp_model._negate_float32 x) = fraction_field x /\
  sign_field (fp_model._negate_float32 x) = 1 - sign_field x.
Proof.
  destruct (magnitude_fields (fp_model._negate_float32 x) x) as [E F].
  { intros i Hi N. rewrite negate_bit by lia.
    apply Z.eqb_neq in N. rewrite N. reflexivity. }
  split; [exact E|]. split; [exact F|].
  rewrite !sign_of_bit, negate_bit by lia. cbn [Z.eqb Pos.eqb].
  destruct (Z.testbit x 31); reflexivity.
Qed.

Lemma negate_is_nan (x : Z) :
  fp_model.is_nan (fp_model._negate_float32 x) = fp_model.is_nan x.
Proof.
  destruct (negate_fields x) as (E & F & _).
  rewrite !is_nan_fields, E, F. reflexivity.
Qed.

Lemma negate_is_inf (x : Z) :
  fp_model.is_inf (fp_model._negate_float32 x) = fp_model.is_inf x.
Proof.
  destruct (negate_fields x) as (E & F & _).
  rewrite !is_inf_fields, E, F. reflexivity.
Qed.

Lemma negate_is_zero (x : Z) :
  fp_model.is_zero (fp_model._negate_float32 x) = fp_model.is_zero x.
Proof.
  destruct (negate_fields x) as (E & F & _).
  rewrite !is_zero_fields, E, F. reflexivity.
Qed.

Lemma land_one_bit (y : Z) : Z.land y 1 = Z.b2z (Z.testbit y 0).
Proof.
  change 1 with (Z.ones 1). rewrite Z.land_ones by lia.
  change (2 ^ 1) with 2. rewrite Z.bit0_mod. reflexivity.
Qed.

Lemma shifted_sign (x : Z) :
  Z.land (Z.shiftr x 31) 1 = Z.b2z (Z.testbit x 31).
Proof. rewrite land_one_bit, Z.shiftr_spec by lia. reflexivity. Qed.

Lemma product_sign (a b : Z) :
  Z.land (Z.lxor (Z.shiftr a 31) (Z.shiftr b 31)) 1
  = Z.b2z (xorb (Z.testbit a 31) (Z.testbit b 31)).
Proof.
  rewrite land_one_bit, Z.lxor_spec, !Z.shiftr_spec by lia. reflexivity.
Qed.

Lemma negate_shifted_sign (x : Z) :
  Z.land (Z.shiftr (fp_model._negate_float32 x) 31) 1
  = 1 - Z.land (Z.shiftr x 31) 1.
Proof.
  rewrite !shifted_sign, negate_bit by lia. cbn [Z.eqb Pos.eqb].
  destruct (Z.testbit x 31); reflexivity.
Qed.

Lemma negate_product_sign (a b : Z) :
  Z.land (Z.lxor (Z.shiftr (fp_model._negate_float32 a) 31) (Z.shiftr b 31)) 1
  = 1 - Z.land (Z.lxor (Z.shiftr a 31) (Z.shiftr b 31)) 1.
Proof.
  rewrite !product_sign, negate_bit by lia. cbn [Z.eqb Pos.eqb].
  destruct (Z.testbit a 31), (Z.testbit b 31); reflexivity.
Qed.

Lemma negate_involutive (x : Z) :
  fp_model._negate_float32 (fp_model._negate_float32 x) = x.
Proof.
  unfold fp_model._negate_float32.
  rewrite Z.lxor_assoc, Z.lxor_nilpotent, Z.lxor_0_r. reflexivity.
Qed.

End Negation.

(** X17: the three other fused operations are [fmadd_s] on negated
    operands, for all integers: [fmsub_s a b c] is [fmadd_s a b (-c)],
    [fnmsub_s a b c] is [fmadd_s (-a) b c] and [fnmadd_s a b c] is
    [fmadd_s (-a) b (-c)], where the negation flips bit 31 and nothing
    else and is its own inverse.  The special-case tests that each operation
    repeats with its own sign arithmetic therefore agree with those of
    [fmadd_s]. *)
Theorem fused_family_by_negation (rs1_bits rs2_bits rs3_bits : Z) :
  fp_model.fmsub_s rs1_bits rs2_bits rs3_bits
  = fp_model.fmadd_s rs1_bits rs2_bits (fp_model._negate_float32 rs3_bits) /\
  fp_model.fnmsub_s rs1_bits rs2_bits rs3_bits
  = fp_model.fmadd_s (fp_model._negate_float32 rs1_bits) rs2_bits rs3_bits /\
  fp_model.fnmadd_s rs1_bits rs2_bits rs3_bits
  = fp_model.fmadd_s (fp_model._negate_float32 rs1_bits) rs2_bits
      (fp_model._negate_float32 rs3_bits) /\
  fp_model._negate_float32 (fp_model._negate_float32 rs1_bits) = rs1_bits /\
  (ieee754.exponent_field (fp_model._negate_float32 rs1_bits)
   = ieee754.exponent_field rs1_bits /\
   ieee754.fraction_field (fp_model._negate_float32 rs1_bits)
   = ieee754.fraction_field rs1_bits /\
   ieee754.sign_field (fp_model._negate_float32 rs1_bits)
   = 1 - ieee754.sign_field rs1_bits).
Proof.
  split; [|split; [|split; [|split]]].
  - unfold fp_model.fmsub_s, fp_model.fmadd_s. cbv zeta.
    rewrite negate_is_nan, negate_is_inf, negate_shifted_sign. reflexivity.
  - unfold fp_model.fnmsub_s, fp_model.fmadd_s. cbv zeta.
    rewrite negate_is_nan, negate_is_inf, negate_is_zero, negate_product_sign.
    reflexivity.
  - unfold fp_model.fnmadd_s, fp_model.fmadd_s. cbv zeta.
    rewrite !negate_is_nan, !negate_is_inf, negate_is_zero,
      negate_product_sign, negate_shifted_sign.
    reflexivity.
  - apply negate_involutive.
  - apply negate_fields.
Qed.
